(** * Piccolo master control plane (src/src/master.cc)

    A shallow embedding of the master of Piccolo: task and worker state,
    shard assignment, dispatch, work stealing and the barrier that closes a
    kernel epoch, followed by the properties established about them.

    Conventions of the embedding.
    - C++ [double] values are idealised as exact rationals ([Q]); comparisons
      and [std::max] are written out on them.
    - C++ [int] fields are integers ([Z]); the one product the code forms on a
      stored field ([2 * task->size]) is wrapped to 32 bits.
    - [std::map<Taskid, TaskState*>] is the list of its values in key order:
      the only insertion is [work[s->id] = s], so the key of an entry is the
      [id] of its value, and iteration order is list order.
    - [std::set<Taskid>] is a [gset]; the table registry, the kernel registry
      and the method statistics are [gmap]s.
    - The clock, the network and the process exit are effects: the clock is a
      stream of readings, incoming messages are scripts of [TryRead] results,
      everything sent is appended to a trace, and a computation ends by
      returning, by a failed CHECK, by undefined behaviour, or by running out
      of the fuel that bounds its loops. *)

From Stdlib Require Import ZArith QArith Qminmax Lia Lqa.
From stdpp Require Import gmap strings list fin_maps sorting.

Set Warnings "-clear-no-such-hyp".

(** ** Numbers *)

(** [a < b] on doubles. *)
Definition dlt (a b : Q) : bool := negb (Qle_bool b a).

(** [a <= b] on doubles. *)
Definition dle (a b : Q) : bool := Qle_bool a b.

(** [std::max(a, b)]: [(a < b) ? b : a]. *)
Definition std_max (a b : Q) : Q := if dlt a b then b else a.

(** Conversion of an [int] to [double]. *)
Definition to_double (z : Z) : Q := inject_Z z.

(** A value stored in (or computed as) a 32-bit [int]. *)
Definition int_wrap (z : Z) : Z := ((z + 2 ^ 31) mod 2 ^ 32 - 2 ^ 31)%Z.

(** ** [std::max_element]

    The first greatest element under [comp] used as less-than: [largest] is
    replaced whenever [comp largest x] holds.  The result is the position and
    the element; [None] stands for the end iterator of an empty range. *)

Fixpoint max_element_from {A : Type} (comp : A → A → bool)
    (largest : nat * A) (i : nat) (l : list A) : nat * A :=
  match l with
  | [] => largest
  | x :: l' =>
      max_element_from comp (if comp largest.2 x then (i, x) else largest) (S i) l'
  end.

Definition max_element {A : Type} (comp : A → A → bool) (l : list A)
    : option (nat * A) :=
  match l with
  | [] => None
  | x :: l' => Some (max_element_from comp (0, x) 1 l')
  end.

(** [v[i]] for an [int] index; [None] is an access out of range. *)
Definition vec_at {A : Type} (v : list A) (i : Z) : option A :=
  if (i <? 0)%Z then None else v !! Z.to_nat i.

(** ** Taskid *)

Module Taskid.

Record t := mk { table : Z; shard : Z }.

(** [operator<]: lexicographic on (table, shard). *)
Definition lt (a b : t) : bool :=
  (table a <? table b)%Z || ((table a =? table b)%Z && (shard a <? shard b)%Z).

(** Equivalence of keys in a [std::map]: neither is less than the other. *)
Definition equiv (a b : t) : bool := negb (lt a b) && negb (lt b a).

End Taskid.

#[global] Instance Taskid_eq_dec : EqDecision Taskid.t.
Proof. solve_decision. Defined.

#[global] Instance Taskid_countable : Countable Taskid.t.
Proof.
  refine (inj_countable' (λ a, (Taskid.table a, Taskid.shard a))
            (λ p, Taskid.mk p.1 p.2) _).
  by intros [].
Defined.

(** ** TaskState *)

Inductive Status := PENDING | ACTIVE | FINISHED.

#[global] Instance Status_eq_dec : EqDecision Status.
Proof. solve_decision. Defined.

Module TaskState.

Record t := mk { id : Taskid.t; status : Status; size : Z; stolen : bool }.

(** The constructor: [status(PENDING), size(size), stolen(false)], the
    [int64_t] argument stored in an [int] field. *)
Definition new (i : Taskid.t) (sz : Z) : t := mk i PENDING (int_wrap sz) false.

Definition set_status (st : Status) (s : t) : t :=
  mk (id s) st (size s) (stolen s).

Definition set_stolen (b : bool) (s : t) : t :=
  mk (id s) (status s) (size s) b.

Definition IdCompare (a b : t) : bool := Taskid.lt (id a) (id b).

Definition WeightCompare (a b : t) : bool :=
  if stolen a && negb (stolen b) then true else (size a <? size b)%Z.

End TaskState.

#[global] Instance TaskState_eq_dec : EqDecision TaskState.t.
Proof. solve_decision. Defined.

(** ** TaskMap: [map<Taskid, TaskState*>], values in key order *)

Module TaskMap.

(** [m.find(k)]; [None] is [m.end()]. *)
Fixpoint find (k : Taskid.t) (m : list TaskState.t) : option TaskState.t :=
  match m with
  | [] => None
  | x :: m' => if Taskid.equiv k (TaskState.id x) then Some x else find k m'
  end.

(** [m[s->id] = s]: overwrite the entry of an equivalent key, or insert at
    the key's place. *)
Fixpoint assign (s : TaskState.t) (m : list TaskState.t) : list TaskState.t :=
  match m with
  | [] => [s]
  | x :: m' =>
      if Taskid.lt (TaskState.id s) (TaskState.id x) then s :: x :: m'
      else if Taskid.lt (TaskState.id x) (TaskState.id s) then x :: assign s m'
      else s :: m'
  end.

(** The entries left when the entry of key [k] is taken out. *)
Fixpoint remove (k : Taskid.t) (m : list TaskState.t) : list TaskState.t :=
  match m with
  | [] => []
  | x :: m' => if Taskid.equiv k (TaskState.id x) then m' else x :: remove k m'
  end.

(** [m.erase(m.find(k))]: erasing the end iterator is undefined. *)
Definition erase (k : Taskid.t) (m : list TaskState.t)
    : option (list TaskState.t) :=
  match find k m with
  | None => None
  | Some _ => Some (remove k m)
  end.

(** A write through the pointer stored under key [k]. *)
Fixpoint modify (f : TaskState.t → TaskState.t) (k : Taskid.t)
    (m : list TaskState.t) : list TaskState.t :=
  match m with
  | [] => []
  | x :: m' =>
      if Taskid.equiv k (TaskState.id x) then f x :: m' else x :: modify f k m'
  end.

(** The values with a given status, in key order. *)
Definition with_status (st : Status) (m : list TaskState.t) : list TaskState.t :=
  List.filter (λ s, bool_decide (TaskState.status s = st)) m.

End TaskMap.

(** ** Tables

    Modelled from the spec: the table class (piccolo/table.h) is not among
    the sources; master.cc reads its [id] and [numShards], and the registry
    [TableRegistry::tables()] maps a table id to its table. *)

Record Table := mkTable { table_id : Z; numShards : Z }.

(** The shards [assign_shard(shard, _)] touches: [(i, shard)] for every
    registered table [i] with [shard < numShards]. *)
Definition shard_targets (tables : gmap Z Table) (shard : Z) : list Taskid.t :=
  omap (λ it : Z * Table,
          if (shard <? numShards it.2)%Z then Some (Taskid.mk it.1 shard) else None)
       (map_to_list tables).

(** ** WorkerState *)

Module WorkerState.

Record t := mk {
  work : list TaskState.t;
  shards : gset Taskid.t;
  last_ping_time : Q;
  id : Z;
  last_task_start : Q;
  total_runtime : Q;
  checkpointing : bool
}.

Definition set_work (f : list TaskState.t → list TaskState.t) (w : t) : t :=
  mk (f (work w)) (shards w) (last_ping_time w) (id w) (last_task_start w)
     (total_runtime w) (checkpointing w).

Definition set_shards (f : gset Taskid.t → gset Taskid.t) (w : t) : t :=
  mk (work w) (f (shards w)) (last_ping_time w) (id w) (last_task_start w)
     (total_runtime w) (checkpointing w).

Definition set_last_ping_time (x : Q) (w : t) : t :=
  mk (work w) (shards w) x (id w) (last_task_start w) (total_runtime w)
     (checkpointing w).

Definition set_last_task_start (x : Q) (w : t) : t :=
  mk (work w) (shards w) (last_ping_time w) (id w) x (total_runtime w)
     (checkpointing w).

Definition set_total_runtime (x : Q) (w : t) : t :=
  mk (work w) (shards w) (last_ping_time w) (id w) (last_task_start w) x
     (checkpointing w).

(** The constructor, [now] being the reading of [Now()]. *)
Definition new (w_id : Z) (now : Q) : t := mk [] ∅ now w_id 0 0 false.

(** COUNT_TASKS(name, type): the vector [name()] and its length [num_name()]. *)
Definition tasks_in (st : Status) (w : t) : list TaskState.t :=
  TaskMap.with_status st (work w).

Definition pending : t → list TaskState.t := tasks_in PENDING.
Definition active : t → list TaskState.t := tasks_in ACTIVE.
Definition finished : t → list TaskState.t := tasks_in FINISHED.

Definition num_pending (w : t) : nat := length (pending w).
Definition num_active (w : t) : nat := length (active w).
Definition num_finished (w : t) : nat := length (finished w).

Definition num_assigned (w : t) : nat := length (work w).

Definition PendingCompare (a b : t) : bool := num_pending a <? num_pending b.

(** [alive()], against the file's static set [dead_workers]. *)
Definition alive (dead_workers : gset Z) (w : t) : bool :=
  bool_decide (id w ∉ dead_workers).

Definition is_assigned (i : Taskid.t) (w : t) : bool :=
  bool_decide (is_Some (TaskMap.find i (work w))).

Definition ping (now : Q) (w : t) : t := set_last_ping_time now w.

(** One step of the loop of [assign_shard], on the set of shards. *)
Definition assign_shard_step (should_service : bool) (tid : Taskid.t)
    (acc : option (gset Taskid.t)) : option (gset Taskid.t) :=
  match acc with
  | None => None
  | Some sh =>
      if should_service then Some ({[tid]} ∪ sh)
      else if bool_decide (tid ∈ sh) then Some (sh ∖ {[tid]})
      else None (* shards.erase(shards.end()) *)
  end.

(** [assign_shard(shard, should_service)]: for every registered table with
    [shard < numShards], insert or erase [(table, shard)].  [None] is the
    undefined erase of a shard that is not in the set. *)
Definition assign_shard (tables : gmap Z Table) (shard : Z)
    (should_service : bool) (w : t) : option t :=
  match foldr (assign_shard_step should_service) (Some (shards w))
              (shard_targets tables shard) with
  | None => None
  | Some sh => Some (set_shards (λ _, sh) w)
  end.

Definition serves (i : Taskid.t) (w : t) : bool := bool_decide (i ∈ shards w).

Definition assign_task (s : TaskState.t) (w : t) : t :=
  set_work (TaskMap.assign s) w.

(** [work.erase(work.find(s->id))]. *)
Definition remove_task (s : TaskState.t) (w : t) : option t :=
  match TaskMap.erase (TaskState.id s) (work w) with
  | None => None
  | Some m => Some (set_work (λ _, m) w)
  end.

Definition clear_tasks (w : t) : t := set_work (λ _, []) w.

(** [set_finished(id)]: [None] is a failed CHECK. *)
Definition set_finished (i : Taskid.t) (w : t) : option t :=
  match TaskMap.find i (work w) with
  | None => None
  | Some s =>
      if bool_decide (TaskState.status s = ACTIVE)
      then Some (set_work (TaskMap.modify (TaskState.set_status FINISHED) i) w)
      else None
  end.

(** The task [get_next] picks: the [WeightCompare]-greatest of [pending()]. *)
Definition best_pending (w : t) : option TaskState.t :=
  snd <$> max_element TaskState.WeightCompare (pending w).

End WorkerState.

(** ** Messages, run descriptors, statistics, kernels

    Modelled from the spec: the protocol messages (protobuf), RunDescriptor
    and MethodStats (piccolo/master.h) and the network thread are declared
    outside the sources; they carry the fields master.cc reads and writes. *)

Record KernelRequest := mkKernelRequest {
  kr_kernel : string; kr_method : string; kr_table : Z; kr_shard : Z
}.

Record ShardAssignment := mkShardAssignment {
  sa_new_worker : Z; sa_table : Z; sa_shard : Z
}.

Record ShardInfo := mkShardInfo { si_table : Z }.

Record KernelDone := mkKernelDone {
  kd_kernel : KernelRequest; kd_shards : list ShardInfo
}.

Record FlushResponse := mkFlushResponse { updatesdone : Z }.

Inductive Message :=
  | MTYPE_RUN_KERNEL (req : KernelRequest)
  | MTYPE_SHARD_ASSIGNMENT (req : list ShardAssignment)
  | MTYPE_WORKER_FLUSH
  | MTYPE_WORKER_APPLY
  | MTYPE_WORKER_SHUTDOWN.

(** What the master does to the outside.  [StealAttempt] is a ghost event:
    it records the call of [steal_work] made by the barrier (line 533). *)
Inductive Event :=
  | Send (dst : Z) (msg : Message)
  | Broadcast (msg : Message)
  | SyncBroadcast (msg : Message)
  | Sleep (secs : Q)
  | StealAttempt (idle_worker : Z).

Definition is_apply (e : Event) : bool :=
  match e with Broadcast MTYPE_WORKER_APPLY => true | _ => false end.

Definition is_flush (e : Event) : bool :=
  match e with Broadcast MTYPE_WORKER_FLUSH => true | _ => false end.

Definition is_run_kernel (e : Event) : bool :=
  match e with Send _ (MTYPE_RUN_KERNEL _) => true | _ => false end.

Module RunDescriptor.

(** [table] is a pointer: [None] is NULL. *)
Record t := mk {
  kernel : string; method : string; table : option Table; shards : list Z
}.

End RunDescriptor.

Module MethodStats.

Record t := mk { calls : Z; shard_time : Q; shard_calls : Z; total_time : Q }.

Definition zero : t := mk 0 0 0 0.

End MethodStats.

Module KernelInfo.

(** [KernelInfoT<C>] of kernel.h: [methods_] by name. *)
Record t := mk { name_ : string; methods_ : gset string }.

Definition has_method (name : string) (k : t) : bool :=
  bool_decide (name ∈ methods_ k).

End KernelInfo.

(** ** The kernel registry (piccolo/kernel.h) *)

Module KernelRegistry.

(** [KernelRegistry::Map], a [std::map<string, KernelInfo*>], is a map from
    names to pointers: [None] is a null pointer. *)

(** [kernel(name)]: [m_[name]], which enters a null pointer under a name
    the map does not have.  The value is the pointer and the map after. *)
Definition kernel (name : string) (reg : gmap string (option KernelInfo.t))
    : option KernelInfo.t * gmap string (option KernelInfo.t) :=
  match reg !! name with
  | Some k => (k, reg)
  | None => (None, <[name := None]> reg)
  end.

(** [KernelInfoT<C>::register_method(mname, m)]: [methods_[mname] = m]; of
    the method pointers only the names are kept. *)
Definition register_method (mname : string) (k : KernelInfo.t) : KernelInfo.t :=
  KernelInfo.mk (KernelInfo.name_ k) ({[mname]} ∪ KernelInfo.methods_ k).

(** [KernelRegistrationHelper<C>(name)]; [None] is the failed CHECK. *)
Definition KernelRegistrationHelper (name : string)
    (reg : gmap string (option KernelInfo.t))
    : option (gmap string (option KernelInfo.t)) :=
  if bool_decide (is_Some (reg !! name)) then None
  else Some (<[name := Some (KernelInfo.mk name ∅)]> reg).

(** [MethodRegistrationHelper<C>(klass, mname, m)]: the method is entered
    through the pointer [kernel(klass)] returns; [None] is the call through
    a null pointer. *)
Definition MethodRegistrationHelper (klass mname : string)
    (reg : gmap string (option KernelInfo.t))
    : option (gmap string (option KernelInfo.t)) :=
  let (k, reg') := kernel klass reg in
  match k with
  | None => None
  | Some k => Some (<[klass := Some (register_method mname k)]> reg')
  end.

End KernelRegistry.

(** Shards of a worker in [Taskid] order, as [ShardSet] iterates. *)
Definition Taskid_le (a b : Taskid.t) : Prop := Taskid.lt b a = false.

#[global] Instance Taskid_le_dec : RelDecision Taskid_le.
Proof. intros a b. unfold Taskid_le. apply _. Defined.

Definition sorted_shards (s : gset Taskid.t) : list Taskid.t :=
  merge_sort Taskid_le (elements s).

(** Tables in key order, as [TableRegistry::Map] iterates. *)
Definition table_le (a b : Z * Table) : Prop := (a.1 ≤ b.1)%Z.

#[global] Instance table_le_dec : RelDecision table_le.
Proof. intros a b. unfold table_le. apply _. Defined.

Definition sorted_tables (tables : gmap Z Table) : list (Z * Table) :=
  merge_sort table_le (map_to_list tables).

(** ** Master *)

Module Master.

(** The fields of [Master] that master.cc uses, the file's static
    [dead_workers], the two flags, and the outside world: clock readings
    ([clock] at [ticks]), the scripts of [TryRead] results for KERNEL_DONE
    and FLUSH_RESPONSE (source and message, or nothing available), and the
    trace of events. *)
Record t := mk {
  workers_ : list WorkerState.t;
  tables_ : gmap Z Table;
  kernels_ : gmap string (option KernelInfo.t);
  method_stats_ : gmap string MethodStats.t;
  current_run_ : RunDescriptor.t;
  current_run_start_ : Q;
  finished_ : Z;
  dispatched_ : Z;
  kernel_epoch_ : Z;
  shards_assigned_ : bool;
  dead_workers : gset Z;
  FLAGS_work_stealing : bool;
  FLAGS_sleep_time : Q;
  clock : nat → Q;
  ticks : nat;
  kernel_done_in : list (option (Z * KernelDone));
  flush_in : list (option (Z * FlushResponse));
  trace : list Event
}.

Definition set_workers_ (x : list WorkerState.t) (m : t) : t :=
  mk x (tables_ m) (kernels_ m) (method_stats_ m) (current_run_ m)
     (current_run_start_ m) (finished_ m) (dispatched_ m) (kernel_epoch_ m)
     (shards_assigned_ m) (dead_workers m) (FLAGS_work_stealing m)
     (FLAGS_sleep_time m) (clock m) (ticks m) (kernel_done_in m)
     (flush_in m) (trace m).

Definition set_kernels_ (x : gmap string (option KernelInfo.t)) (m : t) : t :=
  mk (workers_ m) (tables_ m) x (method_stats_ m) (current_run_ m)
     (current_run_start_ m) (finished_ m) (dispatched_ m) (kernel_epoch_ m)
     (shards_assigned_ m) (dead_workers m) (FLAGS_work_stealing m)
     (FLAGS_sleep_time m) (clock m) (ticks m) (kernel_done_in m)
     (flush_in m) (trace m).

Definition set_method_stats_ (x : gmap string MethodStats.t) (m : t) : t :=
  mk (workers_ m) (tables_ m) (kernels_ m) x (current_run_ m)
     (current_run_start_ m) (finished_ m) (dispatched_ m) (kernel_epoch_ m)
     (shards_assigned_ m) (dead_workers m) (FLAGS_work_stealing m)
     (FLAGS_sleep_time m) (clock m) (ticks m) (kernel_done_in m)
     (flush_in m) (trace m).

Definition set_current_run_ (x : RunDescriptor.t) (m : t) : t :=
  mk (workers_ m) (tables_ m) (kernels_ m) (method_stats_ m) x
     (current_run_start_ m) (finished_ m) (dispatched_ m) (kernel_epoch_ m)
     (shards_assigned_ m) (dead_workers m) (FLAGS_work_stealing m)
     (FLAGS_sleep_time m) (clock m) (ticks m) (kernel_done_in m)
     (flush_in m) (trace m).

Definition set_current_run_start_ (x : Q) (m : t) : t :=
  mk (workers_ m) (tables_ m) (kernels_ m) (method_stats_ m)
     (current_run_ m) x (finished_ m) (dispatched_ m) (kernel_epoch_ m)
     (shards_assigned_ m) (dead_workers m) (FLAGS_work_stealing m)
     (FLAGS_sleep_time m) (clock m) (ticks m) (kernel_done_in m)
     (flush_in m) (trace m).

Definition set_finished_ (x : Z) (m : t) : t :=
  mk (workers_ m) (tables_ m) (kernels_ m) (method_stats_ m)
     (current_run_ m) (current_run_start_ m) x (dispatched_ m)
     (kernel_epoch_ m) (shards_assigned_ m) (dead_workers m)
     (FLAGS_work_stealing m) (FLAGS_sleep_time m) (clock m) (ticks m)
     (kernel_done_in m) (flush_in m) (trace m).

Definition set_dispatched_ (x : Z) (m : t) : t :=
  mk (workers_ m) (tables_ m) (kernels_ m) (method_stats_ m)
     (current_run_ m) (current_run_start_ m) (finished_ m) x
     (kernel_epoch_ m) (shards_assigned_ m) (dead_workers m)
     (FLAGS_work_stealing m) (FLAGS_sleep_time m) (clock m) (ticks m)
     (kernel_done_in m) (flush_in m) (trace m).

Definition set_kernel_epoch_ (x : Z) (m : t) : t :=
  mk (workers_ m) (tables_ m) (kernels_ m) (method_stats_ m)
     (current_run_ m) (current_run_start_ m) (finished_ m) (dispatched_ m) x
     (shards_assigned_ m) (dead_workers m) (FLAGS_work_stealing m)
     (FLAGS_sleep_time m) (clock m) (ticks m) (kernel_done_in m)
     (flush_in m) (trace m).

Definition set_shards_assigned_ (x : bool) (m : t) : t :=
  mk (workers_ m) (tables_ m) (kernels_ m) (method_stats_ m)
     (current_run_ m) (current_run_start_ m) (finished_ m) (dispatched_ m)
     (kernel_epoch_ m) x (dead_workers m) (FLAGS_work_stealing m)
     (FLAGS_sleep_time m) (clock m) (ticks m) (kernel_done_in m)
     (flush_in m) (trace m).

Definition set_ticks (x : nat) (m : t) : t :=
  mk (workers_ m) (tables_ m) (kernels_ m) (method_stats_ m)
     (current_run_ m) (current_run_start_ m) (finished_ m) (dispatched_ m)
     (kernel_epoch_ m) (shards_assigned_ m) (dead_workers m)
     (FLAGS_work_stealing m) (FLAGS_sleep_time m) (clock m) x
     (kernel_done_in m) (flush_in m) (trace m).

Definition set_kernel_done_in (x : list (option (Z * KernelDone))) (m : t) : t :=
  mk (workers_ m) (tables_ m) (kernels_ m) (method_stats_ m)
     (current_run_ m) (current_run_start_ m) (finished_ m) (dispatched_ m)
     (kernel_epoch_ m) (shards_assigned_ m) (dead_workers m)
     (FLAGS_work_stealing m) (FLAGS_sleep_time m) (clock m) (ticks m) x
     (flush_in m) (trace m).

Definition set_flush_in (x : list (option (Z * FlushResponse))) (m : t) : t :=
  mk (workers_ m) (tables_ m) (kernels_ m) (method_stats_ m)
     (current_run_ m) (current_run_start_ m) (finished_ m) (dispatched_ m)
     (kernel_epoch_ m) (shards_assigned_ m) (dead_workers m)
     (FLAGS_work_stealing m) (FLAGS_sleep_time m) (clock m) (ticks m)
     (kernel_done_in m) x (trace m).

Definition set_trace (x : list Event) (m : t) : t :=
  mk (workers_ m) (tables_ m) (kernels_ m) (method_stats_ m)
     (current_run_ m) (current_run_start_ m) (finished_ m) (dispatched_ m)
     (kernel_epoch_ m) (shards_assigned_ m) (dead_workers m)
     (FLAGS_work_stealing m) (FLAGS_sleep_time m) (clock m) (ticks m)
     (kernel_done_in m) (flush_in m) x.

(** *** Computations of the master

    A computation runs from a master state to a value and a new state
    ([Ok]), to a failed CHECK ([Abort], with the state reached), to
    undefined behaviour ([Undef]: a null or out-of-range access, erasing an
    end iterator), or to [Spin] when a loop has used up its fuel. *)

Inductive Result (A : Type) :=
  | Ok (a : A) (m : t)
  | Abort (m : t)
  | Undef
  | Spin (m : t).

Arguments Ok {A} a m.
Arguments Abort {A} m.
Arguments Undef {A}.
Arguments Spin {A} m.

Definition M (A : Type) : Type := t → Result A.

Definition ret {A : Type} (a : A) : M A := λ m, Ok a m.

Definition bind {A B : Type} (c : M A) (k : A → M B) : M B :=
  λ m, match c m with
       | Ok a m' => k a m'
       | Abort m' => Abort m'
       | Undef => Undef
       | Spin m' => Spin m'
       end.

Declare Scope master_scope.
Delimit Scope master_scope with master.
Notation "x <- c ;; k" := (bind c (λ x, k))
  (at level 20, c at level 99, k at level 200) : master_scope.
Notation "' p <- c ;; k" := (bind c (λ x, match x with p => k end))
  (at level 20, p pattern, c at level 99, k at level 200) : master_scope.
Notation "c ;; k" := (bind c (λ _, k))
  (at level 100, k at level 200, right associativity) : master_scope.
Local Open Scope master_scope.

Definition gets {A : Type} (f : t → A) : M A := λ m, Ok (f m) m.
Definition modify (f : t → t) : M unit := λ m, Ok tt (f m).
Definition abort {A : Type} : M A := λ m, Abort m.
Definition undef {A : Type} : M A := λ _, Undef.
Definition spin {A : Type} : M A := λ m, Spin m.

(** [CHECK(b)]. *)
Definition CHECK (b : bool) : M unit := if b then ret tt else abort.

(** Dereferencing a pointer or an iterator. *)
Definition deref {A : Type} (o : option A) : M A :=
  match o with Some a => ret a | None => undef end.

(** [Now()]: the next reading of the clock. *)
Definition Now : M Q :=
  λ m, Ok (clock m (ticks m)) (set_ticks (S (ticks m)) m).

Definition emit (e : Event) : M unit :=
  modify (λ m, set_trace (trace m ++ [e]) m).

(** [network_->TryRead(ANY_SOURCE, MTYPE_KERNEL_DONE, ..)]. *)
Definition TryRead_KERNEL_DONE : M (option (Z * KernelDone)) :=
  λ m, match kernel_done_in m with
       | [] => Ok None m
       | x :: rest => Ok x (set_kernel_done_in rest m)
       end.

(** [network_->TryRead(ANY_SOURCE, MTYPE_FLUSH_RESPONSE, ..)]. *)
Definition TryRead_FLUSH_RESPONSE : M (option (Z * FlushResponse)) :=
  λ m, match flush_in m with
       | [] => Ok None m
       | x :: rest => Ok x (set_flush_in rest m)
       end.

(** An [int] used as an index of [workers_]. *)
Definition index (z : Z) : M nat :=
  if (z <? 0)%Z then undef else ret (Z.to_nat z).

(** [*workers_[i]], read and written. *)
Definition worker (i : nat) : M WorkerState.t :=
  ws <- gets workers_ ;; deref (ws !! i).

Definition set_worker (i : nat) (w : WorkerState.t) : M unit :=
  modify (λ m, set_workers_ (<[i := w]> (workers_ m)) m).

Fixpoint for_each {A : Type} (l : list A) (body : A → M unit) : M unit :=
  match l with
  | [] => ret tt
  | x :: l' => body x ;; for_each l' body
  end.

(** [method_stats_[key]]: a missing entry is created, all zero. *)
Definition method_stats (key : string) : M MethodStats.t :=
  ms <- gets method_stats_ ;;
  match ms !! key with
  | Some s => ret s
  | None => modify (set_method_stats_ (<[key := MethodStats.zero]> ms)) ;;
            ret MethodStats.zero
  end.

Definition set_method_stats (key : string) (s : MethodStats.t) : M unit :=
  modify (λ m, set_method_stats_ (<[key := s]> (method_stats_ m)) m).

Definition stats_key (r : RunDescriptor.t) : string :=
  RunDescriptor.kernel r +:+ ":" +:+ RunDescriptor.method r.

(** [KernelRegistry::kernel(name)]: [m_[name]], NULL for a new entry. *)
Definition kernel (name : string) : M (option KernelInfo.t) :=
  ks <- gets kernels_ ;;
  match ks !! name with
  | Some k => ret k
  | None => modify (set_kernels_ (<[name := None]> ks)) ;; ret None
  end.

(** The constructor: one [WorkerState] per configured worker, each reading
    the clock once.  (The REGISTER_WORKER handshake is left out.) *)
Definition new (num_workers : nat) (tables : gmap Z Table)
    (kernels : gmap string (option KernelInfo.t)) (dead : gset Z)
    (work_stealing : bool) (sleep_time : Q) (clk : nat → Q)
    (done_script : list (option (Z * KernelDone)))
    (flush_script : list (option (Z * FlushResponse))) : t :=
  mk (imap (λ i _, WorkerState.new (Z.of_nat i) (clk i)) (replicate num_workers tt))
     tables kernels ∅ (RunDescriptor.mk "" "" None []) 0 0 0 0 false
     dead work_stealing sleep_time clk num_workers done_script flush_script [].

(** *** WorkerState methods that read the clock *)

(** [WorkerState::idle_time()]. *)
Definition idle_time (w : WorkerState.t) : M Q :=
  if bool_decide (WorkerState.num_finished w ≠ length (WorkerState.work w))
  then ret 0%Q
  else now <- Now ;; ret (now - WorkerState.last_ping_time w)%Q.

(** [WorkerState::get_next(r, msg)] on [*workers_[i]]; the message is an
    out-parameter. *)
Definition get_next (i : nat) (r : RunDescriptor.t) (msg : KernelRequest)
    : M (bool * KernelRequest) :=
  w <- worker i ;;
  match WorkerState.best_pending w with
  | None => ret (false, msg)
  | Some best =>
      tb <- deref (RunDescriptor.table r) ;;
      let msg' := mkKernelRequest (RunDescriptor.kernel r)
                    (RunDescriptor.method r) (table_id tb)
                    (Taskid.shard (TaskState.id best)) in
      set_worker i (WorkerState.set_work
                      (TaskMap.modify (TaskState.set_status ACTIVE)
                                      (TaskState.id best)) w) ;;
      now <- Now ;;
      w1 <- worker i ;;
      set_worker i (WorkerState.set_last_task_start now w1) ;;
      ret (true, msg')
  end.

(** *** Shard assignment *)

Definition worker_for_shard (table shard : Z) : M (option nat) :=
  ws <- gets workers_ ;;
  ret (fst <$> list_find (λ w, Taskid.mk table shard ∈ WorkerState.shards w) ws).

(** The loop of [assign_worker]: the first alive worker with strictly
    fewer shards than every alive worker before it. *)
Fixpoint least_loaded_from (dead : gset Z)
    (best : option (nat * WorkerState.t)) (i : nat)
    (ws : list WorkerState.t) : option (nat * WorkerState.t) :=
  match ws with
  | [] => best
  | w :: ws' =>
      least_loaded_from dead
        (if WorkerState.alive dead w &&
            match best with
            | None => true
            | Some (_, b) =>
                size (WorkerState.shards w) <? size (WorkerState.shards b)
            end
         then Some (i, w) else best)
        (S i) ws'
  end.

Definition assign_worker (table shard : Z) : M nat :=
  ws <- worker_for_shard table shard ;;
  let work_size := 1%Z in
  match ws with
  | Some i =>
      w <- worker i ;;
      set_worker i
        (WorkerState.assign_task
           (TaskState.new (Taskid.mk table shard) work_size) w) ;;
      ret i
  | None =>
      workers <- gets workers_ ;;
      dead <- gets dead_workers ;;
      match least_loaded_from dead None 0 workers with
      | None => abort
      | Some (i, best) =>
          CHECK (WorkerState.alive dead best) ;;
          tables <- gets tables_ ;;
          w1 <- deref (WorkerState.assign_shard tables shard true best) ;;
          set_worker i
            (WorkerState.assign_task
               (TaskState.new (Taskid.mk table shard) work_size) w1) ;;
          ret i
      end
  end.

Definition send_table_assignments : M unit :=
  ws <- gets workers_ ;;
  let req :=
    concat (imap (λ i w,
                    (λ j, mkShardAssignment (Z.of_nat i) (Taskid.table j)
                            (Taskid.shard j))
                    <$> sorted_shards (WorkerState.shards w)) ws) in
  emit (SyncBroadcast (MTYPE_SHARD_ASSIGNMENT req)).

Definition assign_tables : M unit :=
  modify (set_shards_assigned_ true) ;;
  tables <- gets tables_ ;;
  for_each (sorted_tables tables)
    (λ it, for_each (seqZ 0 (numShards it.2))
             (λ j, _ <- assign_worker it.1 j ;; ret tt)).

Definition assign_tasks (r : RunDescriptor.t) (shards : list Z) : M unit :=
  ws <- gets workers_ ;;
  modify (set_workers_ (WorkerState.clear_tasks <$> ws)) ;;
  for_each shards
    (λ s, tb <- deref (RunDescriptor.table r) ;;
          _ <- assign_worker (table_id tb) s ;; ret tt).

(** *** Work stealing *)

(** [average_size]: one per shard of the table, summed and divided by
    [numShards]. *)
Definition average_size (tb : Table) : Q :=
  (Nat.iter (Z.to_nat (numShards tb)) (λ a, a + 1) 0
   / to_double (numShards tb))%Q.

Definition move_cost (task : TaskState.t) (avg_completion_time average_size : Q)
    : Q :=
  std_max 1 (to_double (int_wrap (2 * TaskState.size task))
             * avg_completion_time / average_size)%Q.

Definition eta (pending : list TaskState.t) (avg_completion_time average_size : Q)
    : Q :=
  foldl (λ e p, e + std_max 1 (to_double (TaskState.size p)
                               * avg_completion_time / average_size))%Q
        0%Q pending.

(** Lines 367-377 of [steal_work]: the migration of [task] from
    [*workers_[src_i]] to [*workers_[dst_i]]. *)
Definition migrate (dst_i src_i : nat) (task : TaskState.t) : M bool :=
  let tid := TaskState.id task in
  (* task->stolen = true *)
  src <- worker src_i ;;
  set_worker src_i
    (WorkerState.set_work (TaskMap.modify (TaskState.set_stolen true) tid) src) ;;
  let task := TaskState.set_stolen true task in
  tables <- gets tables_ ;;
  (* dst.assign_shard(tid.shard, true) *)
  dst <- worker dst_i ;;
  dst' <- deref (WorkerState.assign_shard tables (Taskid.shard tid) true dst) ;;
  set_worker dst_i dst' ;;
  (* src.assign_shard(tid.shard, false) *)
  src <- worker src_i ;;
  src' <- deref (WorkerState.assign_shard tables (Taskid.shard tid) false src) ;;
  set_worker src_i src' ;;
  (* src.remove_task(task) *)
  src <- worker src_i ;;
  src' <- deref (WorkerState.remove_task task src) ;;
  set_worker src_i src' ;;
  (* dst.assign_task(task) *)
  dst <- worker dst_i ;;
  set_worker dst_i (WorkerState.assign_task task dst) ;;
  ret true.

Definition steal_work (r : RunDescriptor.t) (idle_worker : Z)
    (avg_completion_time : Q) : M bool :=
  stealing <- gets FLAGS_work_stealing ;;
  if negb stealing then ret false else
  dst_i <- index idle_worker ;;
  dst <- worker dst_i ;;
  dead <- gets dead_workers ;;
  if negb (WorkerState.alive dead dst) then ret false else
  workers <- gets workers_ ;;
  ' (src_i, src) <- deref (max_element WorkerState.PendingCompare workers) ;;
  if WorkerState.num_pending src =? 0 then ret false else
  let pending := WorkerState.pending src in
  ' (_, task) <- deref (max_element TaskState.WeightCompare pending) ;;
  if TaskState.stolen task then ret false else
  tb <- deref (RunDescriptor.table r) ;;
  let average_size := average_size tb in
  let move_cost := move_cost task avg_completion_time average_size in
  let eta := eta pending avg_completion_time average_size in
  if dle eta move_cost then ret false else
  migrate dst_i src_i task.

(** *** Dispatch *)

Fixpoint dispatch_loop (r : RunDescriptor.t) (idxs : list nat)
    (num_dispatched : Z) (w_req : KernelRequest) : M Z :=
  match idxs with
  | [] => ret num_dispatched
  | i :: idxs' =>
      w <- worker i ;;
      if (0 <? WorkerState.num_pending w) && (WorkerState.num_active w =? 0)
      then
        ' (_, w_req') <- get_next i r w_req ;;
        emit (Send (WorkerState.id w + 1) (MTYPE_RUN_KERNEL w_req')) ;;
        dispatch_loop r idxs' (num_dispatched + 1)%Z w_req'
      else dispatch_loop r idxs' num_dispatched w_req
  end.

Definition dispatch_work (r : RunDescriptor.t) : M Z :=
  ws <- gets workers_ ;;
  dispatch_loop r (seq 0 (length ws)) 0%Z (mkKernelRequest "" "" 0 0).

(** *** Reaping *)

Definition reap_one_task : M Z :=
  r <- gets current_run_ ;;
  let key := stats_key r in
  _ <- method_stats key ;;
  msg <- TryRead_KERNEL_DONE ;;
  match msg with
  | Some (src, done_msg) =>
      let w_id := (src - 1)%Z in
      i <- index w_id ;;
      _ <- worker i ;;
      let task_id := Taskid.mk (kr_table (kd_kernel done_msg))
                               (kr_shard (kd_kernel done_msg)) in
      (* tables_[si.table()]->updatePartitions(si): the table must exist;
         partition metadata is outside the state modelled *)
      for_each (kd_shards done_msg)
        (λ si, tables <- gets tables_ ;;
               _ <- deref (tables !! si_table si) ;; ret tt) ;;
      w <- worker i ;;
      match WorkerState.set_finished task_id w with
      | None => abort
      | Some w' =>
          set_worker i w' ;;
          now1 <- Now ;;
          w <- worker i ;;
          set_worker i
            (WorkerState.set_total_runtime
               (WorkerState.total_runtime w + (now1 - WorkerState.last_task_start w))%Q
               w) ;;
          now2 <- Now ;;
          w <- worker i ;;
          mstats <- method_stats key ;;
          set_method_stats key
            (MethodStats.mk (MethodStats.calls mstats)
               (MethodStats.shard_time mstats + now2
                - WorkerState.last_task_start w)%Q
               (MethodStats.shard_calls mstats + 1)%Z
               (MethodStats.total_time mstats)) ;;
          now3 <- Now ;;
          w <- worker i ;;
          set_worker i (WorkerState.ping now3 w) ;;
          ret w_id
      end
  | None =>
      secs <- gets FLAGS_sleep_time ;;
      emit (Sleep secs) ;;
      ret (-1)%Z
  end.

(** *** The barrier *)

(** The test of line 522 on the reading taken before the reap and the
    reading taken after it. *)
Definition gate_open (lastWorkCheck now : Q) : bool :=
  dlt (1 # 10) (lastWorkCheck - now).

(** The test of lines 531-532 for worker [w]; [idle_time] is only called
    when the two tests before it hold. *)
Definition steal_wanted (mstats : MethodStats.t) (avg_completion_time : Q)
    (w : WorkerState.t) : M bool :=
  if (10 <? MethodStats.shard_calls mstats)%Z && dlt (2 # 10) avg_completion_time
  then idle <- idle_time w ;; ret (dlt (5 # 10) idle)
  else ret false.

(** The body of the loop of lines 527-543 for [*workers_[i]]. *)
Definition steal_visit (key : string) (avg_completion_time : Q)
    (need_update : bool) (i : nat) : M bool :=
  w <- worker i ;;
  mstats <- method_stats key ;;
  wanted <- steal_wanted mstats avg_completion_time w ;;
  need_update <-
    (if wanted : bool then
       emit (StealAttempt (WorkerState.id w)) ;;
       cur <- gets current_run_ ;;
       stole <- steal_work cur (WorkerState.id w) avg_completion_time ;;
       ret (if stole : bool then true else need_update)
     else ret need_update) ;;
  (if need_update : bool then send_table_assignments else ret tt) ;;
  ret need_update.

Fixpoint steal_loop (key : string) (avg_completion_time : Q) (idxs : list nat)
    (need_update : bool) : M bool :=
  match idxs with
  | [] => ret need_update
  | i :: idxs' =>
      need_update <- steal_visit key avg_completion_time need_update i ;;
      steal_loop key avg_completion_time idxs' need_update
  end.

(** Lines 523-543: the steal round, one visit per worker in index order. *)
Definition steal_round (key : string) : M unit :=
  _ <- Now ;;
  mstats <- method_stats key ;;
  let avg_completion_time :=
    (MethodStats.shard_time mstats
     / to_double (MethodStats.shard_calls mstats))%Q in
  ws <- gets workers_ ;;
  _ <- steal_loop key avg_completion_time (seq 0 (length ws)) false ;;
  ret tt.

(** Lines 545-547. *)
Definition redispatch : M unit :=
  cur <- gets current_run_ ;;
  d <- gets dispatched_ ;;
  if (d <? Z.of_nat (length (RunDescriptor.shards cur)))%Z then
    n <- dispatch_work cur ;;
    modify (λ m, set_dispatched_ (dispatched_ m + n)%Z m)
  else ret tt.

(** Lines 519-548: one reap, and after a successful one the steal round
    (behind the gate) and the re-dispatch. *)
Definition barrier_work (key : string) : M unit :=
  lastWorkCheck <- Now ;;
  w_id <- reap_one_task ;;
  if (0 <=? w_id)%Z then
    modify (λ m, set_finished_ (finished_ m + 1)%Z m) ;;
    now <- Now ;;
    (if gate_open lastWorkCheck now then steal_round key else ret tt) ;;
    redispatch
  else ret tt.

(** The loop of lines 566-582: read one FLUSH_RESPONSE per worker. *)
Fixpoint await_flush (fuel : nat) (flushed : nat) (quiescent : bool) : M bool :=
  match fuel with
  | 0 => spin
  | S fuel' =>
      ws <- gets workers_ ;;
      if flushed <? length ws then
        msg <- TryRead_FLUSH_RESPONSE ;;
        match msg with
        | Some (_, done_msg) =>
            await_flush fuel' (S flushed)
              (if (0 <? updatesdone done_msg)%Z then false else quiescent)
        | None =>
            secs <- gets FLAGS_sleep_time ;;
            emit (Sleep secs) ;;
            await_flush fuel' flushed quiescent
        end
      else ret quiescent
  end.

(** One flush round (lines 557-582); the value is [quiescent]. *)
Definition flush_round (fuel : nat) : M bool :=
  emit (Broadcast MTYPE_WORKER_FLUSH) ;;
  await_flush fuel 0 true.

(** [do body while (cond)]. *)
Fixpoint do_while {A : Type} (fuel : nat) (body : M A) (cond : A → bool)
    : M A :=
  match fuel with
  | 0 => spin
  | S fuel' => a <- body ;; if cond a then do_while fuel' body cond else ret a
  end.

(** The flush loop as written: [do { ... } while (1)]. *)
Definition flush_loop (fuel : nat) : M bool :=
  do_while fuel (flush_round fuel) (λ _, true).

(** The loop of [barrier] (lines 516-591). *)
Fixpoint barrier_loop (fuel : nat) (key : string) : M unit :=
  match fuel with
  | 0 => spin
  | S fuel' =>
      cur <- gets current_run_ ;;
      fin <- gets finished_ ;;
      if (fin <? Z.of_nat (length (RunDescriptor.shards cur)))%Z then
        barrier_work key ;;
        _ <- flush_loop fuel' ;;
        emit (Broadcast MTYPE_WORKER_APPLY) ;;
        now <- Now ;;
        start <- gets current_run_start_ ;;
        mstats <- method_stats key ;;
        set_method_stats key
          (MethodStats.mk (MethodStats.calls mstats)
             (MethodStats.shard_time mstats) (MethodStats.shard_calls mstats)
             (MethodStats.total_time mstats + now - start)%Q) ;;
        barrier_loop fuel' key
      else ret tt
  end.

Definition barrier (fuel : nat) : M unit :=
  cur <- gets current_run_ ;;
  let key := stats_key cur in
  _ <- method_stats key ;;
  barrier_loop fuel key.

(** *** Running a kernel *)

Definition run (fuel : nat) (r : RunDescriptor.t) : M unit :=
  (* setHelper on every table: outside the state modelled *)
  cur <- gets current_run_ ;;
  fin <- gets finished_ ;;
  CHECK (bool_decide (Z.of_nat (length (RunDescriptor.shards cur)) = fin)) ;;
  modify (set_dispatched_ 0) ;;
  modify (set_finished_ 0) ;;
  k <- kernel (RunDescriptor.kernel r) ;;
  CHECK (bool_decide (is_Some (RunDescriptor.table r))) ;;
  CHECK (bool_decide (is_Some k)) ;;
  k <- deref k ;;
  CHECK (KernelInfo.has_method (RunDescriptor.method r) k) ;;
  let shards := RunDescriptor.shards r in
  let key := stats_key r in
  mstats <- method_stats key ;;
  set_method_stats key
    (MethodStats.mk (MethodStats.calls mstats + 1)%Z
       (MethodStats.shard_time mstats) (MethodStats.shard_calls mstats)
       (MethodStats.total_time mstats)) ;;
  modify (set_current_run_ r) ;;
  now <- Now ;;
  modify (set_current_run_start_ now) ;;
  assigned <- gets shards_assigned_ ;;
  (if assigned : bool then ret tt
   else assign_tables ;; send_table_assignments) ;;
  modify (λ m, set_kernel_epoch_ (kernel_epoch_ m + 1)%Z m) ;;
  cur <- gets current_run_ ;;
  assign_tasks cur shards ;;
  n <- dispatch_work cur ;;
  modify (set_dispatched_ n) ;;
  barrier fuel.

End Master.

(** ** Well-formed task maps

    A [std::map] holds one entry per key, in key order. *)

Fixpoint TaskMap_ordered (m : list TaskState.t) : bool :=
  match m with
  | [] => true
  | x :: m' =>
      forallb (λ y, Taskid.lt (TaskState.id x) (TaskState.id y)) m'
      && TaskMap_ordered m'
  end.

Definition workers_ordered (ws : list WorkerState.t) : bool :=
  forallb (λ w, TaskMap_ordered (WorkerState.work w)) ws.

(** The state a computation ended in, when there is one. *)
Definition final_state {A : Type} (r : Master.Result A) : option Master.t :=
  match r with
  | Master.Ok _ m => Some m
  | Master.Abort m => Some m
  | Master.Undef => None
  | Master.Spin m => Some m
  end.

(** The shards [assign_shard] inserts or erases, as a set. *)
Definition targets (tables : gmap Z Table) (shard : Z) : gset Taskid.t :=
  list_to_set (shard_targets tables shard).


(** ** Vocabulary of the statements *)

(** Weakest precondition of a master computation: [Q] on a normal return,
    [E] on the state reached by a failed CHECK or by a loop that is still
    running; nothing is said of undefined behaviour. *)
Definition wp {A : Type} (c : Master.M A) (Q : A → Master.t → Prop)
    (E : Master.t → Prop) (m : Master.t) : Prop :=
  match c m with
  | Master.Ok a m' => Q a m'
  | Master.Abort m' => E m'
  | Master.Undef => True
  | Master.Spin m' => E m'
  end.

(** Whether a computation returned normally. *)
Definition returned {A : Type} (r : Master.Result A) : bool :=
  match r with Master.Ok _ _ => true | _ => false end.

(** The source worker and the task a steal would choose in state [m]. *)
Definition steal_pick (m : Master.t) : option (nat * TaskState.t) :=
  match max_element WorkerState.PendingCompare (Master.workers_ m) with
  | None => None
  | Some (src_i, src) =>
      match max_element TaskState.WeightCompare (WorkerState.pending src) with
      | None => None
      | Some (_, task) => Some (src_i, task)
      end
  end.

(** The source and the destination of a migration of [task], after it. *)
Definition src_after (tables : gmap Z Table) (task : TaskState.t)
    (src : WorkerState.t) : WorkerState.t :=
  WorkerState.mk
    (TaskMap.remove (TaskState.id task) (WorkerState.work src))
    (WorkerState.shards src ∖ targets tables (Taskid.shard (TaskState.id task)))
    (WorkerState.last_ping_time src) (WorkerState.id src)
    (WorkerState.last_task_start src) (WorkerState.total_runtime src)
    (WorkerState.checkpointing src).

Definition dst_after (tables : gmap Z Table) (task : TaskState.t)
    (dst : WorkerState.t) : WorkerState.t :=
  WorkerState.mk
    (TaskMap.assign (TaskState.set_stolen true task) (WorkerState.work dst))
    (targets tables (Taskid.shard (TaskState.id task)) ∪ WorkerState.shards dst)
    (WorkerState.last_ping_time dst) (WorkerState.id dst)
    (WorkerState.last_task_start dst) (WorkerState.total_runtime dst)
    (WorkerState.checkpointing dst).

(** The worker after a migration from itself to itself. *)
Definition self_after (tables : gmap Z Table) (task : TaskState.t)
    (w : WorkerState.t) : WorkerState.t :=
  WorkerState.mk
    (TaskMap.assign (TaskState.set_stolen true task)
       (TaskMap.remove (TaskState.id task) (WorkerState.work w)))
    ((targets tables (Taskid.shard (TaskState.id task)) ∪ WorkerState.shards w)
     ∖ targets tables (Taskid.shard (TaskState.id task)))
    (WorkerState.last_ping_time w) (WorkerState.id w)
    (WorkerState.last_task_start w) (WorkerState.total_runtime w)
    (WorkerState.checkpointing w).

(** At most one task of each worker is [ACTIVE]. *)
Definition one_active (m : Master.t) : Prop :=
  ∀ i w, Master.workers_ m !! i = Some w → WorkerState.num_active w ≤ 1.

(** The calls the master loop is made of. *)
Inductive master_call :=
  | Call_assign_tables
  | Call_assign_tasks (r : RunDescriptor.t) (shards : list Z)
  | Call_dispatch_work (r : RunDescriptor.t)
  | Call_reap_one_task
  | Call_steal_work (r : RunDescriptor.t) (idle_worker : Z)
      (avg_completion_time : Q)
  | Call_barrier (fuel : nat)
  | Call_run (fuel : nat) (r : RunDescriptor.t).

Definition call (c : master_call) : Master.M unit :=
  match c with
  | Call_assign_tables => Master.assign_tables
  | Call_assign_tasks r shards => Master.assign_tasks r shards
  | Call_dispatch_work r =>
      Master.bind (Master.dispatch_work r) (λ _, Master.ret tt)
  | Call_reap_one_task =>
      Master.bind Master.reap_one_task (λ _, Master.ret tt)
  | Call_steal_work r idle avg =>
      Master.bind (Master.steal_work r idle avg) (λ _, Master.ret tt)
  | Call_barrier fuel => Master.barrier fuel
  | Call_run fuel r => Master.run fuel r
  end.

Definition calls (cs : list master_call) : Master.M unit :=
  Master.for_each cs call.

(** The calls made inside a kernel epoch, after its tasks are assigned. *)
Definition epoch_call (c : master_call) : bool :=
  match c with
  | Call_dispatch_work _ | Call_reap_one_task | Call_steal_work _ _ _
  | Call_barrier _ => true
  | _ => false
  end.

(** The properties of task maps used as invariants. *)

Definition P_one_active (_ : nat) (wk : list TaskState.t) : Prop :=
  length (TaskMap.with_status ACTIVE wk) ≤ 1.

(** Worker [i] is as in [ws0], or one pending task of it, the
    [WeightCompare]-greatest, has been marked [ACTIVE]. *)
Definition P_dispatched (ws0 : list WorkerState.t) (i : nat)
    (wk : list TaskState.t) : Prop :=
  ∃ w0, ws0 !! i = Some w0
    ∧ (wk = WorkerState.work w0
       ∨ (WorkerState.num_active w0 = 0
          ∧ ∃ j best,
              max_element TaskState.WeightCompare (WorkerState.pending w0)
              = Some (j, best)
              ∧ wk = TaskMap.modify (TaskState.set_status ACTIVE)
                       (TaskState.id best) (WorkerState.work w0))).

(** ** A small installation, for the examples

    Two workers, two tables of four shards, one kernel with one method, and
    a clock that advances one second per reading. *)

Definition ex_tables : gmap Z Table :=
  <[0%Z := mkTable 0 4]> (<[1%Z := mkTable 1 4]> ∅).

Definition ex_kernels : gmap string (option KernelInfo.t) :=
  <["K" := Some (KernelInfo.mk "K" {["run"]})]> ∅.

Definition ex_clock (n : nat) : Q := inject_Z (Z.of_nat n).

Definition ex_master : Master.t :=
  Master.new 2 ex_tables ex_kernels ∅ true (1 # 100) ex_clock [] [].

Definition ex_run : RunDescriptor.t :=
  RunDescriptor.mk "K" "run" (Some (mkTable 0 4)) [0; 1; 2; 3]%Z.

(** The state a computation ended in, [d] when there is none. *)
Definition state_of {A : Type} (d : Master.t) (r : Master.Result A) : Master.t :=
  default d (final_state r).

(** Worker [i] holds, under key [k], a task whose [stolen] flag is set. *)
Definition stolen_at (m : Master.t) (i : nat) (k : Taskid.t) : Prop :=
  ∃ w t, Master.workers_ m !! i = Some w
    ∧ TaskMap.find k (WorkerState.work w) = Some t
    ∧ TaskState.stolen t = true.

(** The task map is well formed and still holds, flagged, every task that
    was flagged in [ws0]. *)
Definition P_stolen_kept (ws0 : list WorkerState.t) (i : nat)
    (wk : list TaskState.t) : Prop :=
  TaskMap_ordered wk = true
  ∧ ∀ w0 k t, ws0 !! i = Some w0 →
      TaskMap.find k (WorkerState.work w0) = Some t →
      TaskState.stolen t = true →
      ∃ t', TaskMap.find k wk = Some t' ∧ TaskState.stolen t' = true.

(** A run on the shards 1 and 3 of table 0, which the initial assignment
    gives to worker 1; worker 0 is idle. *)
Definition ex_run13 : RunDescriptor.t :=
  RunDescriptor.mk "K" "run" (Some (mkTable 0 4)) [1; 3]%Z.

(** The example after its tasks are assigned and worker 0 has stolen one. *)
Definition ex_stolen : Master.t :=
  state_of ex_master
    (calls [Call_assign_tables; Call_assign_tasks ex_run13 [1; 3]%Z;
            Call_steal_work ex_run13 0 (3 # 10)] ex_master).

Definition ex_epoch : list master_call :=
  [Call_dispatch_work ex_run13; Call_steal_work ex_run13 0 (3 # 10);
   Call_reap_one_task].

(** Two worker states that differ at most in their tasks and their shards:
    the id, the ping time, the start of the last task, the running time and
    the checkpointing flag are the same. *)
Definition same_bookkeeping (w w' : WorkerState.t) : Prop :=
  WorkerState.id w' = WorkerState.id w
  ∧ WorkerState.last_ping_time w' = WorkerState.last_ping_time w
  ∧ WorkerState.last_task_start w' = WorkerState.last_task_start w
  ∧ WorkerState.total_runtime w' = WorkerState.total_runtime w
  ∧ WorkerState.checkpointing w' = WorkerState.checkpointing w.

(** The complete migration of [task] from worker [src_i] to another worker
    [dst_i]: the task leaves the map of the source and enters the map of the
    destination with its flag set, the shards [assign_shard] touches change
    owner, and nothing else changes: the other workers, the other tasks and
    shards and all other fields of the two workers, and every field of the
    master but [workers_], are as before. *)
Definition migrated (m m' : Master.t) (src_i dst_i : nat) (task : TaskState.t)
    : Prop :=
  ∃ src dst src' dst',
    Master.workers_ m !! src_i = Some src
    ∧ Master.workers_ m !! dst_i = Some dst
    ∧ Master.workers_ m' !! src_i = Some src'
    ∧ Master.workers_ m' !! dst_i = Some dst'
    ∧ (∀ j, j ≠ src_i → j ≠ dst_i →
         Master.workers_ m' !! j = Master.workers_ m !! j)
    ∧ TaskMap.find (TaskState.id task) (WorkerState.work src) = Some task
    ∧ TaskMap.find (TaskState.id task) (WorkerState.work src') = None
    ∧ TaskMap.find (TaskState.id task) (WorkerState.work dst')
      = Some (TaskState.set_stolen true task)
    ∧ (∀ k, k ≠ TaskState.id task →
         TaskMap.find k (WorkerState.work src')
         = TaskMap.find k (WorkerState.work src)
         ∧ TaskMap.find k (WorkerState.work dst')
           = TaskMap.find k (WorkerState.work dst))
    ∧ targets (Master.tables_ m) (Taskid.shard (TaskState.id task))
      ⊆ WorkerState.shards src
    ∧ WorkerState.shards src'
      = WorkerState.shards src
        ∖ targets (Master.tables_ m) (Taskid.shard (TaskState.id task))
    ∧ WorkerState.shards dst'
      = targets (Master.tables_ m) (Taskid.shard (TaskState.id task))
        ∪ WorkerState.shards dst
    ∧ same_bookkeeping src src'
    ∧ same_bookkeeping dst dst'
    ∧ m' = Master.set_workers_ (Master.workers_ m') m.

(** Whether worker [i] has [tid] among its shards. *)
Definition owns (m : Master.t) (i : nat) (tid : Taskid.t) : bool :=
  match Master.workers_ m !! i with
  | Some w => WorkerState.serves tid w
  | None => false
  end.

(** Every worker serves, in every table, the shard index of each of its
    pending tasks. *)
Definition serves_pending (m : Master.t) : Prop :=
  ∀ i w t, Master.workers_ m !! i = Some w → t ∈ WorkerState.pending w →
    targets (Master.tables_ m) (Taskid.shard (TaskState.id t))
    ⊆ WorkerState.shards w.

(** The guards a steal has passed when it gets to the migration. *)
Definition steal_guards (r : RunDescriptor.t) (idle : Z) (avg : Q) (m : Master.t)
    (dst : WorkerState.t) (src_i : nat) (src : WorkerState.t) (task : TaskState.t)
    (tb : Table) : Prop :=
  Master.FLAGS_work_stealing m = true
  ∧ (0 ≤ idle)%Z
  ∧ Master.workers_ m !! Z.to_nat idle = Some dst
  ∧ WorkerState.alive (Master.dead_workers m) dst = true
  ∧ max_element WorkerState.PendingCompare (Master.workers_ m) = Some (src_i, src)
  ∧ WorkerState.num_pending src ≠ 0
  ∧ (∃ j, max_element TaskState.WeightCompare (WorkerState.pending src) = Some (j, task))
  ∧ TaskState.stolen task = false
  ∧ RunDescriptor.table r = Some tb.


(** The example with its two tasks assigned to worker 1. *)
Definition ex_assigned : Master.t :=
  state_of ex_master
    (calls [Call_assign_tables; Call_assign_tasks ex_run13 [1; 3]%Z] ex_master).




(** What [run] rejects: the kernel is not registered, or registered as a
    null entry (left by an earlier lookup), or lacks the method, or the
    descriptor has no table. *)
Definition invalid_descriptor (r : RunDescriptor.t) (m : Master.t) : Prop :=
  Master.kernels_ m !! RunDescriptor.kernel r = None
  ∨ Master.kernels_ m !! RunDescriptor.kernel r = Some None
  ∨ (∃ k, Master.kernels_ m !! RunDescriptor.kernel r = Some (Some k)
          ∧ KernelInfo.has_method (RunDescriptor.method r) k = false)
  ∨ RunDescriptor.table r = None.

(** The ranking the specification gives: a stolen task above every task that
    is not, and between equal flags the larger size above the smaller. *)
Definition spec_outranks (a b : TaskState.t) : bool :=
  (TaskState.stolen a && negb (TaskState.stolen b))
  || (bool_decide (TaskState.stolen a = TaskState.stolen b)
      && (TaskState.size b <? TaskState.size a)%Z).

(** The value a computation returned, when it did. *)
Definition returned_value {A : Type} (r : Master.Result A) : option A :=
  match r with Master.Ok a _ => Some a | _ => None end.

(** The example with all four tasks assigned, after worker 1 has stolen task
    (0, 0) of worker 0. *)
Definition ex_mixed : Master.t :=
  state_of ex_master
    (calls [Call_assign_tables; Call_assign_tasks ex_run [0; 1; 2; 3]%Z;
            Call_steal_work ex_run 1 (3 # 10)] ex_master).

(** Worker [i] is the first of [ws], in index order, with [tid] in its
    shards. *)
Definition first_owner_at (tid : Taskid.t) (ws : list WorkerState.t)
    (i : nat) (w : WorkerState.t) : Prop :=
  ws !! i = Some w
  ∧ tid ∈ WorkerState.shards w
  ∧ ∀ j w', ws !! j = Some w' → j < i → tid ∉ WorkerState.shards w'.

Definition unowned (tid : Taskid.t) (ws : list WorkerState.t) : Prop :=
  ∀ w, w ∈ ws → tid ∉ WorkerState.shards w.

(** Worker [i] is alive and has the fewest shards among the alive workers
    of [ws], strictly fewer than every alive worker before it. *)
Definition least_loaded_at (dead : gset Z) (ws : list WorkerState.t)
    (i : nat) (w : WorkerState.t) : Prop :=
  ws !! i = Some w
  ∧ WorkerState.alive dead w = true
  ∧ ∀ j w', ws !! j = Some w' → WorkerState.alive dead w' = true →
      size (WorkerState.shards w) ≤ size (WorkerState.shards w')
      ∧ (j < i → size (WorkerState.shards w) < size (WorkerState.shards w')).

Definition none_alive (dead : gset Z) (ws : list WorkerState.t) : Prop :=
  ∀ w, w ∈ ws → WorkerState.alive dead w = false.

(** The state [assign_worker] leaves when it chooses worker [i], whose new
    state is [w']. *)
Definition placed (i : nat) (w' : WorkerState.t) (m : Master.t) : Master.t :=
  Master.set_workers_ (<[i := w']> (Master.workers_ m)) m.

(** The death-detection hook, outside the master: the set of dead workers
    replaced. *)
Definition with_dead (dead : gset Z) (m : Master.t) : Master.t :=
  Master.mk (Master.workers_ m) (Master.tables_ m) (Master.kernels_ m)
    (Master.method_stats_ m) (Master.current_run_ m)
    (Master.current_run_start_ m) (Master.finished_ m) (Master.dispatched_ m)
    (Master.kernel_epoch_ m) (Master.shards_assigned_ m) dead
    (Master.FLAGS_work_stealing m) (Master.FLAGS_sleep_time m)
    (Master.clock m) (Master.ticks m) (Master.kernel_done_in m)
    (Master.flush_in m) (Master.trace m).

(** The example after its tables are assigned, worker 0 then declared
    dead. *)
Definition ex_dead0 : Master.t :=
  with_dead {[0%Z]} (state_of ex_master (calls [Call_assign_tables] ex_master)).

(** The invariant of the loop of [assign_worker] over the workers seen. *)
Definition least_loaded_inv (dead : gset Z) (pre : list WorkerState.t)
    (best : option (nat * WorkerState.t)) : Prop :=
  match best with
  | None => none_alive dead pre
  | Some (i, b) => least_loaded_at dead pre i b
  end.

(** The WORKER_APPLY broadcasts sent so far. *)
Definition sent_apply (m : Master.t) : list Event :=
  List.filter is_apply (Master.trace m).

(** The WORKER_FLUSH broadcasts sent so far. *)
Definition sent_flush (m : Master.t) : list Event :=
  List.filter is_flush (Master.trace m).

(** An epoch of one task: worker 1 (network id 2) reports it done, and both
    workers answer the first flush round with no update done. *)
Definition ex_flush : Master.t :=
  Master.new 2 ex_tables ex_kernels ∅ true (1 # 100) ex_clock
    [Some (2, mkKernelDone (mkKernelRequest "K" "run" 0 1) [])]%Z
    [Some (1, mkFlushResponse 0); Some (2, mkFlushResponse 0)]%Z.

(** A run of the one shard 1 of table 0. *)
Definition ex_run1 : RunDescriptor.t :=
  RunDescriptor.mk "K" "run" (Some (mkTable 0 4)) [1]%Z.

(** ** Ownership of shards and placement of tasks *)

(** Some worker has [tid] among its shards. *)
Definition owned (ws : list WorkerState.t) (tid : Taskid.t) : Prop :=
  ∃ i w, ws !! i = Some w ∧ tid ∈ WorkerState.shards w.

(** No shard is among the shards of two workers. *)
Definition shards_disjoint (ws : list WorkerState.t) : Prop :=
  ∀ i j wi wj tid,
    ws !! i = Some wi → ws !! j = Some wj →
    tid ∈ WorkerState.shards wi → tid ∈ WorkerState.shards wj → i = j.

(** A worker that has a shard has its shard index in every table that has
    that many shards. *)
Definition shards_closed (tables : gmap Z Table) (ws : list WorkerState.t)
    : Prop :=
  ∀ i w tid,
    ws !! i = Some w → tid ∈ WorkerState.shards w →
    targets tables (Taskid.shard tid) ⊆ WorkerState.shards w.

(** Some worker is alive. *)
Definition has_alive (m : Master.t) : Prop :=
  ∃ i w, Master.workers_ m !! i = Some w
         ∧ WorkerState.alive (Master.dead_workers m) w = true.

(** What the assignment of shards keeps: a worker is alive, and the shards
    of the workers are disjoint and closed for the tables [tables]. *)
Definition ownership_ok (tables : gmap Z Table) (m : Master.t) : Prop :=
  Master.tables_ m = tables
  ∧ has_alive m
  ∧ shards_disjoint (Master.workers_ m)
  ∧ shards_closed tables (Master.workers_ m).

(** Exactly one worker has [tid] among its shards. *)
Definition owned_by_one (ws : list WorkerState.t) (tid : Taskid.t) : Prop :=
  ∃ i w, ws !! i = Some w ∧ tid ∈ WorkerState.shards w
         ∧ ∀ j w', ws !! j = Some w' → tid ∈ WorkerState.shards w' → j = i.

(** Every task held is a fresh task of table [table] for a shard in [D],
    held by a worker that has its id among its shards, and the task maps
    are well formed. *)
Definition tasks_fresh (table : Z) (D : Z → Prop) (ws : list WorkerState.t)
    : Prop :=
  ∀ i w, ws !! i = Some w →
    TaskMap_ordered (WorkerState.work w) = true
    ∧ ∀ t, t ∈ WorkerState.work w →
        (∃ s, D s ∧ t = TaskState.new (Taskid.mk table s) 1)
        ∧ TaskState.id t ∈ WorkerState.shards w.

(** Some worker holds the fresh task of shard [s] of table [table]. *)
Definition task_held (table : Z) (ws : list WorkerState.t) (s : Z) : Prop :=
  ∃ i w, ws !! i = Some w
         ∧ TaskMap.find (Taskid.mk table s) (WorkerState.work w)
           = Some (TaskState.new (Taskid.mk table s) 1).

(** ** Dispatch, reaping and the barrier *)

(** The test of [dispatch_work] on a worker: a pending task and no active
    one. *)
Definition dispatchable (w : WorkerState.t) : bool :=
  (0 <? WorkerState.num_pending w) && (WorkerState.num_active w =? 0).

(** The RUN_KERNEL message [dispatch_work] sends to a dispatchable worker. *)
Definition dispatch_of (r : RunDescriptor.t) (tb : Table) (w : WorkerState.t)
    : list Event :=
  match WorkerState.best_pending w with
  | Some best =>
      [Send (WorkerState.id w + 1)
         (MTYPE_RUN_KERNEL
            (mkKernelRequest (RunDescriptor.kernel r) (RunDescriptor.method r)
               (table_id tb) (Taskid.shard (TaskState.id best))))]
  | None => []
  end.

(** The messages of one pass over the workers [ws]. *)
Definition dispatches (r : RunDescriptor.t) (tb : Table)
    (ws : list WorkerState.t) : list Event :=
  concat ((λ w, if dispatchable w then dispatch_of r tb w else []) <$> ws).

(** The statistics of the current method, all zero when it has none. *)
Definition current_stats (m : Master.t) : MethodStats.t :=
  default MethodStats.zero
    (Master.method_stats_ m !! Master.stats_key (Master.current_run_ m)).

(** Every table a KERNEL_DONE message reports on is registered. *)
Definition tables_known (m : Master.t) (done_msg : KernelDone) : bool :=
  forallb (λ si, bool_decide (is_Some (Master.tables_ m !! si_table si)))
          (kd_shards done_msg).

(** The worker after its task [tid] is reaped, the clock reading [t1] when
    its running time is added and [t3] when it is pinged. *)
Definition reaped (t1 t3 : Q) (w1 : WorkerState.t) : WorkerState.t :=
  WorkerState.ping t3
    (WorkerState.set_total_runtime
       (WorkerState.total_runtime w1 + (t1 - WorkerState.last_task_start w1))%Q
       w1).

(** The view of the epoch: the tasks finished and the run in progress. *)
Definition epoch_view (m : Master.t) : Z * RunDescriptor.t :=
  (Master.finished_ m, Master.current_run_ m).

(** An event that records a call of [steal_work] by the barrier. *)
Definition is_steal_attempt (e : Event) : bool :=
  match e with StealAttempt _ => true | _ => false end.

(** The calls of [steal_work] the barrier has made so far. *)
Definition steal_attempts (m : Master.t) : list Event :=
  List.filter is_steal_attempt (Master.trace m).

(** The clock never runs backwards. *)
Definition clock_monotone (m : Master.t) : Prop :=
  ∀ i j, i ≤ j → (Master.clock m i <= Master.clock m j)%Q.

(** The clock and the number of readings taken, ordered by the number of
    readings of one clock. *)
Definition clock_view (m : Master.t) : (nat → Q) * nat :=
  (Master.clock m, Master.ticks m).

Definition clock_le (a b : (nat → Q) * nat) : Prop :=
  a.1 = b.1 ∧ a.2 ≤ b.2.

(** The example in the middle of an epoch, on clock [clk]: tasks (0, 1) and
    (0, 3) are with worker 1, the first is dispatched and reported done,
    worker 0 has nothing to do, and the method has run 11 shards in 100
    seconds. *)
Definition ex_reaping (clk : nat → Q) : Master.t :=
  Master.set_method_stats_ {["K:run" := MethodStats.mk 1 100 11 0]}
    (Master.set_current_run_ ex_run13
       (state_of ex_master
          (calls [Call_assign_tables; Call_assign_tasks ex_run13 [1; 3]%Z;
                  Call_dispatch_work ex_run13]
             (Master.new 2 ex_tables ex_kernels ∅ true (1 # 100) clk
                [Some (2, mkKernelDone (mkKernelRequest "K" "run" 0 1) [])]%Z
                [])))).

(** [x], at index [j], is the first element of [l] of greatest measure. *)
Definition first_greatest {A : Type} (f : A → nat) (l : list A) (j : nat)
    (x : A) : Prop :=
  l !! j = Some x
  ∧ ∀ k y, l !! k = Some y → f y ≤ f x ∧ (k < j → f y < f x).

(** ** The steal round of the barrier *)

(** The state after a reading of the clock, and the reading. *)
Definition tick (m : Master.t) : Master.t :=
  Master.set_ticks (S (Master.ticks m)) m.

(** The reading the next call of [Now] gives. *)
Definition reading (m : Master.t) : Q := Master.clock m (Master.ticks m).

(** The state after [finished_++]. *)
Definition counted (m : Master.t) : Master.t :=
  Master.set_finished_ (Master.finished_ m + 1)%Z m.






(** * Properties *)

(** ** Keys *)

Lemma Taskid_lt_irrefl a : Taskid.lt a a = false.
Proof. unfold Taskid.lt. destruct a as [t s]; simpl. lia. Qed.

Lemma Taskid_lt_trans a b c :
  Taskid.lt a b = true → Taskid.lt b c = true → Taskid.lt a c = true.
Proof.
  unfold Taskid.lt. destruct a, b, c; simpl. intros H1 H2.
  apply orb_true_iff in H1, H2. apply orb_true_iff.
  rewrite !andb_true_iff in *. lia.
Qed.

Lemma Taskid_equiv_eq a b : Taskid.equiv a b = true ↔ a = b.
Proof.
  unfold Taskid.equiv, Taskid.lt. destruct a as [t s], b as [t' s']; simpl.
  split.
  - intros H. apply andb_true_iff in H as [H1 H2].
    apply negb_true_iff in H1, H2. apply orb_false_iff in H1, H2.
    rewrite !andb_false_iff in *.
    assert (t = t') by lia. subst. assert (s = s') by lia. by subst.
  - intros [= -> ->]. apply andb_true_iff. rewrite !negb_true_iff.
    rewrite !orb_false_iff, !andb_false_iff. lia.
Qed.

Lemma Taskid_equiv_refl a : Taskid.equiv a a = true.
Proof. by apply Taskid_equiv_eq. Qed.

Lemma Taskid_equiv_ne a b : a ≠ b → Taskid.equiv a b = false.
Proof.
  intros H. destruct (Taskid.equiv a b) eqn:E; [|done].
  by apply Taskid_equiv_eq in E.
Qed.

Lemma Taskid_lt_ne a b : Taskid.lt a b = true → a ≠ b.
Proof. intros H ->. by rewrite Taskid_lt_irrefl in H. Qed.

Lemma Taskid_trichotomy a b :
  Taskid.lt a b = false → Taskid.lt b a = false → a = b.
Proof.
  intros H1 H2. apply Taskid_equiv_eq. unfold Taskid.equiv.
  by rewrite H1, H2.
Qed.

(** ** Task maps *)

Lemma find_Some k m x :
  TaskMap.find k m = Some x → x ∈ m ∧ TaskState.id x = k.
Proof.
  induction m as [|y m IH]; simpl; [done|].
  destruct (Taskid.equiv k (TaskState.id y)) eqn:E.
  - intros [= ->]. apply Taskid_equiv_eq in E. split; [left | done].
  - intros H. destruct (IH H). split; [by right | done].
Qed.

Lemma find_None k m :
  TaskMap.find k m = None → ∀ x, x ∈ m → TaskState.id x ≠ k.
Proof.
  induction m as [|y m IH]; simpl; intros H x Hx.
  - by apply elem_of_nil in Hx.
  - destruct (Taskid.equiv k (TaskState.id y)) eqn:E; [done|].
    apply elem_of_cons in Hx as [-> | Hx]; [|by apply IH].
    intros <-. by rewrite Taskid_equiv_refl in E.
Qed.

Lemma ordered_find x m :
  TaskMap_ordered m = true → x ∈ m → TaskMap.find (TaskState.id x) m = Some x.
Proof.
  induction m as [|y m IH]; simpl; intros Ho Hx.
  - by apply elem_of_nil in Hx.
  - apply andb_true_iff in Ho as [Hall Ho].
    apply elem_of_cons in Hx as [-> | Hx].
    + by rewrite Taskid_equiv_refl.
    + rewrite forallb_forall in Hall.
      assert (Hlt : Taskid.lt (TaskState.id y) (TaskState.id x) = true).
      { apply Hall. by apply list_elem_of_In. }
      rewrite Taskid_equiv_ne; [by apply IH|].
      intros E. rewrite E, Taskid_lt_irrefl in Hlt. done.
Qed.

Lemma find_assign k s m :
  TaskMap.find k (TaskMap.assign s m)
  = if decide (k = TaskState.id s) then Some s else TaskMap.find k m.
Proof.
  induction m as [|y m IH]; simpl.
  - case_decide as E; [by rewrite E, Taskid_equiv_refl | by rewrite Taskid_equiv_ne].
  - destruct (Taskid.lt (TaskState.id s) (TaskState.id y)) eqn:E1; simpl.
    { case_decide as E; [by rewrite E, Taskid_equiv_refl | by rewrite (Taskid_equiv_ne k (TaskState.id s))]. }
    destruct (Taskid.lt (TaskState.id y) (TaskState.id s)) eqn:E2; simpl.
    + rewrite IH. case_decide as E; [|done].
      subst k. rewrite Taskid_equiv_ne; [done|].
      intros E. rewrite E, Taskid_lt_irrefl in E2. done.
    + assert (TaskState.id s = TaskState.id y) as Heq by by apply Taskid_trichotomy.
      rewrite <- Heq. case_decide as E; [by rewrite E, Taskid_equiv_refl|].
      by rewrite Taskid_equiv_ne.
Qed.

Lemma elem_of_assign x s m :
  x ∈ TaskMap.assign s m → x = s ∨ x ∈ m.
Proof.
  induction m as [|y m IH]; simpl.
  - intros H. apply list_elem_of_singleton in H. by left.
  - destruct (Taskid.lt (TaskState.id s) (TaskState.id y)).
    { intros H. apply elem_of_cons in H as [-> | H]; [by left | by right]. }
    destruct (Taskid.lt (TaskState.id y) (TaskState.id s)).
    + intros H. apply elem_of_cons in H as [-> | H]; [right; left|].
      destruct (IH H) as [-> | ?]; [by left | right; by right].
    + intros H. apply elem_of_cons in H as [-> | H]; [by left | right; by right].
Qed.

Lemma ordered_assign s m :
  TaskMap_ordered m = true → TaskMap_ordered (TaskMap.assign s m) = true.
Proof.
  induction m as [|y m IH]; simpl; [done|].
  intros Ho. apply andb_true_iff in Ho as [Hall Ho].
  rewrite forallb_forall in Hall.
  destruct (Taskid.lt (TaskState.id s) (TaskState.id y)) eqn:E1; simpl.
  - rewrite E1; simpl. apply andb_true_iff. split.
    + apply forallb_forall. intros z Hz.
      eapply Taskid_lt_trans; [exact E1 | by apply Hall].
    + apply andb_true_iff. split; [by apply forallb_forall | done].
  - destruct (Taskid.lt (TaskState.id y) (TaskState.id s)) eqn:E2; simpl.
    + apply andb_true_iff. split; [|by apply IH].
      apply forallb_forall. intros z Hz. apply list_elem_of_In in Hz.
      apply elem_of_assign in Hz as [-> | Hz]; [done|].
      apply Hall. by apply list_elem_of_In.
    + assert (TaskState.id s = TaskState.id y) as Heq by by apply Taskid_trichotomy.
      apply andb_true_iff. split; [|done].
      apply forallb_forall. intros z Hz. rewrite Heq. by apply Hall.
Qed.

Lemma elem_of_remove x k m : x ∈ TaskMap.remove k m → x ∈ m.
Proof.
  induction m as [|y m IH]; simpl; [done|].
  destruct (Taskid.equiv k (TaskState.id y)).
  - intros H. by right.
  - intros H. apply elem_of_cons in H as [-> | H]; [left | right; by apply IH].
Qed.

Lemma ordered_remove k m :
  TaskMap_ordered m = true → TaskMap_ordered (TaskMap.remove k m) = true.
Proof.
  induction m as [|y m IH]; simpl; [done|].
  intros Ho. apply andb_true_iff in Ho as [Hall Ho].
  destruct (Taskid.equiv k (TaskState.id y)); [done|]. simpl.
  apply andb_true_iff. split; [|by apply IH].
  rewrite forallb_forall in Hall. apply forallb_forall.
  intros z Hz. apply Hall. apply list_elem_of_In.
  apply list_elem_of_In in Hz. by eapply elem_of_remove.
Qed.

Lemma find_remove_ne k k' m :
  k ≠ k' → TaskMap.find k (TaskMap.remove k' m) = TaskMap.find k m.
Proof.
  intros Hne. induction m as [|y m IH]; simpl; [done|].
  destruct (Taskid.equiv k' (TaskState.id y)) eqn:E; simpl.
  - apply Taskid_equiv_eq in E. subst k'. by rewrite Taskid_equiv_ne.
  - by rewrite IH.
Qed.

Lemma find_remove_eq k m :
  TaskMap_ordered m = true → TaskMap.find k (TaskMap.remove k m) = None.
Proof.
  induction m as [|y m IH]; simpl; [done|].
  intros Ho. apply andb_true_iff in Ho as [Hall Ho].
  destruct (Taskid.equiv k (TaskState.id y)) eqn:E; simpl.
  - apply Taskid_equiv_eq in E. subst k.
    destruct (TaskMap.find (TaskState.id y) m) as [z|] eqn:F; [|done].
    apply find_Some in F as [Hz Hid]. rewrite forallb_forall in Hall.
    apply list_elem_of_In in Hz. apply Hall in Hz.
    by rewrite Hid, Taskid_lt_irrefl in Hz.
  - rewrite E. by apply IH.
Qed.

Lemma find_modify f k k' m :
  (∀ x, TaskState.id (f x) = TaskState.id x) →
  TaskMap.find k (TaskMap.modify f k' m)
  = if decide (k = k') then f <$> TaskMap.find k m else TaskMap.find k m.
Proof.
  intros Hf. induction m as [|y m IH]; simpl; [by case_decide|].
  destruct (Taskid.equiv k' (TaskState.id y)) eqn:E; simpl.
  - apply Taskid_equiv_eq in E. subst k'. rewrite Hf.
    case_decide as E; [subst k; by rewrite Taskid_equiv_refl|].
    by rewrite Taskid_equiv_ne.
  - rewrite IH. case_decide as E'; [|done]. subst k'. by rewrite E.
Qed.

Lemma elem_of_modify f k m y :
  y ∈ TaskMap.modify f k m → y ∈ m ∨ ∃ x, x ∈ m ∧ TaskState.id x = k ∧ y = f x.
Proof.
  induction m as [|z m IH]; simpl; [by left|].
  destruct (Taskid.equiv k (TaskState.id z)) eqn:E.
  - apply Taskid_equiv_eq in E.
    intros H. apply elem_of_cons in H as [-> | H].
    + right. exists z. split; [left | done].
    + left. by right.
  - intros H. apply elem_of_cons in H as [-> | H]; [left; left|].
    destruct (IH H) as [? | (x & ? & ? & ?)]; [left; by right|].
    right. exists x. split; [by right | done].
Qed.

Lemma ordered_modify f k m :
  (∀ x, TaskState.id (f x) = TaskState.id x) →
  TaskMap_ordered m = true → TaskMap_ordered (TaskMap.modify f k m) = true.
Proof.
  intros Hf. induction m as [|y m IH]; simpl; [done|].
  intros Ho. apply andb_true_iff in Ho as [Hall Ho].
  destruct (Taskid.equiv k (TaskState.id y)); simpl.
  - rewrite Hf. by rewrite Hall, Ho.
  - apply andb_true_iff. split; [|by apply IH].
    rewrite forallb_forall in Hall. apply forallb_forall.
    intros z Hz. apply list_elem_of_In in Hz.
    apply elem_of_modify in Hz as [Hz | (x & Hx & _ & ->)].
    + apply Hall. by apply list_elem_of_In.
    + rewrite Hf. apply Hall. by apply list_elem_of_In.
Qed.

(** ** [std::max_element] *)

Lemma max_element_from_lookup {A} (comp : A → A → bool) (l pre : list A) i0 x0 j x :
  (pre ++ l) !! i0 = Some x0 →
  max_element_from comp (i0, x0) (length pre) l = (j, x) →
  (pre ++ l) !! j = Some x.
Proof.
  revert pre i0 x0. induction l as [|y l IH]; simpl; intros pre i0 x0 H0 H.
  - by simplify_eq.
  - replace (pre ++ y :: l) with ((pre ++ [y]) ++ l) in * by by rewrite <- app_assoc.
    replace (S (length pre)) with (length (pre ++ [y])) in H
      by (rewrite length_app; simpl; lia).
    destruct (comp x0 y); [|by eapply IH].
    eapply IH; [|exact H].
    rewrite lookup_app_l by (rewrite length_app; simpl; lia).
    by rewrite lookup_app_r, Nat.sub_diag by lia.
Qed.

Lemma max_element_lookup {A} (comp : A → A → bool) (l : list A) j x :
  max_element comp l = Some (j, x) → l !! j = Some x.
Proof.
  destruct l as [|x0 l]; simpl; [done|]. intros [= H].
  by apply (max_element_from_lookup comp l [x0] 0 x0 j x).
Qed.

Lemma max_element_elem_of {A} (comp : A → A → bool) (l : list A) j x :
  max_element comp l = Some (j, x) → x ∈ l.
Proof. intros H. eapply list_elem_of_lookup_2. by eapply max_element_lookup. Qed.

Lemma max_element_is_Some {A} (comp : A → A → bool) (l : list A) :
  l ≠ [] → is_Some (max_element comp l).
Proof. destruct l; [done | by eexists]. Qed.

Lemma max_element_from_index {A} (comp : A → A → bool) (l : list A) best i :
  max_element_from comp best i l = best ∨ i ≤ (max_element_from comp best i l).1.
Proof.
  revert best i. induction l as [|y l IH]; simpl; intros best i; [by left|].
  destruct (comp best.2 y).
  - right. destruct (IH (i, y) (S i)) as [-> | ?]; simpl; lia.
  - destruct (IH best (S i)) as [-> | ?]; [by left | right; lia].
Qed.

(** No element after the chosen one is greater than it. *)
Lemma max_element_from_later {A} (comp : A → A → bool) (l : list A) best i j x :
  best.1 < i →
  max_element_from comp best i l = (j, x) →
  ∀ k p, l !! k = Some p → j < i + k → comp x p = false.
Proof.
  revert best i. induction l as [|y l IH]; simpl; intros best i Hb H k p Hk Hj.
  - done.
  - destruct k as [|k]; simpl in Hk.
    + simplify_eq.
      destruct (comp best.2 p) eqn:E.
      * destruct (max_element_from_index comp l (i, p) (S i)) as [E' | E'];
          rewrite H in E'; simpl in E'; [simplify_eq; lia | lia].
      * destruct (max_element_from_index comp l best (S i)) as [E' | E'];
          rewrite H in E'; simpl in E'; [by subst best | lia].
    + eapply (IH _ (S i)); [| exact H | exact Hk | lia].
      destruct (comp best.2 y); simpl; lia.
Qed.

Lemma max_element_later {A} (comp : A → A → bool) (l : list A) j x :
  max_element comp l = Some (j, x) →
  ∀ k p, l !! k = Some p → j < k → comp x p = false.
Proof.
  destruct l as [|x0 l]; simpl; [done|]. intros [= H] k p Hk Hj.
  destruct k as [|k]; [lia|]. simpl in Hk.
  eapply (max_element_from_later comp l (0, x0) 1); simpl; [lia | exact H | exact Hk | lia].
Qed.

(** ** [WeightCompare] under [max_element] *)

Lemma WeightCompare_same_flag l best i j x b :
  TaskState.stolen best.2 = b →
  Forall (λ p, TaskState.stolen p = b) l →
  max_element_from TaskState.WeightCompare best i l = (j, x) →
  TaskState.stolen x = b
  ∧ (TaskState.size best.2 ≤ TaskState.size x)%Z
  ∧ Forall (λ p, (TaskState.size p ≤ TaskState.size x)%Z) l.
Proof.
  revert best i. induction l as [|y l IH]; simpl; intros best i Hb Hl H.
  - simplify_eq. simpl. split; [done|]. split; [lia | constructor].
  - apply Forall_cons in Hl as [Hy Hl].
    assert (TaskState.WeightCompare best.2 y
            = (TaskState.size best.2 <? TaskState.size y)%Z) as E0.
    { unfold TaskState.WeightCompare. rewrite Hb, Hy. by destruct b. }
    rewrite E0 in H. clear E0.
    destruct (TaskState.size best.2 <? TaskState.size y)%Z eqn:E.
    + apply Z.ltb_lt in E.
      apply IH in H as (? & ? & ?); [|done|done]. simpl in *.
      split; [done|]. split; [lia|]. constructor; [lia | done].
    + apply Z.ltb_ge in E.
      apply IH in H as (? & ? & ?); [|done|done].
      split; [done|]. split; [lia|]. constructor; [lia | done].
Qed.

Lemma WeightCompare_same_size l best i j x n :
  TaskState.size best.2 = n →
  Forall (λ p, TaskState.size p = n) l →
  max_element_from TaskState.WeightCompare best i l = (j, x) →
  TaskState.size x = n
  ∧ (TaskState.stolen x = true →
     TaskState.stolen best.2 = true ∧ Forall (λ p, TaskState.stolen p = true) l).
Proof.
  revert best i. induction l as [|y l IH]; simpl; intros best i Hb Hl H.
  - simplify_eq. simpl. split; [done|]. intros ?. split; [done | constructor].
  - apply Forall_cons in Hl as [Hy Hl].
    assert (TaskState.WeightCompare best.2 y
            = TaskState.stolen best.2 && negb (TaskState.stolen y)) as E0.
    { unfold TaskState.WeightCompare. rewrite Hb, Hy, Z.ltb_irrefl.
      by destruct (_ && _). }
    rewrite E0 in H. clear E0.
    destruct (TaskState.stolen best.2) eqn:Eb, (TaskState.stolen y) eqn:Ey;
      simpl in H; apply IH in H as [? Hs]; try done; simpl in *.
    + split; [done|]. intros Hx. destruct (Hs Hx). split; [done | by constructor].
    + split; [done|]. intros Hx. destruct (Hs Hx). congruence.
    + split; [done|]. intros Hx. destruct (Hs Hx). congruence.
    + split; [done|]. intros Hx. destruct (Hs Hx). congruence.
Qed.

(** Among tasks with equal [stolen] flags the chosen one has the largest
    size. *)
Lemma max_element_WeightCompare_size l j x :
  max_element TaskState.WeightCompare l = Some (j, x) →
  (∀ p, p ∈ l → TaskState.stolen p = TaskState.stolen x) →
  ∀ p, p ∈ l → (TaskState.size p ≤ TaskState.size x)%Z.
Proof.
  destruct l as [|x0 l]; simpl; [done|]. intros [= H] Hflag p Hp.
  apply (WeightCompare_same_flag l (0, x0) 1 j x (TaskState.stolen x)) in H
    as (_ & H0 & Hl).
  - apply elem_of_cons in Hp as [-> | Hp]; [done|].
    rewrite Forall_forall in Hl. by apply Hl.
  - apply Hflag. left.
  - apply Forall_forall. intros q Hq. apply Hflag. by right.
Qed.

(** Among tasks of equal size a stolen task is chosen only when every task
    is stolen. *)
Lemma max_element_WeightCompare_stolen l j x :
  max_element TaskState.WeightCompare l = Some (j, x) →
  (∀ p, p ∈ l → TaskState.size p = TaskState.size x) →
  TaskState.stolen x = true →
  ∀ p, p ∈ l → TaskState.stolen p = true.
Proof.
  destruct l as [|x0 l]; simpl; [done|]. intros [= H] Hsize Hx p Hp.
  apply (WeightCompare_same_size l (0, x0) 1 j x (TaskState.size x)) in H
    as (_ & Hs).
  - destruct (Hs Hx) as [H0 Hl].
    apply elem_of_cons in Hp as [-> | Hp]; [done|].
    rewrite Forall_forall in Hl. by apply Hl.
  - apply Hsize. left.
  - apply Forall_forall. intros q Hq. apply Hsize. by right.
Qed.

(** ** [assign_shard] *)

Lemma elem_of_shard_targets tables s tid :
  tid ∈ shard_targets tables s ↔
  Taskid.shard tid = s
  ∧ ∃ tb, tables !! Taskid.table tid = Some tb ∧ (s < numShards tb)%Z.
Proof.
  unfold shard_targets. rewrite list_elem_of_omap. split.
  - intros ([i tb] & Hin & H). apply elem_of_map_to_list in Hin. simpl in H.
    destruct (s <? numShards tb)%Z eqn:E; [|done]. simplify_eq. simpl.
    split; [done|]. exists tb. split; [done | lia].
  - intros [Hs (tb & Htb & Hlt)]. exists (Taskid.table tid, tb). split.
    + by apply elem_of_map_to_list.
    + simpl. apply Z.ltb_lt in Hlt. rewrite Hlt. subst s. by destruct tid.
Qed.

Lemma NoDup_shard_targets tables s : NoDup (shard_targets tables s).
Proof.
  unfold shard_targets.
  pose proof (NoDup_fst_map_to_list tables) as Hnd.
  induction (map_to_list tables) as [|[i tb] l IH]; simpl; [constructor|].
  simpl in Hnd. apply NoDup_cons in Hnd as [Hi Hnd].
  destruct (s <? numShards tb)%Z; [|by apply IH].
  apply NoDup_cons. split; [|by apply IH].
  intros Hin. apply list_elem_of_omap in Hin as ([j tb'] & Hj & E).
  simpl in E. destruct (s <? numShards tb')%Z; [|done]. simplify_eq.
  apply Hi. apply list_elem_of_fmap. by exists (i, tb').
Qed.

Lemma assign_shard_step_insert l sh :
  foldr (WorkerState.assign_shard_step true) (Some sh) l
  = Some (list_to_set l ∪ sh).
Proof.
  induction l as [|tid l IH]; simpl.
  - f_equal. set_solver.
  - rewrite IH. simpl. f_equal. set_solver.
Qed.

Lemma assign_shard_step_erase l sh :
  NoDup l →
  foldr (WorkerState.assign_shard_step false) (Some sh) l
  = if decide (list_to_set l ⊆ sh) then Some (sh ∖ list_to_set l) else None.
Proof.
  induction l as [|tid l IH]; simpl; intros Hnd.
  - rewrite decide_True by set_solver. f_equal. set_solver.
  - apply NoDup_cons in Hnd as [Hni Hnd]. rewrite IH by done.
    destruct (decide (list_to_set l ⊆ sh)) as [Hl|Hl]; simpl.
    + destruct (bool_decide (tid ∈ sh ∖ list_to_set l)) eqn:E.
      * apply bool_decide_eq_true in E.
        rewrite decide_True by set_solver. f_equal. set_solver.
      * apply bool_decide_eq_false in E.
        rewrite decide_False; [done|]. set_solver.
    + rewrite decide_False; [done|]. set_solver.
Qed.

Lemma elem_of_targets tables s tid :
  tid ∈ targets tables s ↔
  Taskid.shard tid = s
  ∧ ∃ tb, tables !! Taskid.table tid = Some tb ∧ (s < numShards tb)%Z.
Proof. unfold targets. by rewrite elem_of_list_to_set, elem_of_shard_targets. Qed.

Lemma assign_shard_insert tables s w :
  WorkerState.assign_shard tables s true w
  = Some (WorkerState.set_shards (λ sh, targets tables s ∪ sh) w).
Proof.
  unfold WorkerState.assign_shard. by rewrite assign_shard_step_insert.
Qed.

Lemma assign_shard_erase tables s w :
  WorkerState.assign_shard tables s false w
  = if decide (targets tables s ⊆ WorkerState.shards w)
    then Some (WorkerState.set_shards (λ sh, sh ∖ targets tables s) w)
    else None.
Proof.
  unfold WorkerState.assign_shard.
  rewrite assign_shard_step_erase by apply NoDup_shard_targets.
  unfold targets. by case_decide.
Qed.

(** ** Counting tasks by status *)

Lemma with_status_cons st x m :
  TaskMap.with_status st (x :: m)
  = if bool_decide (TaskState.status x = st) then x :: TaskMap.with_status st m
    else TaskMap.with_status st m.
Proof. done. Qed.

Lemma with_status_modify_le st f k m :
  length (TaskMap.with_status st (TaskMap.modify f k m))
  ≤ S (length (TaskMap.with_status st m)).
Proof.
  induction m as [|x m IH]; simpl; [lia|].
  destruct (Taskid.equiv k (TaskState.id x)); rewrite ?with_status_cons;
    repeat case_bool_decide; simpl; lia.
Qed.

Lemma with_status_modify_other st f k m :
  (∀ x, TaskState.status (f x) ≠ st) →
  length (TaskMap.with_status st (TaskMap.modify f k m))
  ≤ length (TaskMap.with_status st m).
Proof.
  intros Hf. induction m as [|x m IH]; simpl; [lia|].
  destruct (Taskid.equiv k (TaskState.id x)); rewrite ?with_status_cons.
  - rewrite (bool_decide_eq_false_2 _ (Hf x)). case_bool_decide; simpl; lia.
  - case_bool_decide; simpl; lia.
Qed.

Lemma with_status_modify_same st f k m :
  (∀ x, TaskState.status (f x) = TaskState.status x) →
  length (TaskMap.with_status st (TaskMap.modify f k m))
  = length (TaskMap.with_status st m).
Proof.
  intros Hf. induction m as [|x m IH]; simpl; [lia|].
  destruct (Taskid.equiv k (TaskState.id x)); rewrite ?with_status_cons.
  - rewrite Hf. case_bool_decide; simpl; lia.
  - case_bool_decide; simpl; lia.
Qed.

Lemma with_status_remove_le st k m :
  length (TaskMap.with_status st (TaskMap.remove k m))
  ≤ length (TaskMap.with_status st m).
Proof.
  induction m as [|x m IH]; simpl; [lia|].
  destruct (Taskid.equiv k (TaskState.id x)); rewrite ?with_status_cons;
    case_bool_decide; simpl; lia.
Qed.

Lemma with_status_assign_other st s m :
  TaskState.status s ≠ st →
  length (TaskMap.with_status st (TaskMap.assign s m))
  ≤ length (TaskMap.with_status st m).
Proof.
  intros Hs. induction m as [|x m IH]; cbn [TaskMap.assign].
  - rewrite with_status_cons. by rewrite bool_decide_eq_false_2.
  - destruct (Taskid.lt (TaskState.id s) (TaskState.id x)).
    { rewrite (with_status_cons st s). by rewrite bool_decide_eq_false_2. }
    rewrite (with_status_cons st x).
    destruct (Taskid.lt (TaskState.id x) (TaskState.id s)); rewrite ?with_status_cons.
    + case_bool_decide; simpl; lia.
    + rewrite (bool_decide_eq_false_2 _ Hs). case_bool_decide; simpl; lia.
Qed.

Lemma with_status_modify_ge st x m :
  x ∈ m →
  1 ≤ length (TaskMap.with_status st
                (TaskMap.modify (TaskState.set_status st) (TaskState.id x) m)).
Proof.
  induction m as [|y m IH]; cbn [TaskMap.modify]; intros Hx.
  - by apply elem_of_nil in Hx.
  - destruct (Taskid.equiv (TaskState.id x) (TaskState.id y)) eqn:E;
      rewrite with_status_cons.
    + simpl. rewrite bool_decide_eq_true_2 by done. simpl. lia.
    + apply elem_of_cons in Hx as [-> | Hx].
      { by rewrite Taskid_equiv_refl in E. }
      case_bool_decide; simpl; [lia | by apply IH].
Qed.

(** ** Computations, unfolded *)

Ltac munfold :=
  unfold Master.worker, Master.set_worker, Master.index, Master.CHECK,
    Master.emit, Master.deref, Master.bind, Master.gets, Master.modify,
    Master.ret, Master.undef, Master.abort, Master.spin in *.

Ltac insert_lookup :=
  repeat first
    [ rewrite list_lookup_insert_eq by (rewrite ?length_insert; done)
    | rewrite list_lookup_insert_ne by done ].

Lemma remove_modify f k m :
  (∀ x, TaskState.id (f x) = TaskState.id x) →
  TaskMap.remove k (TaskMap.modify f k m) = TaskMap.remove k m.
Proof.
  intros Hf. induction m as [|y m IH]; simpl; [done|].
  destruct (Taskid.equiv k (TaskState.id y)) eqn:E; simpl.
  - by rewrite Hf, E.
  - by rewrite E, IH.
Qed.

Lemma set_workers_ext ws ws' m :
  ws = ws' → Master.set_workers_ ws m = Master.set_workers_ ws' m.
Proof. by intros ->. Qed.

Lemma set_workers_twice ws ws' m :
  Master.set_workers_ ws (Master.set_workers_ ws' m) = Master.set_workers_ ws m.
Proof. done. Qed.

Lemma steal_work_unfold r idle avg m :
  Master.steal_work r idle avg m =
    if negb (Master.FLAGS_work_stealing m) then Master.Ok false m else
    if (idle <? 0)%Z then Master.Undef else
    match Master.workers_ m !! Z.to_nat idle with
    | None => Master.Undef
    | Some dst =>
    if negb (WorkerState.alive (Master.dead_workers m) dst)
    then Master.Ok false m else
    match max_element WorkerState.PendingCompare (Master.workers_ m) with
    | None => Master.Undef
    | Some (src_i, src) =>
    if WorkerState.num_pending src =? 0 then Master.Ok false m else
    match max_element TaskState.WeightCompare (WorkerState.pending src) with
    | None => Master.Undef
    | Some (_, task) =>
    if TaskState.stolen task then Master.Ok false m else
    match RunDescriptor.table r with
    | None => Master.Undef
    | Some tb =>
    if dle (Master.eta (WorkerState.pending src) avg (Master.average_size tb))
           (Master.move_cost task avg (Master.average_size tb))
    then Master.Ok false m
    else Master.migrate (Z.to_nat idle) src_i task m
    end end end end.
Proof.
  unfold Master.steal_work. munfold. simpl.
  destruct (Master.FLAGS_work_stealing m); simpl; [|done].
  destruct (idle <? 0)%Z; simpl; [done|].
  destruct (Master.workers_ m !! Z.to_nat idle) as [dst|]; simpl; [|done].
  destruct (WorkerState.alive (Master.dead_workers m) dst); simpl; [|done].
  destruct (max_element WorkerState.PendingCompare (Master.workers_ m))
    as [[src_i src]|]; simpl; [|done].
  destruct (WorkerState.num_pending src =? 0); simpl; [done|].
  destruct (max_element TaskState.WeightCompare (WorkerState.pending src))
    as [[k task]|]; simpl; [|done].
  destruct (TaskState.stolen task); simpl; [done|].
  destruct (RunDescriptor.table r) as [tb|]; simpl; [|done].
  by destruct (dle _ _).
Qed.

(** The migration between two different workers. *)
Lemma migrate_ne dst_i src_i task m src dst :
  dst_i ≠ src_i →
  Master.workers_ m !! src_i = Some src →
  Master.workers_ m !! dst_i = Some dst →
  Master.migrate dst_i src_i task m =
    if decide (targets (Master.tables_ m) (Taskid.shard (TaskState.id task))
               ⊆ WorkerState.shards src)
    then match TaskMap.find (TaskState.id task) (WorkerState.work src) with
         | Some _ =>
             Master.Ok true
               (Master.set_workers_
                  (<[dst_i := dst_after (Master.tables_ m) task dst]>
                     (<[src_i := src_after (Master.tables_ m) task src]>
                        (Master.workers_ m))) m)
         | None => Master.Undef
         end
    else Master.Undef.
Proof.
  intros Hne Hs Hd.
  pose proof (lookup_lt_Some _ _ _ Hs) as Hls.
  pose proof (lookup_lt_Some _ _ _ Hd) as Hld.
  unfold Master.migrate. munfold. simpl. rewrite Hs. simpl.
  rewrite list_lookup_insert_ne, Hd by done. simpl.
  rewrite assign_shard_insert. simpl.
  rewrite list_lookup_insert_ne by done.
  rewrite list_lookup_insert_eq by done. simpl.
  rewrite assign_shard_erase. simpl.
  case_decide as Hsub; simpl; [|done].
  rewrite list_lookup_insert_eq by (rewrite !length_insert; done). simpl.
  unfold WorkerState.remove_task, TaskMap.erase. simpl.
  rewrite find_modify by done. rewrite decide_True by done.
  destruct (TaskMap.find (TaskState.id task) (WorkerState.work src))
    as [x|] eqn:F; simpl; [|done].
  rewrite list_lookup_insert_ne by done.
  rewrite list_lookup_insert_ne by done.
  rewrite list_lookup_insert_eq by (rewrite !length_insert; done). simpl.
  apply (f_equal (Master.Ok true)). rewrite !set_workers_twice.
  apply set_workers_ext.
  rewrite remove_modify by done.
  apply list_eq. intros j.
  destruct (decide (j = dst_i)) as [->|Hj1]; [by insert_lookup|].
  destruct (decide (j = src_i)) as [->|Hj2]; by insert_lookup.
Qed.

(** The migration of a task of the idle worker itself. *)
Lemma migrate_eq i task m w :
  Master.workers_ m !! i = Some w →
  Master.migrate i i task m =
    match TaskMap.find (TaskState.id task) (WorkerState.work w) with
    | Some _ =>
        Master.Ok true
          (Master.set_workers_
             (<[i := self_after (Master.tables_ m) task w]> (Master.workers_ m)) m)
    | None => Master.Undef
    end.
Proof.
  intros Hw.
  pose proof (lookup_lt_Some _ _ _ Hw) as Hl.
  unfold Master.migrate. munfold. simpl. rewrite Hw. simpl.
  rewrite list_lookup_insert_eq by done. simpl.
  rewrite assign_shard_insert. simpl.
  rewrite list_lookup_insert_eq by (rewrite ?length_insert; done). simpl.
  rewrite assign_shard_erase. simpl.
  rewrite decide_True by set_solver. simpl.
  rewrite list_lookup_insert_eq by (rewrite ?length_insert; done). simpl.
  unfold WorkerState.remove_task, TaskMap.erase. simpl.
  rewrite find_modify by done. rewrite decide_True by done.
  destruct (TaskMap.find (TaskState.id task) (WorkerState.work w))
    as [x|] eqn:F; simpl; [|done].
  rewrite list_lookup_insert_eq by (rewrite ?length_insert; done). simpl.
  apply (f_equal (Master.Ok true)). rewrite !set_workers_twice.
  apply set_workers_ext.
  rewrite remove_modify by done.
  by rewrite !list_insert_insert_eq.
Qed.

(** ** Weakest preconditions *)

Arguments wp : simpl never.

Lemma wp_bind {A B} (c : Master.M A) (k : A → Master.M B) Q E m :
  wp c (λ a m', wp (k a) Q E m') E m → wp (Master.bind c k) Q E m.
Proof. unfold wp, Master.bind. by destruct (c m). Qed.

Lemma wp_mono {A} (c : Master.M A) (Q Q' : A → Master.t → Prop) E m :
  wp c Q E m → (∀ a m', Q a m' → Q' a m') → wp c Q' E m.
Proof. unfold wp. destruct (c m); auto. Qed.

Lemma wp_ret {A} (a : A) (Q : A → Master.t → Prop) E m : Q a m → wp (Master.ret a) Q E m.
Proof. done. Qed.
Lemma wp_gets {A} (f : Master.t → A) (Q : A → Master.t → Prop) E m : Q (f m) m → wp (Master.gets f) Q E m.
Proof. done. Qed.
Lemma wp_modify f (Q : unit → Master.t → Prop) E m : Q tt (f m) → wp (Master.modify f) Q E m.
Proof. done. Qed.
Lemma wp_Now (Q : Q → Master.t → Prop) E m :
  Q (Master.clock m (Master.ticks m)) (Master.set_ticks (S (Master.ticks m)) m) → wp Master.Now Q E m.
Proof. done. Qed.
Lemma wp_emit e (Q : unit → Master.t → Prop) E m :
  Q tt (Master.set_trace (Master.trace m ++ [e]) m) → wp (Master.emit e) Q E m.
Proof. done. Qed.
Lemma wp_worker i (Q : WorkerState.t → Master.t → Prop) E m :
  (∀ w, Master.workers_ m !! i = Some w → Q w m) → wp (Master.worker i) Q E m.
Proof. unfold wp, Master.worker. munfold. simpl. destruct (_ !! i); auto. Qed.
Lemma wp_set_worker i w (Q : unit → Master.t → Prop) E m :
  Q tt (Master.set_workers_ (<[i := w]> (Master.workers_ m)) m) → wp (Master.set_worker i w) Q E m.
Proof. done. Qed.
Lemma wp_deref {A} (o : option A) (Q : A → Master.t → Prop) E m :
  (∀ a, o = Some a → Q a m) → wp (Master.deref o) Q E m.
Proof. destruct o; unfold wp; simpl; auto. Qed.
Lemma wp_CHECK b (Q : unit → Master.t → Prop) (E : Master.t → Prop) m :
  (b = true → Q tt m) → (b = false → E m) → wp (Master.CHECK b) Q E m.
Proof. destruct b; unfold wp; simpl; auto. Qed.
Lemma wp_abort {A} (Q : A → Master.t → Prop) (E : Master.t → Prop) m : E m → wp Master.abort Q E m.
Proof. done. Qed.
Lemma wp_spin {A} (Q : A → Master.t → Prop) (E : Master.t → Prop) m : E m → wp Master.spin Q E m.
Proof. done. Qed.
Lemma wp_undef {A} (Q : A → Master.t → Prop) (E : Master.t → Prop) m : wp Master.undef Q E m.
Proof. done. Qed.
Lemma wp_index z (Q : nat → Master.t → Prop) E m :
  ((0 ≤ z)%Z → Q (Z.to_nat z) m) → wp (Master.index z) Q E m.
Proof. unfold wp, Master.index. destruct (z <? 0)%Z eqn:Hz; simpl; [done|]. intros H. apply H. lia. Qed.

Lemma wp_TryRead_KERNEL_DONE (Q : option (Z * KernelDone) → Master.t → Prop) E m :
  (∀ x l, Q x (Master.set_kernel_done_in l m)) → Q None m →
  wp Master.TryRead_KERNEL_DONE Q E m.
Proof. intros H1 H2. unfold wp, Master.TryRead_KERNEL_DONE. destruct (Master.kernel_done_in m); auto. Qed.
Lemma wp_TryRead_FLUSH_RESPONSE (Q : option (Z * FlushResponse) → Master.t → Prop) E m :
  (∀ x l, Q x (Master.set_flush_in l m)) → Q None m →
  wp Master.TryRead_FLUSH_RESPONSE Q E m.
Proof. intros H1 H2. unfold wp, Master.TryRead_FLUSH_RESPONSE. destruct (Master.flush_in m); auto. Qed.

Ltac wp_step :=
  lazymatch goal with
  | |- wp Master.TryRead_KERNEL_DONE _ _ _ =>
      apply wp_TryRead_KERNEL_DONE; [intros ? ? |]
  | |- wp Master.TryRead_FLUSH_RESPONSE _ _ _ =>
      apply wp_TryRead_FLUSH_RESPONSE; [intros ? ? |]
  | |- wp (Master.bind _ _) _ _ _ => apply wp_bind
  | |- wp (Master.ret _) _ _ _ => apply wp_ret
  | |- wp (Master.gets _) _ _ _ => apply wp_gets
  | |- wp (Master.modify _) _ _ _ => apply wp_modify
  | |- wp Master.Now _ _ _ => apply wp_Now
  | |- wp (Master.emit _) _ _ _ => apply wp_emit
  | |- wp (Master.worker _) _ _ _ => apply wp_worker; intros ? ?
  | |- wp (Master.set_worker _ _) _ _ _ => apply wp_set_worker
  | |- wp (Master.deref _) _ _ _ => apply wp_deref; intros ? ?
  | |- wp (Master.index _) _ _ _ => apply wp_index; intros ?
  | |- wp Master.abort _ _ _ => apply wp_abort
  | |- wp Master.spin _ _ _ => apply wp_spin
  | |- wp Master.undef _ _ _ => apply wp_undef
  end; cbv beta.

Ltac wp_steps := repeat wp_step.

(** Use the specification [H] of the computation a bind starts with. *)
Ltac wp_binds :=
  repeat lazymatch goal with
         | |- wp (Master.bind _ _) _ _ _ => apply wp_bind
         end.

Ltac wp_apply H :=
  wp_binds; eapply wp_mono; [eapply H | cbv beta].

Lemma elem_of_with_status st m x :
  x ∈ TaskMap.with_status st m ↔ x ∈ m ∧ TaskState.status x = st.
Proof.
  unfold TaskMap.with_status. rewrite !list_elem_of_In, filter_In.
  by rewrite bool_decide_eq_true.
Qed.


Lemma wp_final_state {A} (c : Master.M A) (I : Master.t → Prop) m m' :
  wp c (λ _, I) I m → final_state (c m) = Some m' → I m'.
Proof. unfold wp, final_state. destruct (c m); intros; by simplify_eq. Qed.


Lemma bind_Ok {A B} (c : Master.M A) (k : A → Master.M B) m a m' :
  c m = Master.Ok a m' → Master.bind c k m = k a m'.
Proof. unfold Master.bind. by intros ->. Qed.

Lemma bind_Undef {A B} (c : Master.M A) (k : A → Master.M B) m :
  c m = Master.Undef → Master.bind c k m = Master.Undef.
Proof. unfold Master.bind. by intros ->. Qed.

Lemma bind_rewrite {A B} (c : Master.M A) (k : A → Master.M B) m r :
  c m = r →
  Master.bind c k m
  = match r with
    | Master.Ok a m' => k a m'
    | Master.Abort m' => Master.Abort m'
    | Master.Undef => Master.Undef
    | Master.Spin m' => Master.Spin m'
    end.
Proof. unfold Master.bind. by intros ->. Qed.

Lemma worker_Ok i w m :
  Master.workers_ m !! i = Some w → Master.worker i m = Master.Ok w m.
Proof. intros H. unfold Master.worker. munfold. simpl. by rewrite H. Qed.

Lemma method_stats_found key m s :
  Master.method_stats_ m !! key = Some s →
  Master.method_stats key m = Master.Ok s m.
Proof. intros H. unfold Master.method_stats. munfold. simpl. by rewrite H. Qed.

Ltac step_worker :=
  erewrite bind_Ok;
  [|apply worker_Ok; simpl;
    rewrite ?list_lookup_insert_eq by (rewrite ?length_insert; done);
    reflexivity].

Lemma method_stats_Ok key m :
  Master.method_stats key m
  = Master.Ok (default MethodStats.zero (Master.method_stats_ m !! key))
      (Master.set_method_stats_
         (<[key := default MethodStats.zero (Master.method_stats_ m !! key)]>
            (Master.method_stats_ m)) m)
  ∧ <[key := default MethodStats.zero (Master.method_stats_ m !! key)]>
      (Master.method_stats_ m) !! key
    = Some (default MethodStats.zero (Master.method_stats_ m !! key)).
Proof.
  split; [|apply lookup_insert_eq].
  unfold Master.method_stats. munfold. simpl.
  destruct (Master.method_stats_ m !! key) as [s|] eqn:E; simpl; [|done].
  rewrite insert_id by done. by destruct m.
Qed.

(** ** Invariants of the master's computations

    A property [P] of each worker's task map (by worker index) and a
    property [T] of the trace, each closed under what the computations do to
    them, hold of every state a computation ends in: on return, on a failed
    CHECK, and when a loop runs out of fuel.  [WORKER_APPLY] needs no closure
    condition: no computation gets to emit it. *)

Section Invariant.

Variable n : nat.
Variable P : nat → list TaskState.t → Prop.
Variable T : list Event → Prop.

Hypothesis T_run_kernel : ∀ l dst req, T l → T (l ++ [Send dst (MTYPE_RUN_KERNEL req)]).
Hypothesis T_shard_assignment : ∀ l req, T l → T (l ++ [SyncBroadcast (MTYPE_SHARD_ASSIGNMENT req)]).
Hypothesis T_sleep : ∀ l secs, T l → T (l ++ [Sleep secs]).
Hypothesis T_steal_attempt : ∀ l i, T l → T (l ++ [StealAttempt i]).
Hypothesis T_flush : ∀ l, T l → T (l ++ [Broadcast MTYPE_WORKER_FLUSH]).

Hypothesis P_activate : ∀ i wk j best,
  P i wk → length (TaskMap.with_status ACTIVE wk) = 0 →
  max_element TaskState.WeightCompare (TaskMap.with_status PENDING wk) = Some (j, best) →
  P i (TaskMap.modify (TaskState.set_status ACTIVE) (TaskState.id best) wk).
Hypothesis P_finish : ∀ i wk k s,
  P i wk → TaskMap.find k wk = Some s → TaskState.status s = ACTIVE →
  P i (TaskMap.modify (TaskState.set_status FINISHED) k wk).
Hypothesis P_steal_src : ∀ i wk j task,
  P i wk →
  max_element TaskState.WeightCompare (TaskMap.with_status PENDING wk) = Some (j, task) →
  TaskState.stolen task = false →
  P i (TaskMap.remove (TaskState.id task) wk).
Hypothesis P_steal_dst : ∀ i wk task,
  P i wk → TaskState.status task = PENDING →
  P i (TaskMap.assign (TaskState.set_stolen true task) wk).
Hypothesis P_fresh : ∀ i wk tid,
  P i wk → P i (TaskMap.assign (TaskState.new tid 1) wk).
Hypothesis P_clear : ∀ i, P i [].

Definition INV (m : Master.t) : Prop :=
  length (Master.workers_ m) = n
  ∧ (∀ i w, Master.workers_ m !! i = Some w → P i (WorkerState.work w))
  ∧ T (Master.trace m).

Lemma INV_set_worker m i w w' :
  INV m → Master.workers_ m !! i = Some w → P i (WorkerState.work w') →
  INV (Master.set_workers_ (<[i := w']> (Master.workers_ m)) m).
Proof.
  intros (Hn & HP & HT) Hw HP'. split; [|split]; simpl.
  - by rewrite length_insert.
  - intros j v Hj. destruct (decide (i = j)) as [->|Hne].
    + rewrite list_lookup_insert_eq in Hj by by eapply lookup_lt_Some.
      by simplify_eq.
    + rewrite list_lookup_insert_ne in Hj by done. by apply HP.
  - done.
Qed.

Lemma INV_frame m m' :
  Master.workers_ m' = Master.workers_ m → Master.trace m' = Master.trace m →
  INV m → INV m'.
Proof. unfold INV. by intros -> ->. Qed.

Lemma INV_P m i w : INV m → Master.workers_ m !! i = Some w → P i (WorkerState.work w).
Proof. intros (_ & HP & _). apply HP. Qed.

(** The primitives that change the state, on states known by [INV] and
    by their workers. *)

Lemma wp_Now_inv (Q : Q → Master.t → Prop) E m :
  INV m →
  (∀ t m', INV m' → Master.workers_ m' = Master.workers_ m → Q t m') →
  wp Master.Now Q E m.
Proof. intros Hinv H. apply wp_Now. apply H; [|done]. by eapply INV_frame. Qed.

Lemma wp_modify_inv f (Q : unit → Master.t → Prop) E m :
  INV m → Master.workers_ (f m) = Master.workers_ m →
  Master.trace (f m) = Master.trace m →
  (∀ m', INV m' → Master.workers_ m' = Master.workers_ m → Q tt m') →
  wp (Master.modify f) Q E m.
Proof. intros Hinv H1 H2 H. apply wp_modify. apply H; [|done]. by eapply INV_frame. Qed.

Lemma wp_emit_inv e (Q : unit → Master.t → Prop) E m :
  INV m → (∀ l, T l → T (l ++ [e])) →
  (∀ m', INV m' → Master.workers_ m' = Master.workers_ m → Q tt m') →
  wp (Master.emit e) Q E m.
Proof.
  intros (Hn & HP & HT) He H. apply wp_emit. apply H; [|done].
  split; [|split]; simpl; auto.
Qed.

Lemma wp_set_worker_inv i w (Q : unit → Master.t → Prop) E m w0 :
  INV m → Master.workers_ m !! i = Some w0 → P i (WorkerState.work w) →
  (∀ m', INV m' → Master.workers_ m' = <[i := w]> (Master.workers_ m) →
         Master.workers_ m' !! i = Some w → Q tt m') →
  wp (Master.set_worker i w) Q E m.
Proof.
  intros Hinv Hw HP H. apply wp_set_worker. apply H; [by eapply INV_set_worker|done|].
  simpl. apply list_lookup_insert_eq. by eapply lookup_lt_Some.
Qed.

Lemma wp_TryRead_KERNEL_DONE_inv (Q : option (Z * KernelDone) → Master.t → Prop) E m :
  INV m →
  (∀ x m', INV m' → Master.workers_ m' = Master.workers_ m → Q x m') →
  wp Master.TryRead_KERNEL_DONE Q E m.
Proof.
  intros Hinv H. apply wp_TryRead_KERNEL_DONE.
  - intros x l. apply H; [|done]. by eapply INV_frame.
  - by apply H.
Qed.

Lemma wp_TryRead_FLUSH_RESPONSE_inv (Q : option (Z * FlushResponse) → Master.t → Prop) E m :
  INV m →
  (∀ x m', INV m' → Master.workers_ m' = Master.workers_ m → Q x m') →
  wp Master.TryRead_FLUSH_RESPONSE Q E m.
Proof.
  intros Hinv H. apply wp_TryRead_FLUSH_RESPONSE.
  - intros x l. apply H; [|done]. by eapply INV_frame.
  - by apply H.
Qed.

Ltac wp_inv :=
  wp_binds;
  lazymatch goal with
  | |- wp Master.Now _ _ _ =>
      eapply wp_Now_inv; [eassumption | intros ? ? ? ?]
  | |- wp (Master.modify _) _ _ _ =>
      eapply wp_modify_inv; [eassumption | reflexivity | reflexivity | intros ? ? ?]
  | |- wp (Master.emit _) _ _ _ =>
      eapply wp_emit_inv; [eassumption | by auto | intros ? ? ?]
  | |- wp (Master.set_worker _ _) _ _ _ =>
      eapply wp_set_worker_inv; [eassumption | eassumption | | intros ? ? ? ?]
  | |- wp Master.TryRead_KERNEL_DONE _ _ _ =>
      eapply wp_TryRead_KERNEL_DONE_inv; [eassumption | intros ? ? ? ?]
  | |- wp Master.TryRead_FLUSH_RESPONSE _ _ _ =>
      eapply wp_TryRead_FLUSH_RESPONSE_inv; [eassumption | intros ? ? ? ?]
  | |- wp (Master.ret _) _ _ _ => apply wp_ret
  | |- wp (Master.gets _) _ _ _ => apply wp_gets
  | |- wp (Master.worker _) _ _ _ => apply wp_worker; intros ? ?
  | |- wp (Master.deref _) _ _ _ => apply wp_deref; intros ? ?
  | |- wp (Master.index _) _ _ _ => apply wp_index; intros ?
  | |- wp Master.abort _ _ _ => apply wp_abort
  | |- wp Master.spin _ _ _ => apply wp_spin
  | |- wp Master.undef _ _ _ => apply wp_undef
  end; cbv beta.

(** Postcondition of the computations that leave the workers alone. *)
Definition same_workers (m : Master.t) : Master.t → Prop :=
  λ m', INV m' ∧ Master.workers_ m' = Master.workers_ m.

Ltac solve_P := simpl; eapply INV_P; eassumption.

Lemma method_stats_inv key m :
  INV m → wp (Master.method_stats key) (λ _, same_workers m) INV m.
Proof.
  intros Hinv. unfold Master.method_stats. wp_inv.
  destruct (_ !! key); repeat wp_inv; by split.
Qed.

Lemma set_method_stats_inv key s m :
  INV m → wp (Master.set_method_stats key s) (λ _, same_workers m) INV m.
Proof. intros Hinv. unfold Master.set_method_stats. repeat wp_inv. by split. Qed.

Lemma for_each_inv {A} (l : list A) (body : A → Master.M unit) m :
  (∀ x m', INV m' → wp (body x) (λ _, INV) INV m') →
  INV m → wp (Master.for_each l body) (λ _, INV) INV m.
Proof.
  intros Hbody. revert m. induction l as [|x l IH]; intros m Hinv; simpl.
  - by wp_inv.
  - wp_apply Hbody; [done|]. intros _ m' Hinv'. by apply IH.
Qed.

Lemma for_each_same {A} (l : list A) (body : A → Master.M unit) m :
  (∀ x m', INV m' → wp (body x) (λ _, same_workers m') INV m') →
  INV m → wp (Master.for_each l body) (λ _, same_workers m) INV m.
Proof.
  intros Hbody. revert m. induction l as [|x l IH]; intros m Hinv; simpl.
  - by wp_inv.
  - wp_apply Hbody; [done|]. intros _ m' [Hinv' Hw].
    eapply wp_mono; [by apply IH|]. intros _ m'' [? ?]. split; [done | congruence].
Qed.

Lemma get_next_inv i r msg m w :
  INV m → Master.workers_ m !! i = Some w → WorkerState.num_active w = 0 →
  wp (Master.get_next i r msg) (λ _, INV) INV m.
Proof.
  intros Hinv Hw Hact. unfold Master.get_next.
  wp_inv. simplify_eq.
  unfold WorkerState.best_pending.
  destruct (max_element _ _) as [[j best]|] eqn:Hbest; simpl; [|by wp_inv].
  wp_inv. wp_inv.
  { simpl. eapply P_activate; [by eapply INV_P | exact Hact | exact Hbest]. }
  repeat wp_inv; [solve_P | done].
Qed.

Lemma dispatch_loop_inv r idxs num req m :
  INV m → wp (Master.dispatch_loop r idxs num req) (λ _, INV) INV m.
Proof.
  revert num req m. induction idxs as [|i idxs IH]; intros num req m Hinv; simpl.
  - by wp_inv.
  - wp_inv.
    destruct (_ && _) eqn:Hg.
    + apply andb_true_iff in Hg as [_ Hact]. apply Nat.eqb_eq in Hact.
      wp_apply get_next_inv; [done..|].
      intros [b req'] m' Hinv'. wp_inv. by apply IH.
    + by apply IH.
Qed.

Lemma dispatch_work_inv r m :
  INV m → wp (Master.dispatch_work r) (λ _, INV) INV m.
Proof. intros Hinv. unfold Master.dispatch_work. wp_inv. by apply dispatch_loop_inv. Qed.

Lemma reap_one_task_inv m :
  INV m → wp Master.reap_one_task (λ _, INV) INV m.
Proof.
  intros Hinv. unfold Master.reap_one_task. wp_inv.
  wp_apply method_stats_inv; [done|]. intros _ m1 [Hinv1 _].
  wp_inv.
  destruct x as [[src done_msg]|].
  - wp_inv. wp_inv.
    wp_apply (for_each_same (kd_shards done_msg)); [|eassumption|].
    { intros si m0 Hm0. repeat wp_inv. by split. }
    intros _ m2 [Hinv2 Hw2]. wp_inv.
    destruct (WorkerState.set_finished _ _) as [w'|] eqn:Hfin; [|by wp_inv].
    wp_inv.
    { unfold WorkerState.set_finished in Hfin.
      destruct (TaskMap.find _ _) as [s|] eqn:Hs; [|done].
      case_bool_decide; [|done]. simplify_eq. simpl.
      eapply P_finish; [by eapply INV_P | exact Hs | done]. }
    repeat wp_inv; [solve_P|].
    wp_apply method_stats_inv; [done|]. intros mstats m7 [Hinv7 Hw7].
    wp_apply set_method_stats_inv; [done|]. intros _ m8 [Hinv8 Hw8].
    repeat wp_inv; [solve_P | done].
  - repeat wp_inv. done.
Qed.

Lemma INV_workers m ws :
  INV m → length ws = n →
  (∀ i w, ws !! i = Some w → P i (WorkerState.work w)) →
  INV (Master.set_workers_ ws m).
Proof. intros (Hn & HP & HT) Hl Hws. by split; [|split]. Qed.

Lemma idle_time_inv w m :
  INV m → wp (Master.idle_time w) (λ _, same_workers m) INV m.
Proof.
  intros Hinv. unfold Master.idle_time.
  case_bool_decide; repeat wp_inv; by split.
Qed.

Lemma steal_wanted_inv mstats avg w m :
  INV m → wp (Master.steal_wanted mstats avg w) (λ _, same_workers m) INV m.
Proof.
  intros Hinv. unfold Master.steal_wanted.
  destruct (_ && _).
  - wp_apply idle_time_inv; [done|]. intros idle m' [? ?]. wp_inv. by split.
  - wp_inv. by split.
Qed.

Lemma send_table_assignments_inv m :
  INV m → wp Master.send_table_assignments (λ _, same_workers m) INV m.
Proof. intros Hinv. unfold Master.send_table_assignments. repeat wp_inv. by split. Qed.

Lemma migrate_inv dst_i src_i task m src dst j :
  INV m →
  Master.workers_ m !! src_i = Some src →
  Master.workers_ m !! dst_i = Some dst →
  max_element TaskState.WeightCompare (WorkerState.pending src) = Some (j, task) →
  TaskState.stolen task = false →
  wp (Master.migrate dst_i src_i task) (λ _, INV) INV m.
Proof.
  intros Hinv Hs Hd Hpick Hstolen.
  assert (TaskState.status task = PENDING) as Hst.
  { apply max_element_elem_of in Hpick. by apply elem_of_with_status in Hpick as [_ ?]. }
  pose proof (INV_P _ _ _ Hinv Hs) as HPs.
  pose proof (INV_P _ _ _ Hinv Hd) as HPd.
  destruct Hinv as (Hn & HP & HT).
  unfold wp. destruct (decide (dst_i = src_i)) as [->|Hne].
  - simplify_eq. rewrite (migrate_eq _ _ _ _ Hs).
    destruct (TaskMap.find _ _); [|done].
    apply INV_workers; [done | by rewrite length_insert |].
    intros i w Hi. destruct (decide (i = src_i)) as [->|Hi'].
    + rewrite list_lookup_insert_eq in Hi by by eapply lookup_lt_Some.
      simplify_eq. simpl. apply P_steal_dst; [|done]. by eapply P_steal_src.
    + rewrite list_lookup_insert_ne in Hi by done. by apply HP.
  - rewrite (migrate_ne _ _ _ _ _ _ Hne Hs Hd).
    case_decide; [|done]. destruct (TaskMap.find _ _); [|done].
    apply INV_workers; [done | by rewrite !length_insert |].
    intros i w Hi. destruct (decide (i = dst_i)) as [->|Hi'].
    + rewrite list_lookup_insert_eq in Hi
        by (rewrite length_insert; by eapply lookup_lt_Some).
      simplify_eq. simpl. by apply P_steal_dst.
    + rewrite list_lookup_insert_ne in Hi by done.
      destruct (decide (i = src_i)) as [->|Hi''].
      * rewrite list_lookup_insert_eq in Hi by by eapply lookup_lt_Some.
        simplify_eq. simpl. by eapply P_steal_src.
      * rewrite list_lookup_insert_ne in Hi by done. by apply HP.
Qed.

Lemma steal_work_inv r idle avg m :
  INV m → wp (Master.steal_work r idle avg) (λ _, INV) INV m.
Proof.
  intros Hinv. unfold wp. rewrite steal_work_unfold.
  destruct (negb _); [done|].
  destruct (idle <? 0)%Z; [done|].
  destruct (Master.workers_ m !! Z.to_nat idle) as [dst|] eqn:Hd; [|done].
  destruct (negb _); [done|].
  destruct (max_element WorkerState.PendingCompare _) as [[src_i src]|] eqn:Hsrc; [|done].
  destruct (_ =? 0); [done|].
  destruct (max_element TaskState.WeightCompare _) as [[j task]|] eqn:Hpick; [|done].
  destruct (TaskState.stolen task) eqn:Hstolen; [done|].
  destruct (RunDescriptor.table r); [|done].
  destruct (dle _ _); [done|].
  eapply (migrate_inv _ _ _ _ src dst); try done.
  by eapply max_element_lookup.
Qed.

Lemma steal_visit_inv key avg nu i m :
  INV m → wp (Master.steal_visit key avg nu i) (λ _, INV) INV m.
Proof.
  intros Hinv. unfold Master.steal_visit. wp_inv.
  wp_apply method_stats_inv; [done|]. intros mstats m1 [Hinv1 _].
  wp_apply steal_wanted_inv; [done|]. intros wanted m2 [Hinv2 _].
  apply wp_bind. apply (wp_mono _ (λ _, INV)).
  { destruct wanted.
    - wp_inv. wp_inv. wp_apply steal_work_inv; [done|].
      intros stole m4 Hinv4. by wp_inv.
    - by wp_inv. }
  intros nu' m5 Hinv5. cbv beta.
  destruct nu'.
  - wp_apply send_table_assignments_inv; [done|]. intros _ m6 [? _]. by wp_inv.
  - repeat wp_inv. done.
Qed.

Lemma steal_loop_inv key avg idxs nu m :
  INV m → wp (Master.steal_loop key avg idxs nu) (λ _, INV) INV m.
Proof.
  revert nu m. induction idxs as [|i idxs IH]; intros nu m Hinv; simpl.
  - by wp_inv.
  - wp_apply steal_visit_inv; [done|]. intros nu' m' Hinv'. by apply IH.
Qed.

Lemma steal_round_inv key m :
  INV m → wp (Master.steal_round key) (λ _, INV) INV m.
Proof.
  intros Hinv. unfold Master.steal_round.
  wp_inv. wp_apply method_stats_inv; [done|]. intros mstats m2 [Hinv2 _].
  wp_inv. wp_apply steal_loop_inv; [done|]. intros nu m3 Hinv3. by wp_inv.
Qed.

Lemma redispatch_inv m :
  INV m → wp Master.redispatch (λ _, INV) INV m.
Proof.
  intros Hinv. unfold Master.redispatch. wp_inv. wp_inv.
  destruct (_ <? _)%Z; [|by wp_inv].
  wp_apply dispatch_work_inv; [done|]. intros d m5 Hinv5. by wp_inv.
Qed.

Lemma barrier_work_inv key m :
  INV m → wp (Master.barrier_work key) (λ _, INV) INV m.
Proof.
  intros Hinv. unfold Master.barrier_work. wp_inv.
  wp_apply reap_one_task_inv; [done|]. intros w_id m1 Hinv1.
  destruct (0 <=? w_id)%Z; [|by wp_inv].
  wp_inv. wp_inv.
  apply wp_bind. apply (wp_mono _ (λ _, INV)).
  { destruct (Master.gate_open _ _); [|by wp_inv]. by apply steal_round_inv. }
  intros _ m4 Hinv4. cbv beta. by apply redispatch_inv.
Qed.

Lemma await_flush_inv fuel flushed quiescent m :
  INV m → wp (Master.await_flush fuel flushed quiescent) (λ _, INV) INV m.
Proof.
  revert flushed quiescent m.
  induction fuel as [|fuel IH]; intros flushed quiescent m Hinv; simpl.
  - by wp_inv.
  - wp_inv. destruct (_ <? _); [|by wp_inv].
    wp_inv. destruct x as [[src done_msg]|].
    + by apply IH.
    + wp_inv. wp_inv. by apply IH.
Qed.

Lemma flush_round_inv fuel m :
  INV m → wp (Master.flush_round fuel) (λ _, INV) INV m.
Proof. intros Hinv. unfold Master.flush_round. wp_inv. by apply await_flush_inv. Qed.

(** A [do ... while (1)] loop does not return. *)
Lemma do_while_true_inv {A} fuel (body : Master.M A) m :
  (∀ m', INV m' → wp body (λ _, INV) INV m') →
  INV m → wp (Master.do_while fuel body (λ _, true)) (λ _ _, False) INV m.
Proof.
  intros Hbody. revert m. induction fuel as [|fuel IH]; intros m Hinv; simpl.
  - by wp_inv.
  - wp_apply Hbody; [done|]. intros a m' Hinv'. by apply IH.
Qed.

Lemma flush_loop_inv fuel m :
  INV m → wp (Master.flush_loop fuel) (λ _ _, False) INV m.
Proof.
  intros Hinv. unfold Master.flush_loop. apply do_while_true_inv; [|done].
  intros m' Hinv'. by apply flush_round_inv.
Qed.

Lemma barrier_loop_inv fuel key m :
  INV m → wp (Master.barrier_loop fuel key) (λ _, INV) INV m.
Proof.
  revert m. induction fuel as [|fuel IH]; intros m Hinv; simpl.
  - by wp_inv.
  - wp_inv. wp_inv. destruct (_ <? _)%Z; [|by wp_inv].
    wp_apply barrier_work_inv; [done|]. intros _ m1 Hinv1.
    apply wp_bind. eapply wp_mono; [by apply flush_loop_inv|]. by intros _ m2 [].
Qed.

Lemma barrier_inv fuel m :
  INV m → wp (Master.barrier fuel) (λ _, INV) INV m.
Proof.
  intros Hinv. unfold Master.barrier. wp_inv.
  wp_apply method_stats_inv; [done|]. intros _ m1 [Hinv1 _].
  by apply barrier_loop_inv.
Qed.

(** Setting up an epoch. *)

Lemma least_loaded_from_lookup dead best i0 ws pre i w :
  (∀ j b, best = Some (j, b) → (pre ++ ws) !! j = Some b) →
  i0 = length pre →
  Master.least_loaded_from dead best i0 ws = Some (i, w) →
  (pre ++ ws) !! i = Some w.
Proof.
  revert best i0 pre. induction ws as [|x ws IH]; simpl; intros best i0 pre Hb Hi H.
  - by apply Hb.
  - replace (pre ++ x :: ws) with ((pre ++ [x]) ++ ws) in * by by rewrite <- app_assoc.
    eapply IH; [| |exact H].
    + intros j b Hjb. destruct (_ && _).
      * simplify_eq. rewrite lookup_app_l by (rewrite length_app; simpl; lia).
        by rewrite lookup_app_r, Nat.sub_diag by lia.
      * by apply Hb.
    + rewrite length_app. simpl. lia.
Qed.

Lemma assign_worker_inv table shard m :
  INV m → wp (Master.assign_worker table shard) (λ _, INV) INV m.
Proof.
  intros Hinv. unfold Master.assign_worker, Master.worker_for_shard.
  wp_inv. wp_inv.
  destruct (list_find _ _) as [[i w]|]; simpl.
  - wp_inv. wp_inv; [|by wp_inv]. simpl. apply P_fresh. solve_P.
  - wp_inv. wp_inv.
    destruct (Master.least_loaded_from _ _ _ _) as [[i best]|] eqn:Hbest; [|by wp_inv].
    apply (least_loaded_from_lookup _ _ _ _ []) in Hbest; [|done|done]. simpl in Hbest.
    apply wp_bind. apply wp_CHECK; intros _; [|done].
    wp_inv. rewrite assign_shard_insert. wp_inv. simplify_eq.
    wp_inv; [|by wp_inv]. simpl. apply P_fresh. solve_P.
Qed.

Lemma assign_tables_inv m :
  INV m → wp Master.assign_tables (λ _, INV) INV m.
Proof.
  intros Hinv. unfold Master.assign_tables. wp_inv. wp_inv.
  apply for_each_inv; [|done]. intros it m1 Hinv1.
  apply for_each_inv; [|done]. intros j m2 Hinv2.
  wp_apply assign_worker_inv; [done|]. intros _ m3 Hinv3. by wp_inv.
Qed.

Lemma assign_tasks_inv r shards m :
  INV m → wp (Master.assign_tasks r shards) (λ _, INV) INV m.
Proof.
  intros Hinv. unfold Master.assign_tasks. wp_inv.
  apply wp_bind, wp_modify. cbv beta.
  apply for_each_inv.
  - intros s m1 Hinv1. wp_inv.
    wp_apply assign_worker_inv; [done|]. intros _ m3 Hinv3. by wp_inv.
  - apply INV_workers; [done | | ].
    + rewrite length_fmap. by destruct Hinv.
    + intros i w Hi. apply list_lookup_fmap_Some in Hi as (w0 & -> & _).
      simpl. apply P_clear.
Qed.

Lemma kernel_inv name m :
  INV m → wp (Master.kernel name) (λ _, same_workers m) INV m.
Proof.
  intros Hinv. unfold Master.kernel. wp_inv.
  destruct (_ !! name); repeat wp_inv; by split.
Qed.

Lemma run_inv fuel r m :
  INV m → wp (Master.run fuel r) (λ _, INV) INV m.
Proof.
  intros Hinv. unfold Master.run. wp_inv. wp_inv.
  apply wp_bind, wp_CHECK; intros _; [|done]. cbv beta.
  wp_inv. wp_inv.
  wp_apply kernel_inv; [done|]. intros k m1 [Hinv1 _].
  apply wp_bind, wp_CHECK; intros _; [|done]. cbv beta.
  apply wp_bind, wp_CHECK; intros _; [|done]. cbv beta.
  wp_inv.
  apply wp_bind, wp_CHECK; intros _; [|done]. cbv beta.
  wp_apply method_stats_inv; [done|]. intros mstats m2 [Hinv2 _].
  wp_apply set_method_stats_inv; [done|]. intros _ m3 [Hinv3 _].
  wp_inv. wp_inv. wp_inv. wp_inv.
  apply wp_bind. apply (wp_mono _ (λ _, INV)).
  { destruct (Master.shards_assigned_ _); [by wp_inv|].
    wp_apply assign_tables_inv; [done|]. intros _ m4 Hinv4.
    eapply wp_mono; [by apply send_table_assignments_inv|]. by intros _ m5 [? _]. }
  intros _ m6 Hinv6. cbv beta. wp_inv. wp_inv.
  wp_apply assign_tasks_inv; [done|]. intros _ m7 Hinv7.
  wp_apply dispatch_work_inv; [done|]. intros d m8 Hinv8.
  wp_inv. by apply barrier_inv.
Qed.

(** Sequences of calls. *)

Lemma epoch_call_inv c m :
  epoch_call c = true → INV m → wp (call c) (λ _, INV) INV m.
Proof.
  intros Hc Hinv. destruct c; try done; simpl.
  - wp_apply dispatch_work_inv; [done|]. intros _ m' ?. by wp_inv.
  - wp_apply reap_one_task_inv; [done|]. intros _ m' ?. by wp_inv.
  - wp_apply steal_work_inv; [done|]. intros _ m' ?. by wp_inv.
  - by apply barrier_inv.
Qed.

Lemma epoch_calls_inv cs m :
  forallb epoch_call cs = true → INV m → wp (calls cs) (λ _, INV) INV m.
Proof.
  intros Hcs. unfold calls. revert m.
  induction cs as [|c cs IH]; intros m Hinv; simpl.
  - by wp_inv.
  - simpl in Hcs. apply andb_true_iff in Hcs as [Hc Hcs].
    wp_apply epoch_call_inv; [done..|]. intros _ m' ?. by apply IH.
Qed.

Lemma call_inv c m : INV m → wp (call c) (λ _, INV) INV m.
Proof.
  intros Hinv. destruct (epoch_call c) eqn:Hc; [by apply epoch_call_inv|].
  destruct c; try done; simpl.
  - by apply assign_tables_inv.
  - by apply assign_tasks_inv.
  - by apply run_inv.
Qed.

Lemma calls_inv cs m : INV m → wp (calls cs) (λ _, INV) INV m.
Proof.
  unfold calls. apply for_each_inv. intros c m' ?. by apply call_inv.
Qed.

End Invariant.

(** ** Stealing, case by case *)

Lemma workers_ordered_lookup ws i w :
  workers_ordered ws = true → ws !! i = Some w →
  TaskMap_ordered (WorkerState.work w) = true.
Proof.
  unfold workers_ordered. rewrite forallb_forall. intros H Hw.
  apply H. apply list_elem_of_In. by eapply list_elem_of_lookup_2.
Qed.

Lemma pick_is_entry wk j task :
  TaskMap_ordered wk = true →
  max_element TaskState.WeightCompare (TaskMap.with_status PENDING wk) = Some (j, task) →
  TaskMap.find (TaskState.id task) wk = Some task.
Proof.
  intros Ho Hpick. apply ordered_find; [done|].
  by apply max_element_elem_of, elem_of_with_status in Hpick as [? _].
Qed.


Lemma steal_work_Ok r idle avg m b m' :
  Master.steal_work r idle avg m = Master.Ok b m' →
  (b = false ∧ m' = m)
  ∨ (∃ dst src_i src task tb,
       steal_guards r idle avg m dst src_i src task tb
       ∧ dle (Master.eta (WorkerState.pending src) avg (Master.average_size tb))
             (Master.move_cost task avg (Master.average_size tb)) = false
       ∧ Master.migrate (Z.to_nat idle) src_i task m = Master.Ok b m').
Proof.
  rewrite steal_work_unfold.
  destruct (Master.FLAGS_work_stealing m) eqn:Hf; simpl; [|intros [= <- <-]; by left].
  destruct (idle <? 0)%Z eqn:Hi; [done|].
  destruct (Master.workers_ m !! Z.to_nat idle) as [dst|] eqn:Hd; [|done].
  destruct (WorkerState.alive _ dst) eqn:Ha; simpl; [|intros [= <- <-]; by left].
  destruct (max_element WorkerState.PendingCompare _) as [[src_i src]|] eqn:Hsrc; [|done].
  destruct (_ =? 0) eqn:Hp; [intros [= <- <-]; by left|].
  destruct (max_element TaskState.WeightCompare _) as [[j task]|] eqn:Hpick; [|done].
  destruct (TaskState.stolen task) eqn:Hstolen; [intros [= <- <-]; by left|].
  destruct (RunDescriptor.table r) as [tb|] eqn:Htb; [|done].
  destruct (dle _ _) eqn:Hc; [intros [= <- <-]; by left|].
  intros Hmig. right. exists dst, src_i, src, task, tb.
  split; [|done]. unfold steal_guards. apply Nat.eqb_neq in Hp.
  repeat (split; [done || lia|]). split; [by exists j|]. done.
Qed.



Lemma migrate_migrated dst_i src_i task m m' src dst j :
  TaskMap_ordered (WorkerState.work src) = true →
  dst_i ≠ src_i →
  Master.workers_ m !! src_i = Some src →
  Master.workers_ m !! dst_i = Some dst →
  max_element TaskState.WeightCompare (WorkerState.pending src) = Some (j, task) →
  Master.migrate dst_i src_i task m = Master.Ok true m' →
  migrated m m' src_i dst_i task.
Proof.
  intros Ho Hne Hs Hd Hpick. rewrite (migrate_ne _ _ _ _ _ _ Hne Hs Hd).
  case_decide as Hsub; [|done].
  destruct (TaskMap.find _ _) eqn:Hf; [|done]. intros [= <-].
  pose proof (lookup_lt_Some _ _ _ Hs). pose proof (lookup_lt_Some _ _ _ Hd).
  exists src, dst, (src_after (Master.tables_ m) task src),
    (dst_after (Master.tables_ m) task dst). simpl.
  split; [done|]. split; [done|].
  split; [by insert_lookup|]. split; [by insert_lookup|].
  split; [intros k ? ?; by insert_lookup|].
  split; [by eapply pick_is_entry|].
  split; [by apply find_remove_eq|].
  split; [rewrite find_assign; by rewrite decide_True|].
  split.
  { intros k Hk. split; [by apply find_remove_ne|].
    rewrite find_assign. by rewrite decide_False. }
  split; [done|]. split; [done|]. split; [done|].
  split; [done|]. split; [done|]. reflexivity.
Qed.

Lemma steal_work_picks r idle avg m m' :
  Master.steal_work r idle avg m = Master.Ok true m' →
  ∃ dst src_i src task tb,
    steal_guards r idle avg m dst src_i src task tb
    ∧ steal_pick m = Some (src_i, task)
    ∧ Master.workers_ m !! src_i = Some src
    ∧ Master.migrate (Z.to_nat idle) src_i task m = Master.Ok true m'.
Proof.
  intros H. apply steal_work_Ok in H as [[? _] | (dst & src_i & src & task & tb & Hg & _ & Hm)]; [done|].
  exists dst, src_i, src, task, tb. split; [done|].
  destruct Hg as (_ & _ & _ & _ & Hs & _ & [j Ht] & _).
  split; [unfold steal_pick; by rewrite Hs, Ht|].
  split; [by eapply max_element_lookup | done].
Qed.

(** A steal that succeeds picks a task that is not flagged and leaves it
    flagged at the idle worker. *)
Lemma steal_work_flags r idle avg m m' :
  workers_ordered (Master.workers_ m) = true →
  Master.steal_work r idle avg m = Master.Ok true m' →
  ∃ src_i task,
    steal_pick m = Some (src_i, task)
    ∧ TaskState.stolen task = false
    ∧ ¬ stolen_at m src_i (TaskState.id task)
    ∧ stolen_at m' (Z.to_nat idle) (TaskState.id task).
Proof.
  intros Ho. rewrite steal_work_unfold.
  destruct (negb _); [done|].
  destruct (idle <? 0)%Z; [done|].
  destruct (Master.workers_ m !! Z.to_nat idle) as [dst|] eqn:Hd; [|done].
  destruct (negb _); [done|].
  destruct (max_element WorkerState.PendingCompare _) as [[src_i src]|] eqn:Hsrc; [|done].
  destruct (_ =? 0); [done|].
  destruct (max_element TaskState.WeightCompare _) as [[j task]|] eqn:Hpick; [|done].
  destruct (TaskState.stolen task) eqn:Hstolen; [done|].
  destruct (RunDescriptor.table r); [|done].
  destruct (dle _ _); [done|].
  apply max_element_lookup in Hsrc as Hs.
  assert (¬ stolen_at m src_i (TaskState.id task)) as Hnot.
  { intros (w & tk & Hw & Hf & Hst). simplify_eq.
    rewrite (pick_is_entry _ _ _ (workers_ordered_lookup _ _ _ Ho Hs) Hpick) in Hf.
    simplify_eq. congruence. }
  assert (steal_pick m = Some (src_i, task)) as Hsp.
  { unfold steal_pick. by rewrite Hsrc, Hpick. }
  destruct (decide (Z.to_nat idle = src_i)) as [He|Hne].
  - rewrite He in *. rewrite (migrate_eq _ _ _ _ Hs).
    destruct (TaskMap.find _ _); [|done]. intros [= <-].
    exists src_i, task. repeat (split; [done|]).
    eexists _, _. simpl.
    split; [by apply list_lookup_insert_eq, (lookup_lt_Some _ _ _ Hs)|].
    simpl. rewrite find_assign. by rewrite decide_True.
  - rewrite (migrate_ne _ _ _ _ _ _ Hne Hs Hd).
    case_decide; [|done]. destruct (TaskMap.find _ _); [|done]. intros [= <-].
    exists src_i, task. repeat (split; [done|]).
    eexists _, _. simpl. split.
    { apply list_lookup_insert_eq. rewrite length_insert. by eapply lookup_lt_Some. }
    simpl. rewrite find_assign. by rewrite decide_True.
Qed.


(** ** One active task per worker *)

Lemma one_active_INV m :
  one_active m ↔ INV (length (Master.workers_ m)) P_one_active (λ _, True) m.
Proof.
  unfold one_active, INV, P_one_active. split.
  - intros H. split; [done|]. split; [|done]. intros i w Hw. by apply (H i).
  - intros (_ & H & _) i w Hw. by apply (H i).
Qed.

Lemma one_active_INV_n n m :
  INV n P_one_active (λ _, True) m → one_active m.
Proof. intros (_ & H & _) i w Hw. by apply (H i). Qed.

Lemma one_active_calls cs m m' :
  one_active m → final_state (calls cs m) = Some m' → one_active m'.
Proof.
  intros Hm Hfin. apply one_active_INV in Hm.
  eapply one_active_INV_n. eapply wp_final_state; [|exact Hfin].
  apply calls_inv; try done; unfold P_one_active.
  - intros i wk j best H0 Hact _. pose proof (with_status_modify_le ACTIVE (TaskState.set_status ACTIVE) (TaskState.id best) wk). lia.
  - intros i wk k s H0 _ _.
    pose proof (with_status_modify_other ACTIVE (TaskState.set_status FINISHED) k wk). 
    etrans; [apply H; by intros|done].
  - intros i wk j task H0 _ _. pose proof (with_status_remove_le ACTIVE (TaskState.id task) wk). lia.
  - intros i wk task H0 Hst. 
    pose proof (with_status_assign_other ACTIVE (TaskState.set_stolen true task) wk) as H.
    etrans; [apply H|done]. simpl. by rewrite Hst.
  - intros i wk tid H0.
    pose proof (with_status_assign_other ACTIVE (TaskState.new tid 1) wk) as H.
    etrans; [apply H|done]. done.
  - intros i. simpl. lia.
Qed.

Lemma dispatch_work_effect r m n m' :
  Master.dispatch_work r m = Master.Ok n m' →
  ∀ i w, Master.workers_ m !! i = Some w →
    ∃ w', Master.workers_ m' !! i = Some w'
      ∧ (WorkerState.work w' = WorkerState.work w
         ∨ (WorkerState.num_active w = 0
            ∧ ∃ best, WorkerState.best_pending w = Some best
                ∧ WorkerState.work w'
                  = TaskMap.modify (TaskState.set_status ACTIVE) (TaskState.id best)
                      (WorkerState.work w)
                ∧ WorkerState.num_active w' = 1)).
Proof.
  intros Hrun i w Hw.
  assert (INV (length (Master.workers_ m)) (P_dispatched (Master.workers_ m)) (λ _, True) m) as Hinv.
  { split; [done|]. split; [|done]. intros j v Hj. exists v. split; [done | by left]. }
  apply (dispatch_work_inv _ _ _) with (r := r) in Hinv.
  - unfold wp in Hinv. rewrite Hrun in Hinv. destruct Hinv as (Hlen & HP & _).
    destruct (lookup_lt_is_Some_2 (Master.workers_ m') i) as [w' Hw'].
    { rewrite Hlen. by eapply lookup_lt_Some. }
    exists w'. split; [done|].
    destruct (HP _ _ Hw') as (w0 & Hw0 & [Heq | (Hact & j & best & Hbest & Heq)]);
      simplify_eq; [by left|]. right. split; [done|]. exists best.
    split; [unfold WorkerState.best_pending; by rewrite Hbest|]. split; [done|].
    unfold WorkerState.num_active, WorkerState.active, WorkerState.tasks_in in *.
    rewrite Heq.
    pose proof (with_status_modify_le ACTIVE (TaskState.set_status ACTIVE) (TaskState.id best) (WorkerState.work w)).
    pose proof (with_status_modify_ge ACTIVE best (WorkerState.work w)) as Hge.
    apply max_element_elem_of, elem_of_with_status in Hbest as [Hin _].
    specialize (Hge Hin). lia.
  - done.
  - intros i0 wk j best (w0 & Hw0 & [-> | (Hact & j' & best' & Hbest' & ->)]) Hact' Hbest.
    + exists w0. split; [done|]. right. split; [done|]. by exists j, best.
    + exfalso.
      pose proof (with_status_modify_ge ACTIVE best' (WorkerState.work w0)) as Hge.
      apply max_element_elem_of, elem_of_with_status in Hbest' as [Hin _].
      specialize (Hge Hin). lia.
Qed.

Lemma set_finished_effect tid w w' :
  WorkerState.set_finished tid w = Some w' →
  ∃ s, TaskMap.find tid (WorkerState.work w) = Some s
    ∧ TaskState.status s = ACTIVE
    ∧ WorkerState.work w'
      = TaskMap.modify (TaskState.set_status FINISHED) tid (WorkerState.work w).
Proof.
  unfold WorkerState.set_finished. destruct (TaskMap.find _ _) as [s|]; [|done].
  case_bool_decide; [|done]. intros [= <-]. by exists s.
Qed.

Lemma one_active_new nw tables kernels dead stealing sleep clk kd fl :
  one_active (Master.new nw tables kernels dead stealing sleep clk kd fl).
Proof.
  intros i w Hw. simpl in Hw. apply list_lookup_imap_Some in Hw as (x & _ & ->).
  unfold WorkerState.num_active, WorkerState.active, WorkerState.tasks_in.
  simpl. lia.
Qed.

(** C7. One task per worker is active at most: this holds of the master as
    constructed, and of every state that any sequence of the master's calls
    ends in (returning, aborting, or with a loop still running);
    [dispatch_work] leaves a worker alone or, when none of its tasks is
    active, marks one pending task of it active; [set_finished] takes an
    active task, and only an active one, to finished. *)
Theorem C7_one_active_per_worker :
  (∀ nw tables kernels dead stealing sleep clk kd fl,
     one_active (Master.new nw tables kernels dead stealing sleep clk kd fl))
  ∧ (∀ cs m m',
       one_active m → final_state (calls cs m) = Some m' → one_active m')
  ∧ (∀ r m n m',
       Master.dispatch_work r m = Master.Ok n m' →
       ∀ i w, Master.workers_ m !! i = Some w →
         ∃ w', Master.workers_ m' !! i = Some w'
           ∧ (WorkerState.work w' = WorkerState.work w
              ∨ (WorkerState.num_active w = 0
                 ∧ ∃ best, WorkerState.best_pending w = Some best
                     ∧ WorkerState.work w'
                       = TaskMap.modify (TaskState.set_status ACTIVE)
                           (TaskState.id best) (WorkerState.work w)
                     ∧ WorkerState.num_active w' = 1)))
  ∧ (∀ tid w w',
       WorkerState.set_finished tid w = Some w' →
       ∃ s, TaskMap.find tid (WorkerState.work w) = Some s
         ∧ TaskState.status s = ACTIVE
         ∧ WorkerState.work w'
           = TaskMap.modify (TaskState.set_status FINISHED) tid
               (WorkerState.work w)).
Proof.
  split; [exact one_active_new|].
  split; [exact one_active_calls|].
  split; [exact dispatch_work_effect | exact set_finished_effect].
Qed.

(** The invariant on a run of the example: tables and tasks are assigned,
    two tasks are dispatched, and the barrier is left running. *)
Lemma C7_one_active_per_worker_witness :
  final_state (calls [Call_run 4 ex_run] ex_master)
  = Some (state_of ex_master (calls [Call_run 4 ex_run] ex_master))
  ∧ one_active (state_of ex_master (calls [Call_run 4 ex_run] ex_master)).
Proof.
  assert (final_state (calls [Call_run 4 ex_run] ex_master)
          = Some (state_of ex_master (calls [Call_run 4 ex_run] ex_master))) as E
    by (vm_compute; reflexivity).
  split; [exact E|].
  destruct C7_one_active_per_worker as (Hnew & Hcalls & _).
  exact (Hcalls _ _ _ (Hnew _ _ _ _ _ _ _ _ _) E).
Defined.

(** ** The stolen flag *)

Lemma P_stolen_kept_init m :
  workers_ordered (Master.workers_ m) = true →
  INV (length (Master.workers_ m)) (P_stolen_kept (Master.workers_ m)) (λ _, True) m.
Proof.
  intros Ho. split; [done|]. split; [|done]. intros i w Hw. split.
  - by eapply workers_ordered_lookup.
  - intros w0 k t Hw0 Hk Hst. simplify_eq. by exists t.
Qed.

Lemma stolen_kept_calls cs m m' :
  forallb epoch_call cs = true →
  workers_ordered (Master.workers_ m) = true →
  final_state (calls cs m) = Some m' →
  INV (length (Master.workers_ m)) (P_stolen_kept (Master.workers_ m)) (λ _, True) m'.
Proof.
  intros Hcs Ho Hfin.
  eapply wp_final_state; [|exact Hfin].
  apply epoch_calls_inv; try done; [| | | | by apply P_stolen_kept_init].
  - (* activate *)
    intros i wk j best [Hord Hk] _ _. split; [by apply ordered_modify|].
    intros w0 k t Hw0 Hf Hst. destruct (Hk _ _ _ Hw0 Hf Hst) as (t' & Ht' & Hst').
    rewrite find_modify by done. case_decide.
    + rewrite Ht'. by eexists.
    + by eexists.
  - (* finish *)
    intros i wk k s [Hord Hk] _ _. split; [by apply ordered_modify|].
    intros w0 k' t Hw0 Hf Hst. destruct (Hk _ _ _ Hw0 Hf Hst) as (t' & Ht' & Hst').
    rewrite find_modify by done. case_decide.
    + rewrite Ht'. by eexists.
    + by eexists.
  - (* steal, source *)
    intros i wk j task [Hord Hk] Hpick Hns. split; [by apply ordered_remove|].
    intros w0 k t Hw0 Hf Hst. destruct (Hk _ _ _ Hw0 Hf Hst) as (t' & Ht' & Hst').
    destruct (decide (k = TaskState.id task)) as [->|Hne].
    + rewrite (pick_is_entry _ _ _ Hord Hpick) in Ht'. simplify_eq. congruence.
    + rewrite find_remove_ne by done. by eexists.
  - (* steal, destination *)
    intros i wk task [Hord Hk] _. split; [by apply ordered_assign|].
    intros w0 k t Hw0 Hf Hst. destruct (Hk _ _ _ Hw0 Hf Hst) as (t' & Ht' & Hst').
    rewrite find_assign. case_decide; by eexists.
Qed.

Lemma stolen_at_kept cs m m' :
  forallb epoch_call cs = true →
  workers_ordered (Master.workers_ m) = true →
  final_state (calls cs m) = Some m' →
  ∀ i k, stolen_at m i k → stolen_at m' i k.
Proof.
  intros Hcs Ho Hfin i k (w & t & Hw & Hf & Hst).
  destruct (stolen_kept_calls _ _ _ Hcs Ho Hfin) as (Hlen & HP & _).
  destruct (lookup_lt_is_Some_2 (Master.workers_ m') i) as [w' Hw'].
  { rewrite Hlen. by eapply lookup_lt_Some. }
  destruct (HP _ _ Hw') as [_ Hk].
  destruct (Hk _ _ _ Hw Hf Hst) as (t' & ? & ?). by exists w', t'.
Qed.

Lemma INV_stolen_kept_ordered n ws0 m :
  INV n (P_stolen_kept ws0) (λ _, True) m →
  workers_ordered (Master.workers_ m) = true.
Proof.
  intros (_ & HP & _). unfold workers_ordered. apply forallb_forall.
  intros w Hw. apply list_elem_of_In, list_elem_of_lookup in Hw as [i Hi].
  by destruct (HP _ _ Hi).
Qed.

(** C8. Within an epoch (any sequence of dispatch, reap, steal and barrier
    calls on a well-formed master), a task whose stolen flag is set stays in
    its worker's map with the flag set; and a steal that succeeds afterwards
    picks a task that is not flagged, neither now nor at the start, and
    leaves it flagged at the idle worker: no task is migrated twice. *)
Theorem C8_stolen_once cs m m' :
  forallb epoch_call cs = true →
  workers_ordered (Master.workers_ m) = true →
  final_state (calls cs m) = Some m' →
  (∀ i k, stolen_at m i k → stolen_at m' i k)
  ∧ (∀ r idle avg m'',
       Master.steal_work r idle avg m' = Master.Ok true m'' →
       ∃ src_i task,
         steal_pick m' = Some (src_i, task)
         ∧ TaskState.stolen task = false
         ∧ ¬ stolen_at m' src_i (TaskState.id task)
         ∧ ¬ stolen_at m src_i (TaskState.id task)
         ∧ stolen_at m'' (Z.to_nat idle) (TaskState.id task)).
Proof.
  intros Hcs Ho Hfin. split; [by eapply stolen_at_kept|].
  intros r idle avg m'' Hsteal.
  pose proof (stolen_kept_calls _ _ _ Hcs Ho Hfin) as Hinv.
  apply INV_stolen_kept_ordered in Hinv.
  destruct (steal_work_flags _ _ _ _ _ Hinv Hsteal) as (src_i & task & ? & ? & Hn & ?).
  exists src_i, task. split; [done|]. split; [done|]. split; [done|].
  split; [|done].
  intros Hat. apply Hn. exact (stolen_at_kept _ _ _ Hcs Ho Hfin _ _ Hat).
Qed.

(** The task worker 0 stole in the example is still flagged there after a
    dispatch, another steal and a reap. *)
Lemma C8_stolen_once_witness :
  stolen_at ex_stolen 0 (Taskid.mk 0 1)
  ∧ stolen_at (state_of ex_stolen (calls ex_epoch ex_stolen)) 0 (Taskid.mk 0 1).
Proof.
  assert (stolen_at ex_stolen 0 (Taskid.mk 0 1)) as Hat.
  { eexists _, _. split; [|split]; [vm_compute; reflexivity ..]. }
  split; [exact Hat|].
  refine (proj1 (C8_stolen_once ex_epoch ex_stolen _ _ _ _) 0 (Taskid.mk 0 1) Hat);
    vm_compute; reflexivity.
Defined.

(** ** What a steal moves *)

(** C4, as the code has it.  When [steal_work] migrates the task it picked
    from the most loaded worker to a different, idle worker, the task leaves
    the map of the source and enters the map of the idle worker with its
    stolen flag set, and the shards that change owner are those of the
    task's shard index in every registered table that has that many shards,
    not the one shard of the task's table; all else is unchanged. *)
Theorem C4_steal_work_migration r idle avg m m' :
  workers_ordered (Master.workers_ m) = true →
  Master.steal_work r idle avg m = Master.Ok true m' →
  ∃ src_i task,
    steal_pick m = Some (src_i, task)
    ∧ TaskState.stolen task = false
    ∧ (src_i ≠ Z.to_nat idle → migrated m m' src_i (Z.to_nat idle) task)
    ∧ (∀ tid,
         tid ∈ targets (Master.tables_ m) (Taskid.shard (TaskState.id task)) ↔
         Taskid.shard tid = Taskid.shard (TaskState.id task)
         ∧ ∃ tb, Master.tables_ m !! Taskid.table tid = Some tb
             ∧ (Taskid.shard (TaskState.id task) < numShards tb)%Z).
Proof.
  intros Ho H.
  apply steal_work_picks in H as (dst & src_i & src & task & tb & Hg & Hp & Hs & Hm).
  exists src_i, task. split; [done|].
  destruct Hg as (_ & _ & Hd & _ & _ & _ & [j Ht] & Hst & _).
  split; [done|]. split; [|intros tid; apply elem_of_targets].
  intros Hne. eapply migrate_migrated; try done.
  by eapply workers_ordered_lookup.
Qed.

(** The steal of the example: worker 0 takes task (0, 1) of worker 1. *)
Lemma C4_steal_work_migration_witness :
  steal_pick ex_assigned = Some (1, TaskState.mk (Taskid.mk 0 1) PENDING 1 false)
  ∧ migrated ex_assigned ex_stolen 1 0 (TaskState.mk (Taskid.mk 0 1) PENDING 1 false).
Proof.
  assert (workers_ordered (Master.workers_ ex_assigned) = true) as Ho
    by (vm_compute; reflexivity).
  assert (Master.steal_work ex_run13 0 (3 # 10) ex_assigned = Master.Ok true ex_stolen) as Hs
    by (vm_compute; reflexivity).
  destruct (C4_steal_work_migration _ _ _ _ _ Ho Hs) as (src_i & task & Hp & _ & Hm & _).
  assert (steal_pick ex_assigned
          = Some (1, TaskState.mk (Taskid.mk 0 1) PENDING 1 false)) as Hp'
    by (vm_compute; reflexivity).
  rewrite Hp' in Hp. injection Hp as <- <-.
  split; [exact Hp'|]. apply Hm. discriminate.
Defined.

(** C4 as stated fails: the migrated task is of table 0, and shard 1 of
    table 1 changes owner with it. *)
Lemma C4_counterexample :
  Master.steal_work ex_run13 0 (3 # 10) ex_assigned = Master.Ok true ex_stolen
  ∧ steal_pick ex_assigned
    = Some (1, TaskState.mk (Taskid.mk 0 1) PENDING 1 false)
  ∧ owns ex_assigned 1 (Taskid.mk 1 1) = true
  ∧ owns ex_stolen 1 (Taskid.mk 1 1) = false
  ∧ owns ex_stolen 0 (Taskid.mk 1 1) = true.
Proof.
  split; [vm_compute; reflexivity|].
  split; [vm_compute; reflexivity|].
  split; [vm_compute; reflexivity|].
  split; vm_compute; reflexivity.
Qed.


(** ** A steal is all or nothing *)



(** ** The cost test of a steal *)











(** ** The task chosen among the pending ones *)

Lemma get_next_picks i r msg m w j best tb :
  Master.workers_ m !! i = Some w →
  max_element TaskState.WeightCompare (WorkerState.pending w) = Some (j, best) →
  RunDescriptor.table r = Some tb →
  ∃ m', Master.get_next i r msg m
        = Master.Ok (true, mkKernelRequest (RunDescriptor.kernel r)
                             (RunDescriptor.method r) (table_id tb)
                             (Taskid.shard (TaskState.id best))) m'
        ∧ ∃ w', Master.workers_ m' !! i = Some w'
            ∧ WorkerState.work w'
              = TaskMap.modify (TaskState.set_status ACTIVE) (TaskState.id best)
                  (WorkerState.work w).
Proof.
  intros Hw Hb Ht. unfold Master.get_next, WorkerState.best_pending.
  munfold. simpl. rewrite Hw. simpl. rewrite Hb. simpl. rewrite Ht. simpl.
  unfold Master.Now. simpl.
  pose proof (lookup_lt_Some _ _ _ Hw) as Hlt.
  rewrite list_lookup_insert_eq by done. simpl.
  eexists. split; [reflexivity|]. simpl.
  eexists. split; [apply list_lookup_insert_eq; by rewrite length_insert|].
  done.
Qed.

Lemma WeightCompare_eq a b :
  TaskState.WeightCompare a b
  = (TaskState.stolen a && negb (TaskState.stolen b))
    || (TaskState.size a <? TaskState.size b)%Z.
Proof. unfold TaskState.WeightCompare. by destruct (_ && _). Qed.

(** C3, as the code has it.  When the pending tasks of a worker have a
    [max_element] under [WeightCompare], the comparator being used as
    less-than, [get_next] dispatches that task (its shard goes into the
    request and it becomes Active) and a successful [steal_work] whose
    source is that worker migrates that task, which is not stolen.
    [WeightCompare a b] holds when [a] is stolen and [b] is not, or when
    [a] is smaller than [b]: no task later in key order compares above the
    one chosen; among tasks of equal stolen flags the chosen one has the
    largest size; among tasks of equal sizes a stolen task is chosen only
    when every pending task is stolen, so a task that is not stolen
    outranks a stolen one. *)
Theorem C3_best_pending_choice w j best :
  max_element TaskState.WeightCompare (WorkerState.pending w) = Some (j, best) →
  (∀ i r msg m tb,
     Master.workers_ m !! i = Some w → RunDescriptor.table r = Some tb →
     ∃ m', Master.get_next i r msg m
           = Master.Ok (true, mkKernelRequest (RunDescriptor.kernel r)
                                (RunDescriptor.method r) (table_id tb)
                                (Taskid.shard (TaskState.id best))) m'
           ∧ ∃ w', Master.workers_ m' !! i = Some w'
               ∧ WorkerState.work w'
                 = TaskMap.modify (TaskState.set_status ACTIVE)
                     (TaskState.id best) (WorkerState.work w))
  ∧ (∀ r idle avg m m' src_i,
       max_element WorkerState.PendingCompare (Master.workers_ m) = Some (src_i, w) →
       Master.steal_work r idle avg m = Master.Ok true m' →
       TaskState.stolen best = false
       ∧ Master.migrate (Z.to_nat idle) src_i best m = Master.Ok true m')
  ∧ WorkerState.pending w !! j = Some best
  ∧ (∀ a b, TaskState.WeightCompare a b
            = (TaskState.stolen a && negb (TaskState.stolen b))
              || (TaskState.size a <? TaskState.size b)%Z)
  ∧ (∀ k p, WorkerState.pending w !! k = Some p → j < k →
            TaskState.WeightCompare best p = false)
  ∧ ((∀ p, p ∈ WorkerState.pending w → TaskState.stolen p = TaskState.stolen best) →
     ∀ p, p ∈ WorkerState.pending w → (TaskState.size p ≤ TaskState.size best)%Z)
  ∧ ((∀ p, p ∈ WorkerState.pending w → TaskState.size p = TaskState.size best) →
     TaskState.stolen best = true →
     ∀ p, p ∈ WorkerState.pending w → TaskState.stolen p = true).
Proof.
  intros Hb. split; [|split; [|split; [|split; [|split; [|split]]]]].
  - intros i r msg m tb Hw Ht. by eapply get_next_picks.
  - intros r idle avg m m' src_i Hs H.
    apply steal_work_picks in H as (dst & src_i' & src & task & tb & Hg & _ & _ & Hm).
    destruct Hg as (_ & _ & _ & _ & Hs' & _ & [j' Ht] & Hst & _).
    rewrite Hs in Hs'. injection Hs' as <- <-.
    rewrite Hb in Ht. by injection Ht as <- <-.
  - by eapply max_element_lookup.
  - apply WeightCompare_eq.
  - by eapply max_element_later.
  - by eapply max_element_WeightCompare_size.
  - by eapply max_element_WeightCompare_stolen.
Qed.

(** In the example worker 1 holds the stolen task (0, 0) and its own tasks
    (0, 1) and (0, 3): the request is for shard 1. *)
Lemma C3_best_pending_choice_witness :
  ∃ m', Master.get_next 1 ex_run (mkKernelRequest "" "" 0 0) ex_mixed
        = Master.Ok (true, mkKernelRequest "K" "run" 0 1) m'.
Proof.
  evar (w : WorkerState.t).
  assert (Master.workers_ ex_mixed !! 1 = Some w) as Hw
    by (subst w; vm_compute; reflexivity).
  destruct (C3_best_pending_choice w 1
              (TaskState.mk (Taskid.mk 0 1) PENDING 1 false)) as (Hg & _);
    [vm_compute; reflexivity|].
  destruct (Hg 1 ex_run (mkKernelRequest "" "" 0 0) ex_mixed (mkTable 0 4))
    as (m' & Hm' & _); [exact Hw | reflexivity |].
  by exists m'.
Defined.

(** C3 as stated fails: worker 1 holds a stolen pending task, which the
    ranking of the specification puts first, and both [get_next] and the
    choice of a steal take task (0, 1), which is not stolen. *)
Lemma C3_counterexample :
  (WorkerState.pending <$> Master.workers_ ex_mixed !! 1)
  = Some [TaskState.mk (Taskid.mk 0 0) PENDING 1 true;
          TaskState.mk (Taskid.mk 0 1) PENDING 1 false;
          TaskState.mk (Taskid.mk 0 3) PENDING 1 false]
  ∧ spec_outranks (TaskState.mk (Taskid.mk 0 0) PENDING 1 true)
                  (TaskState.mk (Taskid.mk 0 1) PENDING 1 false) = true
  ∧ spec_outranks (TaskState.mk (Taskid.mk 0 0) PENDING 1 true)
                  (TaskState.mk (Taskid.mk 0 3) PENDING 1 false) = true
  ∧ returned_value (Master.get_next 1 ex_run (mkKernelRequest "" "" 0 0) ex_mixed)
    = Some (true, mkKernelRequest "K" "run" 0 1)
  ∧ steal_pick ex_mixed
    = Some (1, TaskState.mk (Taskid.mk 0 1) PENDING 1 false).
Proof.
  split; [vm_compute; reflexivity|].
  split; [vm_compute; reflexivity|].
  split; [vm_compute; reflexivity|].
  split; vm_compute; reflexivity.
Qed.
(** ** The worker a shard is assigned to *)

Lemma least_loaded_from_inv dead ws pre best :
  least_loaded_inv dead pre best →
  least_loaded_inv dead (pre ++ ws)
    (Master.least_loaded_from dead best (length pre) ws).
Proof.
  revert pre best. induction ws as [|x ws IH]; simpl; intros pre best Hb.
  - by rewrite app_nil_r.
  - replace (pre ++ x :: ws) with ((pre ++ [x]) ++ ws) by by rewrite <- app_assoc.
    replace (S (length pre)) with (length (pre ++ [x]))
      by (rewrite length_app; simpl; lia).
    apply IH. clear IH.
    destruct (WorkerState.alive dead x) eqn:Hx; simpl.
    + destruct best as [[i b]|]; simpl in *.
      * destruct Hb as (Hi & Ha & Hmin).
        pose proof (lookup_lt_Some _ _ _ Hi) as Hlt.
        destruct (size (WorkerState.shards x) <? size (WorkerState.shards b)) eqn:E.
        -- apply Nat.ltb_lt in E.
           split; [by rewrite lookup_app_r, Nat.sub_diag by lia|].
           split; [done|]. intros j w' Hj Hw'.
           apply lookup_app_Some in Hj as [Hj | [Hge Hj]].
           ++ destruct (Hmin j w' Hj Hw') as [H1 _].
              pose proof (lookup_lt_Some _ _ _ Hj). lia.
           ++ apply list_lookup_singleton_Some in Hj as [Hj <-]. lia.
        -- apply Nat.ltb_ge in E.
           split; [by apply lookup_app_l_Some|].
           split; [done|]. intros j w' Hj Hw'.
           apply lookup_app_Some in Hj as [Hj | [Hge Hj]].
           ++ by apply Hmin.
           ++ apply list_lookup_singleton_Some in Hj as [Hj <-]. lia.
      * split; [by rewrite lookup_app_r, Nat.sub_diag by lia|].
        split; [done|]. intros j w' Hj Hw'.
        apply lookup_app_Some in Hj as [Hj | [Hge Hj]].
        -- apply list_elem_of_lookup_2 in Hj. apply Hb in Hj. congruence.
        -- apply list_lookup_singleton_Some in Hj as [Hj <-]. lia.
    + destruct best as [[i b]|]; simpl in *.
      * destruct Hb as (Hi & Ha & Hmin).
        split; [by apply lookup_app_l_Some|].
        split; [done|]. intros j w' Hj Hw'.
        apply lookup_app_Some in Hj as [Hj | [Hge Hj]].
        -- by apply Hmin.
        -- apply list_lookup_singleton_Some in Hj as [Hj <-]. congruence.
      * intros w Hw. apply elem_of_app in Hw as [Hw | Hw]; [by apply Hb|].
        apply list_elem_of_singleton in Hw as ->. done.
Qed.

Lemma least_loaded_from_spec dead ws :
  least_loaded_inv dead ws (Master.least_loaded_from dead None 0 ws).
Proof.
  apply (least_loaded_from_inv dead ws [] None). intros w Hw. by apply elem_of_nil in Hw.
Qed.

(** C5, as the code has it.  [assign_worker (table, shard)] does one of
    three things.  If some worker has (table, shard) in its shards, it
    returns the first such worker in index order, alive or not.  Otherwise,
    if some worker is alive, it returns the alive worker with the fewest
    shards, the lowest index among equals, after giving it the shard index
    [shard] of every registered table that has that many shards.  Otherwise
    it stops at a failed CHECK with the state unchanged.  In the first two
    cases a fresh Pending task of size 1, not stolen, is put under
    (table, shard) in the map of the worker returned, and nothing else
    changes. *)
Theorem C5_assign_worker_choice table shard m :
  (∃ i w, first_owner_at (Taskid.mk table shard) (Master.workers_ m) i w
          ∧ Master.assign_worker table shard m
            = Master.Ok i
                (placed i
                   (WorkerState.assign_task
                      (TaskState.mk (Taskid.mk table shard) PENDING 1 false) w)
                   m))
  ∨ (unowned (Taskid.mk table shard) (Master.workers_ m)
     ∧ ∃ i w, least_loaded_at (Master.dead_workers m) (Master.workers_ m) i w
         ∧ Master.assign_worker table shard m
           = Master.Ok i
               (placed i
                  (WorkerState.assign_task
                     (TaskState.mk (Taskid.mk table shard) PENDING 1 false)
                     (WorkerState.set_shards
                        (λ sh, targets (Master.tables_ m) shard ∪ sh) w)) m))
  ∨ (unowned (Taskid.mk table shard) (Master.workers_ m)
     ∧ none_alive (Master.dead_workers m) (Master.workers_ m)
     ∧ Master.assign_worker table shard m = Master.Abort m).
Proof.
  set (tid := Taskid.mk table shard). set (ws := Master.workers_ m).
  unfold Master.assign_worker, Master.worker_for_shard. munfold. simpl.
  destruct (list_find _ _) as [[i w]|] eqn:Hf; simpl.
  - left. apply list_find_Some in Hf as (Hi & Ho & Hfirst).
    exists i, w. split; [done|]. by rewrite Hi.
  - right. apply list_find_None in Hf.
    assert (unowned tid ws) as Hun.
    { intros w Hw. by apply (proj1 (Forall_forall _ _) Hf). }
    pose proof (least_loaded_from_spec (Master.dead_workers m) (Master.workers_ m)) as Hl.
    destruct (Master.least_loaded_from _ _ _ _) as [[i best]|]; simpl in *.
    + left. split; [done|]. exists i, best. split; [done|].
      destruct Hl as (_ & -> & _). simpl.
      by rewrite assign_shard_insert.
    + right. done.
Qed.

(** C5 as stated fails: worker 0 has shard (0, 0) and is dead, worker 1 is
    alive, and [assign_worker] returns worker 0. *)
Lemma C5_counterexample :
  owns ex_dead0 0 (Taskid.mk 0 0) = true
  ∧ (WorkerState.alive (Master.dead_workers ex_dead0)
       <$> Master.workers_ ex_dead0 !! 0) = Some false
  ∧ (WorkerState.alive (Master.dead_workers ex_dead0)
       <$> Master.workers_ ex_dead0 !! 1) = Some true
  ∧ returned_value (Master.assign_worker 0 0 ex_dead0) = Some 0.
Proof.
  split; [vm_compute; reflexivity|].
  split; [vm_compute; reflexivity|].
  split; vm_compute; reflexivity.
Qed.
(** ** The flush loop of the barrier *)

Lemma INV_trivial m :
  INV (length (Master.workers_ m)) (λ _ _, True) (λ _, True) m.
Proof. done. Qed.

Lemma flush_loop_never_returns fuel m :
  returned (Master.flush_loop fuel m) = false.
Proof.
  pose proof (flush_loop_inv (length (Master.workers_ m)) (λ _ _, True) (λ _, True)) as H.
  specialize (H ltac:(done) ltac:(done) fuel m (INV_trivial m)).
  unfold wp in H. by destruct (Master.flush_loop fuel m).
Qed.

Lemma filter_apply_snoc l e :
  is_apply e = false → List.filter is_apply (l ++ [e]) = List.filter is_apply l.
Proof. intros H. rewrite List.filter_app. simpl. rewrite H. apply app_nil_r. Qed.

Lemma barrier_sends_no_apply fuel m :
  wp (Master.barrier fuel) (λ _ m', sent_apply m' = sent_apply m)
     (λ m', sent_apply m' = sent_apply m) m.
Proof.
  set (T := λ l, List.filter is_apply l = sent_apply m).
  assert (∀ l e, is_apply e = false → T l → T (l ++ [e])) as HT.
  { intros l e He Hl. unfold T. by rewrite filter_apply_snoc. }
  assert (wp (Master.barrier fuel)
            (λ _, INV (length (Master.workers_ m)) (λ _ _, True) T)
            (INV (length (Master.workers_ m)) (λ _ _, True) T) m) as H.
  { apply barrier_inv; try done; intros; by apply HT. }
  unfold wp in *.
  destruct (Master.barrier fuel m); try done; by destruct H as (_ & _ & ?).
Qed.

Lemma barrier_never_returns fuel m :
  (Master.finished_ m
   < Z.of_nat (length (RunDescriptor.shards (Master.current_run_ m))))%Z →
  returned (Master.barrier fuel m) = false.
Proof.
  intros Hlt. unfold Master.barrier, Master.method_stats. munfold. simpl.
  set (key := Master.stats_key (Master.current_run_ m)).
  assert (∀ m1, Master.finished_ m1 = Master.finished_ m →
                Master.current_run_ m1 = Master.current_run_ m →
                returned (Master.barrier_loop fuel key m1) = false) as Hloop.
  { intros m1 Hf Hc. destruct fuel as [|fuel]; simpl; [done|].
    munfold. simpl. rewrite Hf, Hc.
    destruct (_ <? _)%Z eqn:E; [|apply Z.ltb_ge in E; lia].
    destruct (Master.barrier_work key m1) as [[] m2| | |]; try done.
    pose proof (flush_loop_never_returns fuel m2) as Hfl.
    by destruct (Master.flush_loop fuel m2). }
  destruct (Master.method_stats_ m !! key); simpl; by apply Hloop.
Qed.

(** C1, as the code has it.  The flush loop is [do ... while (1)]: whatever
    the workers answer and however long it runs, it does not return, so the
    barrier does not get past it, sends no WORKER_APPLY in any outcome, and
    does not return when a task of the epoch is not finished on entry. *)
Theorem C1_flush_loop_never_quiescent fuel m :
  returned (Master.flush_loop fuel m) = false
  ∧ wp (Master.barrier fuel) (λ _ m', sent_apply m' = sent_apply m)
       (λ m', sent_apply m' = sent_apply m) m
  ∧ ((Master.finished_ m
      < Z.of_nat (length (RunDescriptor.shards (Master.current_run_ m))))%Z →
     returned (Master.barrier fuel m) = false).
Proof.
  split; [apply flush_loop_never_returns|].
  split; [apply barrier_sends_no_apply | apply barrier_never_returns].
Qed.

(** An epoch of one task: the task is reaped, the first flush round is
    answered by both workers with no update done, and the master sends a
    second WORKER_FLUSH and waits; no WORKER_APPLY is sent. *)
Lemma C1_failing_run :
  Master.run 8 ex_run1 ex_flush
  = Master.Spin (state_of ex_flush (Master.run 8 ex_run1 ex_flush))
  ∧ Master.finished_ (state_of ex_flush (Master.run 8 ex_run1 ex_flush)) = 1%Z
  ∧ Master.flush_in (state_of ex_flush (Master.run 8 ex_run1 ex_flush)) = []
  ∧ sent_flush (state_of ex_flush (Master.run 8 ex_run1 ex_flush))
    = [Broadcast MTYPE_WORKER_FLUSH; Broadcast MTYPE_WORKER_FLUSH]
  ∧ sent_apply (state_of ex_flush (Master.run 8 ex_run1 ex_flush)) = [].
Proof.
  split; [vm_compute; reflexivity|].
  split; [vm_compute; reflexivity|].
  split; [vm_compute; reflexivity|].
  split; vm_compute; reflexivity.
Qed.
(** ** The steal round of the barrier *)






Lemma barrier_work_gate_closed key m w_id m1 :
  Master.reap_one_task (tick m) = Master.Ok w_id m1 →
  (0 ≤ w_id)%Z →
  Master.gate_open (reading m) (reading m1) = false →
  Master.barrier_work key m = Master.redispatch (tick (counted m1)).
Proof.
  intros Hr Hw Hg. unfold Master.barrier_work, Master.Now.
  unfold Master.bind at 1. fold (tick m). fold (reading m).
  unfold Master.bind at 1. rewrite Hr.
  apply Z.leb_le in Hw. rewrite Hw.
  unfold Master.bind at 1. unfold Master.modify. fold (counted m1).
  unfold Master.bind at 1. fold (tick (counted m1)).
  change (Master.clock (counted m1) (Master.ticks (counted m1))) with (reading m1).
  by rewrite Hg.
Qed.







(** ** Preconditions of a run *)

(** C9.  A descriptor that names a kernel the registry does not hold (or
    holds as a null entry), a method its kernel does not have, or no table,
    makes [run] stop at a failed CHECK, whatever the fuel; at that point the
    workers (their task maps and shard sets), the table registry and the
    trace of messages sent are those of the start, so no RUN_KERNEL was
    sent. *)
Theorem C9_run_precondition_abort fuel r m :
  invalid_descriptor r m →
  ∃ m', Master.run fuel r m = Master.Abort m'
        ∧ Master.workers_ m' = Master.workers_ m
        ∧ Master.trace m' = Master.trace m
        ∧ Master.tables_ m' = Master.tables_ m.
Proof.
  intros H. unfold Master.run. munfold. simpl.
  case_bool_decide; simpl; [|by eexists].
  unfold Master.kernel. munfold. simpl.
  destruct H as [H|[H|[(k & H & Hm)|H]]]; rewrite ?H; simpl.
  - by repeat (case_bool_decide; simpl; [|by eexists]); eexists.
  - by repeat (case_bool_decide; simpl; [|by eexists]); eexists.
  - rewrite ?Hm.
    by repeat (case_bool_decide; simpl; rewrite ?Hm; [|by eexists]); eexists.
  - destruct (Master.kernels_ m !! RunDescriptor.kernel r); simpl; by eexists.
Qed.

(** Kernel K of the example has no method [step]. *)
Lemma C9_run_precondition_abort_witness :
  ∃ m', Master.run 8 (RunDescriptor.mk "K" "step" (Some (mkTable 0 4)) [0]%Z)
          ex_master = Master.Abort m'
        ∧ Master.workers_ m' = Master.workers_ ex_master
        ∧ Master.trace m' = Master.trace ex_master
        ∧ Master.tables_ m' = Master.tables_ ex_master.
Proof.
  apply C9_run_precondition_abort.
  right; right; left. exists (KernelInfo.mk "K" {["run"]}).
  split; vm_compute; reflexivity.
Defined.
(** ** Task ids, task maps and worker state *)

(** X1.  [Taskid::operator<] is a strict total order, as a key of
    [std::map] and [std::set] has to be: no id is below itself, two ids are
    never below each other, the order is transitive, and two ids neither of
    which is below the other are the same id. *)
Theorem Taskid_lt_strict_total_order :
  (∀ a, Taskid.lt a a = false)
  ∧ (∀ a b, Taskid.lt a b = true → Taskid.lt b a = false)
  ∧ (∀ a b c, Taskid.lt a b = true → Taskid.lt b c = true → Taskid.lt a c = true)
  ∧ (∀ a b, Taskid.lt a b = false → Taskid.lt b a = false → a = b).
Proof.
  split; [apply Taskid_lt_irrefl|]. split; [|split].
  - intros a b Hab. destruct (Taskid.lt b a) eqn:Hba; [|done].
    pose proof (Taskid_lt_trans _ _ _ Hab Hba) as H.
    by rewrite Taskid_lt_irrefl in H.
  - apply Taskid_lt_trans.
  - intros a b. apply Taskid_trichotomy.
Qed.

Lemma with_status_partition m :
  length (TaskMap.with_status PENDING m) + length (TaskMap.with_status ACTIVE m)
  + length (TaskMap.with_status FINISHED m) = length m.
Proof.
  induction m as [|x m IH]; [done|].
  rewrite !with_status_cons. destruct (TaskState.status x); simpl; lia.
Qed.

(** X2.  The three counters of COUNT_TASKS split the task map: the
    numbers of pending, active and finished tasks of a worker add up to
    [num_assigned()], the size of the map. *)
Theorem count_tasks_partition w :
  WorkerState.num_pending w + WorkerState.num_active w + WorkerState.num_finished w
  = WorkerState.num_assigned w.
Proof. apply with_status_partition. Qed.

(** X3.  [idle_time] is 0, and the clock is not read, as long as the
    worker has a pending or an active task; with none it is the next clock
    reading minus the last ping time. *)
Theorem idle_time_of_busy_worker w m :
  Master.idle_time w m
  = if bool_decide (WorkerState.num_pending w + WorkerState.num_active w = 0)
    then Master.Ok (Master.clock m (Master.ticks m) - WorkerState.last_ping_time w)%Q
           (Master.set_ticks (S (Master.ticks m)) m)
    else Master.Ok 0%Q m.
Proof.
  unfold Master.idle_time.
  pose proof (with_status_partition (WorkerState.work w)) as H.
  unfold WorkerState.num_pending, WorkerState.num_active, WorkerState.num_finished,
    WorkerState.pending, WorkerState.active, WorkerState.finished, WorkerState.tasks_in in *.
  repeat case_bool_decide; try done; lia.
Qed.

Lemma with_status_modify_found st f k m s :
  TaskMap.find k m = Some s →
  length (TaskMap.with_status st (TaskMap.modify f k m))
  + (if bool_decide (TaskState.status s = st) then 1 else 0)
  = length (TaskMap.with_status st m)
    + (if bool_decide (TaskState.status (f s) = st) then 1 else 0).
Proof.
  induction m as [|x m IH]; cbn [TaskMap.modify TaskMap.find]; [done|].
  destruct (Taskid.equiv k (TaskState.id x)); rewrite !with_status_cons.
  - intros [= ->]. repeat case_bool_decide; cbn [length]; lia.
  - intros H. specialize (IH H). repeat case_bool_decide; cbn [length] in *; lia.
Qed.

Lemma length_modify f k m : length (TaskMap.modify f k m) = length m.
Proof.
  induction m as [|x m IH]; simpl; [done|].
  destruct (Taskid.equiv k (TaskState.id x)); simpl; by rewrite ?IH.
Qed.

(** X4.  [set_finished(id)] passes its two CHECKs only when [id] is in
    the map with an Active task.  Then that task, and no other, becomes
    Finished: one active task less, one finished task more, the pending
    ones, the size of the map and the shards as before. *)
Theorem set_finished_moves_one_task i w :
  match WorkerState.set_finished i w with
  | Some w' =>
      (∃ s, TaskMap.find i (WorkerState.work w) = Some s
            ∧ TaskState.status s = ACTIVE
            ∧ TaskMap.find i (WorkerState.work w')
              = Some (TaskState.set_status FINISHED s))
      ∧ WorkerState.num_active w = S (WorkerState.num_active w')
      ∧ WorkerState.num_finished w' = S (WorkerState.num_finished w)
      ∧ WorkerState.num_pending w' = WorkerState.num_pending w
      ∧ length (WorkerState.work w') = length (WorkerState.work w)
      ∧ WorkerState.shards w' = WorkerState.shards w
  | None =>
      ∀ s, TaskMap.find i (WorkerState.work w) = Some s →
           TaskState.status s ≠ ACTIVE
  end.
Proof.
  unfold WorkerState.set_finished.
  destruct (TaskMap.find i (WorkerState.work w)) as [s|] eqn:Hf; [|done].
  case_bool_decide as Hs; [|by intros ? [= <-]].
  unfold WorkerState.num_active, WorkerState.num_finished, WorkerState.num_pending,
    WorkerState.pending, WorkerState.active, WorkerState.finished, WorkerState.tasks_in.
  simpl.
  pose proof (with_status_modify_found ACTIVE (TaskState.set_status FINISHED) _ _ _ Hf) as Ha.
  pose proof (with_status_modify_found FINISHED (TaskState.set_status FINISHED) _ _ _ Hf) as Hfi.
  pose proof (with_status_modify_found PENDING (TaskState.set_status FINISHED) _ _ _ Hf) as Hp.
  simpl in *. rewrite Hs in *. simpl in *.
  split; [|split; [|split; [|split; [|split]]]]; try lia; try done.
  - exists s. split; [done|]. split; [done|].
    rewrite find_modify by done. rewrite decide_True by done. by rewrite Hf.
  - apply length_modify.
Qed.

Lemma remove_assign s m :
  TaskMap.find (TaskState.id s) m = None →
  TaskMap.remove (TaskState.id s) (TaskMap.assign s m) = m.
Proof.
  induction m as [|x m IH]; cbn [TaskMap.assign TaskMap.find TaskMap.remove].
  - by rewrite Taskid_equiv_refl.
  - destruct (Taskid.equiv (TaskState.id s) (TaskState.id x)) eqn:E; [done|].
    intros Hf. unfold Taskid.equiv in E.
    destruct (Taskid.lt (TaskState.id s) (TaskState.id x)) eqn:E1.
    { cbn [TaskMap.remove]. by rewrite Taskid_equiv_refl. }
    destruct (Taskid.lt (TaskState.id x) (TaskState.id s)) eqn:E2; [|done].
    cbn [TaskMap.remove]. unfold Taskid.equiv. rewrite E1, E2. simpl.
    by rewrite IH.
Qed.

Lemma length_assign_new s m :
  TaskMap.find (TaskState.id s) m = None →
  length (TaskMap.assign s m) = S (length m).
Proof.
  induction m as [|x m IH]; cbn [TaskMap.assign TaskMap.find]; [done|].
  destruct (Taskid.equiv (TaskState.id s) (TaskState.id x)) eqn:E; [done|].
  intros Hf. unfold Taskid.equiv in E.
  destruct (Taskid.lt (TaskState.id s) (TaskState.id x)) eqn:E1; [done|].
  destruct (Taskid.lt (TaskState.id x) (TaskState.id s)) eqn:E2; [|done].
  simpl. by rewrite IH.
Qed.

Lemma is_assigned_false i w :
  WorkerState.is_assigned i w = false ↔ TaskMap.find i (WorkerState.work w) = None.
Proof.
  unfold WorkerState.is_assigned. rewrite bool_decide_eq_false.
  rewrite <- eq_None_not_Some. done.
Qed.

(** X5.  For a task whose id the worker does not hold: after
    [assign_task] the id is assigned and found with that task, the other ids
    are found as before and the map has one entry more; [remove_task] then
    gives the worker back as it was; and [remove_task] without the
    assignment erases the end iterator, which is undefined. *)
Theorem assign_task_remove_task_round_trip s w :
  WorkerState.is_assigned (TaskState.id s) w = false →
  WorkerState.is_assigned (TaskState.id s) (WorkerState.assign_task s w) = true
  ∧ TaskMap.find (TaskState.id s) (WorkerState.work (WorkerState.assign_task s w))
    = Some s
  ∧ (∀ k, k ≠ TaskState.id s →
       TaskMap.find k (WorkerState.work (WorkerState.assign_task s w))
       = TaskMap.find k (WorkerState.work w))
  ∧ length (WorkerState.work (WorkerState.assign_task s w))
    = S (length (WorkerState.work w))
  ∧ WorkerState.remove_task s (WorkerState.assign_task s w) = Some w
  ∧ WorkerState.remove_task s w = None.
Proof.
  intros Hn. apply is_assigned_false in Hn.
  assert (TaskMap.find (TaskState.id s) (TaskMap.assign s (WorkerState.work w)) = Some s)
    as Hfind by (rewrite find_assign; by rewrite decide_True).
  split; [|split; [|split; [|split; [|split]]]].
  - unfold WorkerState.is_assigned, WorkerState.assign_task. simpl.
    rewrite Hfind. by apply bool_decide_eq_true_2.
  - exact Hfind.
  - intros k Hk. simpl. rewrite find_assign. by rewrite decide_False.
  - simpl. by apply length_assign_new.
  - unfold WorkerState.remove_task, WorkerState.assign_task, TaskMap.erase. simpl.
    rewrite Hfind, remove_assign by done. by destruct w.
  - unfold WorkerState.remove_task, TaskMap.erase. by rewrite Hn.
Qed.

(** A worker holding task (0, 1) is given task (0, 2) and loses it again. *)
Lemma assign_task_remove_task_round_trip_witness :
  WorkerState.remove_task (TaskState.new (Taskid.mk 0 2) 1)
    (WorkerState.assign_task (TaskState.new (Taskid.mk 0 2) 1)
       (WorkerState.assign_task (TaskState.new (Taskid.mk 0 1) 1)
          (WorkerState.new 0 0)))
  = Some (WorkerState.assign_task (TaskState.new (Taskid.mk 0 1) 1)
            (WorkerState.new 0 0)).
Proof.
  apply (assign_task_remove_task_round_trip (TaskState.new (Taskid.mk 0 2) 1)
           (WorkerState.assign_task (TaskState.new (Taskid.mk 0 1) 1)
              (WorkerState.new 0 0))).
  vm_compute. reflexivity.
Defined.

(** X6.  [assign_shard(shard, true)] is always defined, adds the shard
    index in every registered table that has it, leaves the tasks alone and
    changes nothing when repeated.  [assign_shard(shard, false)] after it
    is defined and takes all of them out, also those the worker served
    before; on its own it is undefined as soon as one of them is not among
    the worker's shards. *)
Theorem assign_shard_then_unassign tables shard w :
  ∃ w1 w2,
    WorkerState.assign_shard tables shard true w = Some w1
    ∧ WorkerState.shards w1 = targets tables shard ∪ WorkerState.shards w
    ∧ WorkerState.work w1 = WorkerState.work w
    ∧ WorkerState.assign_shard tables shard true w1 = Some w1
    ∧ WorkerState.assign_shard tables shard false w1 = Some w2
    ∧ WorkerState.shards w2 = WorkerState.shards w ∖ targets tables shard
    ∧ WorkerState.work w2 = WorkerState.work w
    ∧ (WorkerState.assign_shard tables shard false w = None
       ↔ targets tables shard ⊈ WorkerState.shards w).
Proof.
  eexists _, _. split; [apply assign_shard_insert|]. simpl.
  split; [done|]. split; [done|].
  split.
  { rewrite assign_shard_insert. f_equal. destruct w; simpl.
    unfold WorkerState.set_shards; simpl. f_equal. set_solver. }
  split.
  { rewrite assign_shard_erase. simpl. rewrite decide_True by set_solver.
    reflexivity. }
  simpl. split; [set_solver|]. split; [done|].
  rewrite assign_shard_erase. case_decide; split; try done.
Qed.
(** ** Assignment of shards and tasks *)

Lemma elem_of_sorted_shards tid s : tid ∈ sorted_shards s ↔ tid ∈ s.
Proof.
  unfold sorted_shards. rewrite merge_sort_Permutation. apply elem_of_elements.
Qed.

Lemma length_sorted_shards s : length (sorted_shards s) = size s.
Proof. unfold sorted_shards. by rewrite merge_sort_Permutation. Qed.

Lemma length_concat_imap {A B} (f : nat → A → list B) (g : A → nat) l :
  (∀ i x, length (f i x) = g x) →
  length (concat (imap f l)) = list_sum (g <$> l).
Proof.
  intros Hf. revert f Hf. induction l as [|x l IH]; intros f Hf; simpl; [done|].
  rewrite length_app, Hf. f_equal. apply IH. intros i y. apply Hf.
Qed.

(** X7.  [send_table_assignments] changes nothing in the master and sends
    one synchronous broadcast whose entries are the shards the workers have:
    an entry names worker index [i], table [t] and shard [s] exactly when
    (t, s) is among the shards of [workers_[i]], and there are as many
    entries as shards held. *)
Theorem send_table_assignments_lists_ownership m :
  ∃ req,
    Master.send_table_assignments m
    = Master.Ok tt
        (Master.set_trace
           (Master.trace m ++ [SyncBroadcast (MTYPE_SHARD_ASSIGNMENT req)]) m)
    ∧ (∀ a, a ∈ req ↔
         ∃ i w, Master.workers_ m !! i = Some w
                ∧ sa_new_worker a = Z.of_nat i
                ∧ Taskid.mk (sa_table a) (sa_shard a) ∈ WorkerState.shards w)
    ∧ length req
      = list_sum ((λ w, size (WorkerState.shards w)) <$> Master.workers_ m).
Proof.
  exists (concat (imap (λ i w,
                          (λ j, mkShardAssignment (Z.of_nat i) (Taskid.table j)
                                  (Taskid.shard j))
                          <$> sorted_shards (WorkerState.shards w))
                    (Master.workers_ m))).
  split; [reflexivity|]. split.
  - intros a. rewrite list_elem_of_In, in_concat. split.
    + intros (l & Hl & Ha). apply list_elem_of_In in Hl, Ha.
      apply elem_of_lookup_imap_1 in Hl as (i & w & -> & Hw).
      apply list_elem_of_fmap in Ha as (tid & -> & Htid).
      apply elem_of_sorted_shards in Htid. exists i, w. simpl.
      by destruct tid.
    + intros (i & w & Hw & Hi & Ht).
      eexists. split.
      * apply list_elem_of_In. eapply elem_of_lookup_imap_2. exact Hw.
      * apply list_elem_of_In. apply list_elem_of_fmap.
        exists (Taskid.mk (sa_table a) (sa_shard a)). split.
        -- destruct a; simpl in *. by rewrite Hi.
        -- by apply elem_of_sorted_shards.
  - apply length_concat_imap. intros i w.
    by rewrite length_fmap, length_sorted_shards.
Qed.

Lemma elem_of_sorted_tables tables t tb :
  (t, tb) ∈ sorted_tables tables ↔ tables !! t = Some tb.
Proof.
  unfold sorted_tables. rewrite merge_sort_Permutation.
  apply elem_of_map_to_list.
Qed.

Lemma owned_by_one_intro ws tid :
  shards_disjoint ws → owned ws tid → owned_by_one ws tid.
Proof.
  intros Hd (i & w & Hi & Ht). exists i, w. split; [done|]. split; [done|].
  intros j w' Hj Hj'. by eapply (Hd j i w' w tid).
Qed.

(** The worker [assign_worker] returns, in a state that has an alive
    worker: its index, its state before, its state after. *)
Lemma assign_worker_returns table shard m :
  has_alive m →
  ∃ i w w',
    Master.assign_worker table shard m = Master.Ok i (placed i w' m)
    ∧ Master.workers_ m !! i = Some w
    ∧ WorkerState.id w' = WorkerState.id w
    ∧ WorkerState.work w'
      = TaskMap.assign (TaskState.new (Taskid.mk table shard) 1)
          (WorkerState.work w)
    ∧ (WorkerState.shards w' = WorkerState.shards w
         ∧ Taskid.mk table shard ∈ WorkerState.shards w
       ∨ WorkerState.shards w'
         = targets (Master.tables_ m) shard ∪ WorkerState.shards w
         ∧ unowned (Taskid.mk table shard) (Master.workers_ m)).
Proof.
  intros (k & wk & Hk & Halive).
  unfold Master.assign_worker, Master.worker_for_shard. munfold. simpl.
  destruct (list_find _ _) as [[i w]|] eqn:Hf; simpl.
  - apply list_find_Some in Hf as (Hi & Ho & _). rewrite Hi. simpl.
    exists i, w, (WorkerState.assign_task
                    (TaskState.new (Taskid.mk table shard) 1) w).
    split; [done|]. split; [done|]. split; [done|]. split; [done|]. by left.
  - apply list_find_None in Hf.
    pose proof (least_loaded_from_spec (Master.dead_workers m) (Master.workers_ m)) as Hl.
    destruct (Master.least_loaded_from _ _ _ _) as [[i best]|]; simpl in *.
    + destruct Hl as (Hi & Ha & _). rewrite Ha. simpl.
      rewrite assign_shard_insert. simpl.
      eexists i, best, _. split; [reflexivity|]. split; [done|]. split; [done|].
      split; [done|]. right. split; [done|]. intros w Hw.
      by apply (proj1 (Forall_forall _ _) Hf).
    + apply list_elem_of_lookup_2 in Hk. apply Hl in Hk. congruence.
Qed.

Lemma owned_placed_mono ws i w w' tid :
  ws !! i = Some w → WorkerState.shards w ⊆ WorkerState.shards w' →
  owned ws tid → owned (<[i := w']> ws) tid.
Proof.
  intros Hi Hsub (j & wj & Hj & Ht). destruct (decide (j = i)) as [->|Hne].
  - exists i, w'. split.
    + apply list_lookup_insert_eq. by eapply lookup_lt_Some.
    + simplify_eq. by apply Hsub.
  - exists j, wj. by rewrite list_lookup_insert_ne.
Qed.

Lemma ownership_ok_placed tables table shard m i w w' :
  ownership_ok tables m →
  Master.workers_ m !! i = Some w →
  WorkerState.id w' = WorkerState.id w →
  (WorkerState.shards w' = WorkerState.shards w
   ∨ (Taskid.mk table shard ∈ targets tables shard
      ∧ WorkerState.shards w' = targets tables shard ∪ WorkerState.shards w
      ∧ unowned (Taskid.mk table shard) (Master.workers_ m))) →
  ownership_ok tables (placed i w' m).
Proof.
  intros (Ht & (k & wk & Hk & Hka) & Hd & Hc) Hi Hid Hsh.
  pose proof (lookup_lt_Some _ _ _ Hi) as Hlt.
  assert (∀ j wj, <[i := w']> (Master.workers_ m) !! j = Some wj →
                  (j = i ∧ wj = w') ∨ (j ≠ i ∧ Master.workers_ m !! j = Some wj))
    as Hlook.
  { intros j wj Hj. destruct (decide (j = i)) as [->|Hne].
    - rewrite list_lookup_insert_eq in Hj by done. left. by simplify_eq.
    - rewrite list_lookup_insert_ne in Hj by done. by right. }
  split; [done|]. split; [|split].
  - destruct (decide (k = i)) as [->|Hne].
    + exists i, w'. split; [by apply list_lookup_insert_eq|].
      simplify_eq. unfold WorkerState.alive in *. simpl. by rewrite Hid.
    + exists k, wk. split; [by simpl; rewrite list_lookup_insert_ne|done].
  - (* disjoint *)
    assert (∀ j wj tid, j ≠ i → Master.workers_ m !! j = Some wj →
                        tid ∈ WorkerState.shards wj →
                        tid ∈ WorkerState.shards w' → False) as Hnew.
    { intros j wj tid Hne Hj Htj Htw. destruct Hsh as [Heq | (Hin & Heq & Hun)].
      - rewrite Heq in Htw. by apply Hne, (Hd j i wj w tid).
      - rewrite Heq in Htw. apply elem_of_union in Htw as [Htw|Htw].
        + apply elem_of_targets in Htw as Hs. destruct Hs as [Hs _].
          pose proof (Hc j wj tid Hj Htj) as Hsub. rewrite Hs in Hsub.
          apply (Hun wj); [by eapply list_elem_of_lookup_2|]. by apply Hsub.
        + by apply Hne, (Hd j i wj w tid). }
    intros a b wa wb tid Ha Hb Hta Htb. simpl in Ha, Hb.
    apply Hlook in Ha as [[-> ->] | [Hna Ha]];
      apply Hlook in Hb as [[-> ->] | [Hnb Hb]]; try done.
    + exfalso. by eapply (Hnew b wb tid).
    + exfalso. by eapply (Hnew a wa tid).
    + by eapply Hd.
  - (* closed *)
    intros a wa tid Ha Hta. simpl in Ha.
    apply Hlook in Ha as [[-> ->] | [Hna Ha]]; [|by eapply Hc].
    destruct Hsh as [Heq | (Hin & Heq & Hun)]; rewrite Heq in *.
    + by eapply Hc.
    + apply elem_of_union in Hta as [Hta|Hta].
      * apply elem_of_targets in Hta as Hs. destruct Hs as [-> _]. set_solver.
      * pose proof (Hc i w tid Hi Hta). set_solver.
Qed.

(** One call of [assign_worker] for a shard its table has. *)
Lemma assign_worker_ownership tables table shard m :
  ownership_ok tables m →
  Taskid.mk table shard ∈ targets tables shard →
  ∃ i m',
    Master.assign_worker table shard m = Master.Ok i m'
    ∧ ownership_ok tables m'
    ∧ Master.shards_assigned_ m' = Master.shards_assigned_ m
    ∧ owned (Master.workers_ m') (Taskid.mk table shard)
    ∧ ∀ tid, owned (Master.workers_ m) tid → owned (Master.workers_ m') tid.
Proof.
  intros Hok Hin. pose proof Hok as (Ht & Hal & _). subst tables.
  destruct (assign_worker_returns table shard m Hal)
    as (i & w & w' & Hrun & Hi & Hid & _ & Hsh).
  pose proof (lookup_lt_Some _ _ _ Hi) as Hlt.
  exists i, (placed i w' m). split; [done|]. split; [|split; [done|split]].
  - eapply ownership_ok_placed; try done.
    destruct Hsh as [[? _] | [? ?]]; [by left | by right].
  - exists i, w'. split; [by apply list_lookup_insert_eq|].
    destruct Hsh as [[-> ?] | [-> _]]; [done|]. set_solver.
  - intros tid Ho. eapply owned_placed_mono; [done| |done].
    destruct Hsh as [[-> _] | [-> _]]; set_solver.
Qed.

Lemma assign_shards_ownership tables table tb (l : list Z) m :
  tables !! table = Some tb →
  (∀ j, j ∈ l → (j < numShards tb)%Z) →
  ownership_ok tables m →
  ∃ m',
    Master.for_each l (λ j, Master.bind (Master.assign_worker table j)
                              (λ _, Master.ret tt)) m = Master.Ok tt m'
    ∧ ownership_ok tables m'
    ∧ Master.shards_assigned_ m' = Master.shards_assigned_ m
    ∧ (∀ j, j ∈ l → owned (Master.workers_ m') (Taskid.mk table j))
    ∧ ∀ tid, owned (Master.workers_ m) tid → owned (Master.workers_ m') tid.
Proof.
  intros Htb. revert m. induction l as [|j l IH]; intros m Hl Hok; simpl.
  - exists m. split; [done|]. split; [done|]. split; [done|].
    split; [|done]. intros j Hj. by apply elem_of_nil in Hj.
  - destruct (assign_worker_ownership tables table j m Hok)
      as (i & m1 & Hrun & Hok1 & Hsa1 & Hown1 & Hmono1).
    { apply elem_of_targets. split; [done|]. exists tb. split; [done|].
      apply Hl. by left. }
    destruct (IH m1) as (m' & Hrun' & Hok' & Hsa' & Hown' & Hmono'); [|done|].
    { intros j' Hj'. apply Hl. by right. }
    exists m'. unfold Master.bind at 1. unfold Master.bind at 1. rewrite Hrun.
    unfold Master.ret at 1. split; [done|]. split; [done|].
    split; [congruence|]. split; [|by auto].
    intros j' Hj'. apply elem_of_cons in Hj' as [->|Hj']; by auto.
Qed.

Lemma assign_tables_loop_ownership tables (l : list (Z * Table)) m :
  (∀ it, it ∈ l → tables !! it.1 = Some it.2) →
  ownership_ok tables m →
  ∃ m',
    Master.for_each l
      (λ it, Master.for_each (seqZ 0 (numShards it.2))
               (λ j, Master.bind (Master.assign_worker it.1 j)
                       (λ _, Master.ret tt))) m = Master.Ok tt m'
    ∧ ownership_ok tables m'
    ∧ Master.shards_assigned_ m' = Master.shards_assigned_ m
    ∧ (∀ it j, it ∈ l → (0 ≤ j < numShards it.2)%Z →
               owned (Master.workers_ m') (Taskid.mk it.1 j))
    ∧ ∀ tid, owned (Master.workers_ m) tid → owned (Master.workers_ m') tid.
Proof.
  revert m. induction l as [|it l IH]; intros m Hl Hok; simpl.
  - exists m. split; [done|]. split; [done|]. split; [done|].
    split; [|done]. intros it j Hit. by apply elem_of_nil in Hit.
  - destruct (assign_shards_ownership tables it.1 it.2 (seqZ 0 (numShards it.2)) m)
      as (m1 & Hrun & Hok1 & Hsa1 & Hown1 & Hmono1); [|  |done|].
    { apply Hl. by left. }
    { intros j Hj. apply elem_of_seqZ in Hj. lia. }
    destruct (IH m1) as (m' & Hrun' & Hok' & Hsa' & Hown' & Hmono'); [|done|].
    { intros it' Hit'. apply Hl. by right. }
    exists m'. unfold Master.bind at 1. rewrite Hrun.
    split; [done|]. split; [done|]. split; [congruence|]. split; [|by auto].
    intros it' j Hit' Hj. apply elem_of_cons in Hit' as [->|Hit']; [|by auto].
    apply Hmono', Hown1. apply elem_of_seqZ. lia.
Qed.

(** [assign_tables] returns and keeps the ownership condition. *)
Lemma assign_tables_keeps_ownership tables m :
  ownership_ok tables m →
  ∃ m', Master.assign_tables m = Master.Ok tt m' ∧ ownership_ok tables m'.
Proof.
  intros Hok. pose proof Hok as (Ht & _).
  unfold Master.assign_tables.
  unfold Master.bind at 1. unfold Master.modify at 1.
  unfold Master.bind at 1. unfold Master.gets at 1. simpl. rewrite Ht.
  destruct (assign_tables_loop_ownership tables (sorted_tables tables)
              (Master.set_shards_assigned_ true m))
    as (m' & Hrun & Hok' & _).
  { intros [t tb] Hit. by apply elem_of_sorted_tables. }
  { done. }
  by exists m'.
Qed.

(** X8.  Take a master in which some worker is alive, no shard is among
    the shards of two workers, and a worker that has shard [s] of one table
    has shard [s] of every registered table with more than [s] shards (so
    in a new master, where no worker has a shard).  Then [assign_tables]
    returns, sets [shards_assigned_], and leaves every shard of every
    registered table with exactly one worker; the three starting conditions
    hold again, and no worker has lost a shard. *)
Theorem assign_tables_unique_ownership tables m :
  ownership_ok tables m →
  ∃ m',
    Master.assign_tables m = Master.Ok tt m'
    ∧ Master.shards_assigned_ m' = true
    ∧ ownership_ok tables m'
    ∧ (∀ t tb s, tables !! t = Some tb → (0 ≤ s < numShards tb)%Z →
                 owned_by_one (Master.workers_ m') (Taskid.mk t s))
    ∧ ∀ tid, owned (Master.workers_ m) tid → owned (Master.workers_ m') tid.
Proof.
  intros Hok. pose proof Hok as (Ht & _).
  unfold Master.assign_tables.
  unfold Master.bind at 1. unfold Master.modify at 1.
  unfold Master.bind at 1. unfold Master.gets at 1. simpl. rewrite Ht.
  destruct (assign_tables_loop_ownership tables (sorted_tables tables)
              (Master.set_shards_assigned_ true m))
    as (m' & Hrun & Hok' & Hsa & Hown & Hmono).
  { intros [t tb] Hit. by apply elem_of_sorted_tables. }
  { done. }
  exists m'. split; [done|]. split; [done|]. split; [done|]. split; [|done].
  intros t tb s Htb Hs. apply owned_by_one_intro; [by destruct Hok' as (_ & _ & ? & _)|].
  apply (Hown (t, tb)); [|done]. by apply elem_of_sorted_tables.
Qed.

Lemma ownership_ok_new n tables kernels dead ws sl clk ds fs i :
  i < n → Z.of_nat i ∉ dead →
  ownership_ok tables (Master.new n tables kernels dead ws sl clk ds fs).
Proof.
  intros Hi Hdead.
  assert (∀ j w, Master.workers_ (Master.new n tables kernels dead ws sl clk ds fs) !! j
                 = Some w → w = WorkerState.new (Z.of_nat j) (clk j)) as Hw.
  { intros j w. simpl. rewrite list_lookup_imap.
    destruct (replicate n () !! j); simpl; by intros [= <-]. }
  split; [done|]. split; [|split].
  - exists i, (WorkerState.new (Z.of_nat i) (clk i)). split.
    + simpl. rewrite list_lookup_imap, lookup_replicate_2 by done. done.
    + by apply bool_decide_eq_true_2.
  - intros a b wa wb tid Ha _ Hta. apply Hw in Ha as ->. set_solver.
  - intros a wa tid Ha Hta. apply Hw in Ha as ->. set_solver.
Qed.

(** The new master of the example: shard 3 of table 1 gets one owner. *)
Lemma assign_tables_unique_ownership_witness :
  ∃ m', Master.assign_tables ex_master = Master.Ok tt m'
        ∧ owned_by_one (Master.workers_ m') (Taskid.mk 1 3).
Proof.
  destruct (assign_tables_unique_ownership ex_tables ex_master)
    as (m' & Hrun & _ & _ & Hone & _).
  { apply (ownership_ok_new 2 ex_tables ex_kernels ∅ true (1 # 100) ex_clock [] [] 0);
      [lia | set_solver]. }
  exists m'. split; [done|].
  apply (Hone 1%Z (mkTable 1 4) 3%Z); [vm_compute; reflexivity | simpl; lia].
Defined.

Lemma assign_task_step tables table shard (D : Z → Prop) m :
  ownership_ok tables m →
  Taskid.mk table shard ∈ targets tables shard →
  tasks_fresh table D (Master.workers_ m) →
  ∃ i m',
    Master.assign_worker table shard m = Master.Ok i m'
    ∧ ownership_ok tables m'
    ∧ tasks_fresh table (λ s, D s ∨ s = shard) (Master.workers_ m')
    ∧ task_held table (Master.workers_ m') shard
    ∧ (∀ s, task_held table (Master.workers_ m) s →
            task_held table (Master.workers_ m') s)
    ∧ length (Master.workers_ m') = length (Master.workers_ m).
Proof.
  intros Hok Hin Hfresh. pose proof Hok as (Ht & Hal & _). subst tables.
  destruct (assign_worker_returns table shard m Hal)
    as (i & w & w' & Hrun & Hi & Hid & Hwork & Hsh).
  pose proof (lookup_lt_Some _ _ _ Hi) as Hlt.
  assert (WorkerState.shards w ⊆ WorkerState.shards w') as Hsub.
  { destruct Hsh as [[-> _] | [-> _]]; set_solver. }
  assert (Taskid.mk table shard ∈ WorkerState.shards w') as Hserves.
  { destruct Hsh as [[-> ?] | [-> _]]; [done|]. set_solver. }
  exists i, (placed i w' m). split; [done|].
  split; [|split; [|split; [|split]]].
  - eapply ownership_ok_placed; try done.
    destruct Hsh as [[? _] | [? ?]]; [by left | by right].
  - intros j wj Hj. simpl in Hj.
    destruct (decide (j = i)) as [->|Hne].
    + rewrite list_lookup_insert_eq in Hj by done. injection Hj as <-.
      destruct (Hfresh i w Hi) as [Ho Hall]. rewrite Hwork.
      split; [by apply ordered_assign|]. intros t Hin'.
      apply elem_of_assign in Hin' as [-> | Hin'].
      * split; [|done]. exists shard. split; [by right | done].
      * destruct (Hall t Hin') as [(s & Hs & ->) Hsv].
        split; [|by apply Hsub]. exists s. split; [by left | done].
    + rewrite list_lookup_insert_ne in Hj by done.
      destruct (Hfresh j wj Hj) as [Ho Hall]. split; [done|].
      intros t Hin'. destruct (Hall t Hin') as [(s & Hs & ->) Hsv].
      split; [|done]. exists s. split; [by left | done].
  - exists i, w'. split; [by apply list_lookup_insert_eq|].
    rewrite Hwork, find_assign. by rewrite decide_True.
  - intros s (j & wj & Hj & Hfind). destruct (decide (j = i)) as [->|Hne].
    + exists i, w'. split; [by apply list_lookup_insert_eq|].
      simplify_eq. rewrite Hwork, find_assign. simpl.
      case_decide as E; [|done]. by injection E as ->.
    + exists j, wj. split; [|done]. simpl. by rewrite list_lookup_insert_ne.
  - simpl. by rewrite length_insert.
Qed.

Lemma assign_tasks_loop tables r tb (l : list Z) (D : Z → Prop) m :
  RunDescriptor.table r = Some tb →
  (∀ s, s ∈ l → Taskid.mk (table_id tb) s ∈ targets tables s) →
  ownership_ok tables m →
  tasks_fresh (table_id tb) D (Master.workers_ m) →
  ∃ m',
    Master.for_each l
      (λ s, Master.bind (Master.deref (RunDescriptor.table r))
              (λ tb, Master.bind (Master.assign_worker (table_id tb) s)
                       (λ _, Master.ret tt))) m = Master.Ok tt m'
    ∧ ownership_ok tables m'
    ∧ tasks_fresh (table_id tb) (λ s, D s ∨ s ∈ l) (Master.workers_ m')
    ∧ (∀ s, s ∈ l → task_held (table_id tb) (Master.workers_ m') s)
    ∧ (∀ s, task_held (table_id tb) (Master.workers_ m) s →
            task_held (table_id tb) (Master.workers_ m') s)
    ∧ length (Master.workers_ m') = length (Master.workers_ m).
Proof.
  intros Htb. revert D m. induction l as [|s l IH]; intros D m Hl Hok Hfresh; simpl.
  - exists m. split; [done|]. split; [done|]. split.
    { intros i w Hi. destruct (Hfresh i w Hi) as [Ho Hall]. split; [done|].
      intros t Hin. destruct (Hall t Hin) as [(s & Hs & ->) ?].
      split; [|done]. exists s. split; [by left | done]. }
    split; [|done]. intros s Hs. by apply elem_of_nil in Hs.
  - destruct (assign_task_step tables (table_id tb) s D m Hok)
      as (i & m1 & Hrun & Hok1 & Hfresh1 & Hheld1 & Hmono1 & Hlen1);
      [apply Hl; by left | done |].
    destruct (IH (λ s', D s' ∨ s' = s) m1)
      as (m' & Hrun' & Hok' & Hfresh' & Hheld' & Hmono' & Hlen'); [|done|done|].
    { intros s' Hs'. apply Hl. by right. }
    exists m'. split.
    { erewrite bind_Ok; [exact Hrun'|]. rewrite Htb.
      erewrite bind_Ok; [|reflexivity]. by erewrite bind_Ok. }
    split; [done|]. split; [|split; [|split]].
    + intros j wj Hj. destruct (Hfresh' j wj Hj) as [Ho Hall]. split; [done|].
      intros t Hin. destruct (Hall t Hin) as [(s' & Hs' & ->) ?].
      split; [|done]. exists s'. split; [|done].
      destruct Hs' as [[?| ->]|?]; [by left | right; by left | right; by right].
    + intros s' Hs'. apply elem_of_cons in Hs' as [->|Hs']; by auto.
    + by auto.
    + congruence.
Qed.

Lemma ownership_ok_clear tables m :
  ownership_ok tables m →
  ownership_ok tables
    (Master.set_workers_ (WorkerState.clear_tasks <$> Master.workers_ m) m).
Proof.
  intros (Ht & (k & wk & Hk & Ha) & Hd & Hc).
  assert (∀ j wj, (WorkerState.clear_tasks <$> Master.workers_ m) !! j = Some wj →
                  ∃ w, Master.workers_ m !! j = Some w
                       ∧ WorkerState.shards wj = WorkerState.shards w) as Hlook.
  { intros j wj Hj. apply list_lookup_fmap_Some in Hj as (w & -> & Hw).
    by exists w. }
  split; [done|]. split; [|split].
  - exists k, (WorkerState.clear_tasks wk). split; [|done].
    simpl. by rewrite list_lookup_fmap, Hk.
  - intros a b wa wb tid Ha' Hb' Hta Htb. simpl in *.
    apply Hlook in Ha' as (wa0 & Ha' & Ea). apply Hlook in Hb' as (wb0 & Hb' & Eb).
    rewrite Ea in Hta. rewrite Eb in Htb. by eapply Hd.
  - intros a wa tid Ha' Hta. simpl in *.
    apply Hlook in Ha' as (wa0 & Ha' & Ea). rewrite Ea in *. by eapply Hc.
Qed.

(** X9.  Take a master in which some worker is alive, no shard is among
    the shards of two workers, and a worker that has shard [s] of one table
    has shard [s] of every registered table with more than [s] shards.  For
    a descriptor whose table is registered and a list of shards below its
    [numShards], [assign_tasks] returns and the task maps hold exactly the
    tasks of the list: every task held is Pending, of size 1, not stolen,
    for a shard of the list, with a worker that has that shard; every shard
    of the list has its task with exactly one worker; the three starting
    conditions hold again, the maps are well formed and every worker
    serves, in every table, the shard index of each of its pending tasks. *)
Theorem assign_tasks_places_fresh_tasks tables r tb tb' shards m :
  ownership_ok tables m →
  RunDescriptor.table r = Some tb →
  tables !! table_id tb = Some tb' →
  (∀ s, s ∈ shards → (s < numShards tb')%Z) →
  ∃ m',
    Master.assign_tasks r shards m = Master.Ok tt m'
    ∧ ownership_ok tables m'
    ∧ length (Master.workers_ m') = length (Master.workers_ m)
    ∧ (∀ i w t, Master.workers_ m' !! i = Some w → t ∈ WorkerState.work w →
         (∃ s, s ∈ shards
               ∧ t = TaskState.mk (Taskid.mk (table_id tb) s) PENDING 1 false)
         ∧ TaskState.id t ∈ WorkerState.shards w)
    ∧ (∀ s, s ∈ shards →
         ∃ i w, Master.workers_ m' !! i = Some w
           ∧ TaskMap.find (Taskid.mk (table_id tb) s) (WorkerState.work w)
             = Some (TaskState.mk (Taskid.mk (table_id tb) s) PENDING 1 false)
           ∧ ∀ j w', Master.workers_ m' !! j = Some w' →
               WorkerState.is_assigned (Taskid.mk (table_id tb) s) w' = true →
               j = i)
    ∧ workers_ordered (Master.workers_ m') = true
    ∧ serves_pending m'.
Proof.
  intros Hok Htb Htb' Hsh.
  unfold Master.assign_tasks.
  unfold Master.bind at 1. unfold Master.gets at 1.
  unfold Master.bind at 1. unfold Master.modify at 1.
  destruct (assign_tasks_loop tables r tb shards (λ _, False)
              (Master.set_workers_ (WorkerState.clear_tasks <$> Master.workers_ m) m))
    as (m' & Hrun & Hok' & Hfresh & Hheld & _ & Hlen); try done.
  { intros s Hs. apply elem_of_targets. split; [done|]. exists tb'.
    split; [done|]. by apply Hsh. }
  { by apply ownership_ok_clear. }
  { intros i w Hi. simpl in Hi.
    apply list_lookup_fmap_Some in Hi as (w0 & -> & _). split; [done|].
    intros t Ht. by apply elem_of_nil in Ht. }
  exists m'. split; [done|]. split; [done|].
  split; [by rewrite Hlen; simpl; rewrite length_fmap|].
  assert (∀ i w t, Master.workers_ m' !! i = Some w → t ∈ WorkerState.work w →
            (∃ s, s ∈ shards
                  ∧ t = TaskState.mk (Taskid.mk (table_id tb) s) PENDING 1 false)
            ∧ TaskState.id t ∈ WorkerState.shards w) as Hall.
  { intros i w t Hi Ht. destruct (Hfresh i w Hi) as [_ Hall].
    destruct (Hall t Ht) as [(s & [[]|Hs] & ->) Hsv]. split; [|done]. by exists s. }
  split; [done|]. split; [|split].
  - intros s Hs. destruct (Hheld s Hs) as (i & w & Hi & Hfind).
    exists i, w. split; [done|]. split; [done|].
    intros j w' Hj Has. unfold WorkerState.is_assigned in Has.
    apply bool_decide_eq_true_1 in Has as [t Ht].
    apply find_Some in Ht as [Hin Hid].
    apply find_Some in Hfind as [Hin0 Hid0].
    destruct (Hall j w' t Hj Hin) as [_ Hsv].
    destruct (Hall i w _ Hi Hin0) as [_ Hsv0].
    destruct Hok' as (_ & _ & Hd & _).
    eapply (Hd j i w' w (Taskid.mk (table_id tb) s)); try done.
    by rewrite <- Hid.
  - unfold workers_ordered. apply forallb_forall. intros w Hw.
    apply list_elem_of_In, list_elem_of_lookup in Hw as [i Hi].
    by destruct (Hfresh i w Hi).
  - intros i w t Hi Ht. apply elem_of_with_status in Ht as [Ht _].
    destruct (Hall i w t Hi Ht) as [_ Hsv].
    destruct Hok' as (Htab & _ & _ & Hc). rewrite Htab. by eapply Hc.
Qed.

(** The example: tasks for shards 1 and 3 of table 0 after the tables are
    assigned. *)
Lemma assign_tasks_places_fresh_tasks_witness :
  ∃ m', Master.assign_tasks ex_run13 [1; 3]%Z
          (state_of ex_master (Master.assign_tables ex_master))
        = Master.Ok tt m'
        ∧ workers_ordered (Master.workers_ m') = true
        ∧ serves_pending m'.
Proof.
  destruct (assign_tables_keeps_ownership ex_tables ex_master)
    as (m1 & Hrun1 & Hok1).
  { apply (ownership_ok_new 2 ex_tables ex_kernels ∅ true (1 # 100) ex_clock [] [] 0);
      [lia | set_solver]. }
  rewrite Hrun1. simpl.
  destruct (assign_tasks_places_fresh_tasks ex_tables ex_run13 (mkTable 0 4)
              (mkTable 0 4) [1; 3]%Z m1 Hok1)
    as (m' & Hrun & _ & _ & _ & _ & Ho & Hs).
  - reflexivity.
  - vm_compute. reflexivity.
  - intros s Hs. simpl. set_solver by lia.
  - by exists m'.
Defined.
(** ** Dispatch and reaping *)

Lemma get_next_effect i r msg m w j best tb :
  Master.workers_ m !! i = Some w →
  max_element TaskState.WeightCompare (WorkerState.pending w) = Some (j, best) →
  RunDescriptor.table r = Some tb →
  ∃ w' m',
    Master.get_next i r msg m
    = Master.Ok (true, mkKernelRequest (RunDescriptor.kernel r)
                         (RunDescriptor.method r) (table_id tb)
                         (Taskid.shard (TaskState.id best))) m'
    ∧ Master.workers_ m' = <[i := w']> (Master.workers_ m)
    ∧ Master.trace m' = Master.trace m
    ∧ WorkerState.work w'
      = TaskMap.modify (TaskState.set_status ACTIVE) (TaskState.id best)
          (WorkerState.work w)
    ∧ WorkerState.id w' = WorkerState.id w
    ∧ WorkerState.shards w' = WorkerState.shards w.
Proof.
  intros Hw Hb Ht. unfold Master.get_next, WorkerState.best_pending.
  munfold. simpl. rewrite Hw. simpl. rewrite Hb. simpl. rewrite Ht. simpl.
  unfold Master.Now. simpl.
  pose proof (lookup_lt_Some _ _ _ Hw) as Hlt.
  rewrite list_lookup_insert_eq by done. simpl.
  eexists _, _. split; [reflexivity|]. simpl.
  split; [by rewrite list_insert_insert_eq|]. done.
Qed.

Lemma dispatch_loop_sends r tb k len nd req m :
  RunDescriptor.table r = Some tb →
  k + len = length (Master.workers_ m) →
  ∃ m',
    Master.dispatch_loop r (seq k len) nd req m
    = Master.Ok (nd + Z.of_nat (length (dispatches r tb (drop k (Master.workers_ m)))))%Z m'
    ∧ Master.trace m'
      = Master.trace m ++ dispatches r tb (drop k (Master.workers_ m))
    ∧ length (Master.workers_ m') = length (Master.workers_ m)
    ∧ (∀ j w, Master.workers_ m !! j = Some w →
         ∃ w', Master.workers_ m' !! j = Some w'
               ∧ WorkerState.id w' = WorkerState.id w
               ∧ WorkerState.shards w' = WorkerState.shards w
               ∧ (k ≤ j → dispatchable w = true →
                  WorkerState.num_active w' = 1)
               ∧ (j < k ∨ dispatchable w = false → w' = w)).
Proof.
  intros Ht. revert k nd req m. induction len as [|len IH]; intros k nd req m Hk.
  - simpl. rewrite drop_ge by lia. unfold dispatches. simpl.
    exists m. rewrite Z.add_0_r, app_nil_r.
    split; [done|]. split; [done|]. split; [done|].
    intros j w Hj. exists w. split; [done|]. split; [done|]. split; [done|].
    split; [|done]. intros Hkj. apply lookup_lt_Some in Hj. lia.
  - cbn [seq Master.dispatch_loop].
    destruct (Master.workers_ m !! k) as [w|] eqn:Hw;
      [|apply lookup_ge_None in Hw; lia].
    rewrite (drop_S _ w k Hw).
    erewrite bind_Ok; [|unfold Master.worker; erewrite bind_Ok; [|reflexivity];
                         rewrite Hw; reflexivity].
    unfold dispatches. cbn [fmap list_fmap concat].
    fold (dispatches r tb (drop (S k) (Master.workers_ m))).
    change ((0 <? WorkerState.num_pending w) && (WorkerState.num_active w =? 0))
      with (dispatchable w).
    destruct (dispatchable w) eqn:Hd.
    + assert (∃ j best, max_element TaskState.WeightCompare (WorkerState.pending w)
                        = Some (j, best)) as (j & best & Hbest).
      { apply andb_true_iff in Hd as [Hp _]. apply Nat.ltb_lt in Hp.
        unfold WorkerState.num_pending in Hp.
        destruct (max_element_is_Some TaskState.WeightCompare (WorkerState.pending w))
          as [[j best] Hb]; [|by exists j, best].
        intros E. rewrite E in Hp. simpl in Hp. lia. }
      destruct (get_next_effect k r req m w j best tb Hw Hbest Ht)
        as (w' & m1 & Hrun & Hws & Htr & Hwork & Hid & Hsh).
      erewrite bind_Ok; [|exact Hrun]. cbv beta iota.
      erewrite bind_Ok; [|reflexivity].
      set (m2 := Master.set_trace _ m1).
      assert (Master.workers_ m2 = <[k := w']> (Master.workers_ m)) as Hws2 by done.
      destruct (IH (S k) (nd + 1)%Z
                  (mkKernelRequest (RunDescriptor.kernel r) (RunDescriptor.method r)
                     (table_id tb) (Taskid.shard (TaskState.id best))) m2)
        as (m' & Hrun' & Htr' & Hlen' & Hall').
      { rewrite Hws2, length_insert. lia. }
      rewrite Hws2 in Hrun', Htr', Hlen', Hall'.
      rewrite drop_insert_lt in Hrun', Htr' by lia.
      assert (dispatch_of r tb w
              = [Send (WorkerState.id w + 1)
                   (MTYPE_RUN_KERNEL
                      (mkKernelRequest (RunDescriptor.kernel r)
                         (RunDescriptor.method r) (table_id tb)
                         (Taskid.shard (TaskState.id best))))]) as Hdo.
      { unfold dispatch_of, WorkerState.best_pending. by rewrite Hbest. }
      exists m'. rewrite Hdo. cbn [app length].
      split. { rewrite Hrun'. f_equal. lia. }
      split. { rewrite Htr'. subst m2. simpl. rewrite Htr, <- app_assoc. done. }
      split. { by rewrite Hlen', length_insert. }
      intros i v Hi. destruct (decide (i = k)) as [->|Hne].
      * simplify_eq.
        destruct (Hall' k w') as (w'' & Hw'' & Hid'' & Hsh'' & _ & Hsame).
        { apply list_lookup_insert_eq. by eapply lookup_lt_Some. }
        rewrite (Hsame (or_introl (Nat.lt_succ_diag_r k))) in Hw''.
        exists w'. split; [done|]. split; [done|]. split; [done|].
        split; [|intros [?|?]; [lia|congruence]].
        intros _ _. unfold WorkerState.num_active, WorkerState.active,
          WorkerState.tasks_in. rewrite Hwork.
        apply andb_true_iff in Hd as [_ Ha]. apply Nat.eqb_eq in Ha.
        unfold WorkerState.num_active, WorkerState.active,
          WorkerState.tasks_in in Ha.
        pose proof (with_status_modify_le ACTIVE (TaskState.set_status ACTIVE)
                      (TaskState.id best) (WorkerState.work w)) as Hle.
        pose proof (with_status_modify_ge ACTIVE best (WorkerState.work w)) as Hge.
        assert (best ∈ WorkerState.work w) as Hin.
        { apply max_element_elem_of in Hbest.
          by apply elem_of_with_status in Hbest as [? _]. }
        specialize (Hge Hin). lia.
      * destruct (Hall' i v) as (v' & Hv' & Hid' & Hsh' & Hact & Hsame).
        { by rewrite list_lookup_insert_ne. }
        exists v'. split; [done|]. split; [done|]. split; [done|].
        split; [intros ?; apply Hact; lia|].
        intros [?|?]; apply Hsame; [left; lia | by right].
    + destruct (IH (S k) nd req m) as (m' & Hrun' & Htr' & Hlen' & Hall');
        [lia|].
      exists m'. simpl. split; [done|]. split; [done|]. split; [done|].
      intros i v Hi. destruct (Hall' i v Hi) as (v' & Hv' & Hid' & Hsh' & Hact & Hsame).
      exists v'. split; [done|]. split; [done|]. split; [done|].
      split.
      * intros Hki Hdv. destruct (decide (i = k)) as [->|Hne]; [|apply Hact; [lia|done]].
        simplify_eq. congruence.
      * intros [?|?]; [|by apply Hsame; right].
        destruct (decide (i = k)) as [->|Hne]; [|apply Hsame; left; lia].
        simplify_eq. apply Hsame. by right.
Qed.

Lemma length_dispatches r tb ws :
  length (dispatches r tb ws)
  = length (filter (λ w, dispatchable w = true) ws).
Proof.
  unfold dispatches. induction ws as [|w ws IHws]; [done|].
  rewrite filter_cons. cbn [fmap list_fmap concat]. rewrite length_app, IHws.
  destruct (dispatchable w) eqn:Hd.
  - rewrite decide_True by done. simpl. f_equal.
    unfold dispatch_of, WorkerState.best_pending.
    apply andb_true_iff in Hd as [Hp _]. apply Nat.ltb_lt in Hp.
    unfold WorkerState.num_pending in Hp.
    destruct (max_element_is_Some TaskState.WeightCompare (WorkerState.pending w))
      as [[j best] ->]; [|done].
    intros E. rewrite E in Hp. simpl in Hp. lia.
  - by rewrite decide_False by congruence.
Qed.

(** X10.  With a table in the descriptor, [dispatch_work] returns the
    number of workers that have a pending task and no active one; it sends
    that many messages, one RUN_KERNEL to each such worker in index order
    (to network id [id + 1], for the shard of the task [get_next] picks);
    each of them then has exactly one active task, and the other workers are
    unchanged. *)
Theorem dispatch_work_counts_its_messages r tb m :
  RunDescriptor.table r = Some tb →
  ∃ m',
    Master.dispatch_work r m
    = Master.Ok (Z.of_nat (length (filter (λ w, dispatchable w = true)
                                     (Master.workers_ m)))) m'
    ∧ Master.trace m' = Master.trace m ++ dispatches r tb (Master.workers_ m)
    ∧ length (dispatches r tb (Master.workers_ m))
      = length (filter (λ w, dispatchable w = true) (Master.workers_ m))
    ∧ (∀ j w, Master.workers_ m !! j = Some w →
         ∃ w', Master.workers_ m' !! j = Some w'
               ∧ WorkerState.shards w' = WorkerState.shards w
               ∧ (dispatchable w = true → WorkerState.num_active w' = 1)
               ∧ (dispatchable w = false → w' = w)).
Proof.
  intros Ht. unfold Master.dispatch_work.
  erewrite bind_Ok; [|reflexivity].
  destruct (dispatch_loop_sends r tb 0 (length (Master.workers_ m)) 0
              (mkKernelRequest "" "" 0 0) m Ht eq_refl)
    as (m' & Hrun & Htr & Hlen & Hall).
  rewrite drop_0 in Hrun, Htr.
  pose proof (length_dispatches r tb (Master.workers_ m)) as Hcount.
  exists m'. split; [by rewrite Hrun, Hcount|]. split; [done|]. split; [done|].
  intros j w Hj. destruct (Hall j w Hj) as (w' & Hw' & _ & Hsh & Hact & Hsame).
  exists w'. split; [done|]. split; [done|].
  split; [intros ?; apply Hact; [lia|done] | intros ?; apply Hsame; by right].
Qed.

(** In the example only worker 1 has a pending task. *)
Lemma dispatch_work_counts_its_messages_witness :
  ∃ m', Master.dispatch_work ex_run13 ex_assigned = Master.Ok 1%Z m'
        ∧ Master.trace m'
          = Master.trace ex_assigned
            ++ [Send 2 (MTYPE_RUN_KERNEL (mkKernelRequest "K" "run" 0 1))].
Proof.
  destruct (dispatch_work_counts_its_messages ex_run13 (mkTable 0 4) ex_assigned)
    as (m' & Hrun & Htr & _); [reflexivity|].
  exists m'. split.
  - rewrite Hrun. f_equal.
  - rewrite Htr. f_equal.
Defined.

Lemma for_each_tables_known (l : list ShardInfo) m :
  Master.for_each l
    (λ si, Master.bind (Master.gets Master.tables_)
             (λ tables, Master.bind (Master.deref (tables !! si_table si))
                          (λ _, Master.ret tt))) m
  = if forallb (λ si, bool_decide (is_Some (Master.tables_ m !! si_table si))) l
    then Master.Ok tt m else Master.Undef.
Proof.
  induction l as [|si l IH]; simpl; [done|].
  munfold. simpl. destruct (Master.tables_ m !! si_table si); simpl; [|done].
  apply IH.
Qed.

(** X11.  The outcomes of [reap_one_task].  With no KERNEL_DONE message
    to read it returns -1, having slept [FLAGS_sleep_time] and touched no
    worker, clock or counter.  With a message from network id [src] it
    returns only the worker index [src - 1], which is then not negative: the
    message is consumed, the clock read three times, the task named in the
    message marked Finished in that worker, its running time and ping time
    updated, and the method's [shard_calls] raised by one.  It stops at a
    failed CHECK exactly when that worker does not hold the task as Active,
    and is undefined when [src - 1] is not the index of a worker or a table
    the message reports on is not registered. *)
Theorem reap_one_task_outcomes m :
  match Master.kernel_done_in m with
  | [] | None :: _ =>
      ∃ m', Master.reap_one_task m = Master.Ok (-1)%Z m'
            ∧ Master.workers_ m' = Master.workers_ m
            ∧ Master.trace m' = Master.trace m ++ [Sleep (Master.FLAGS_sleep_time m)]
            ∧ Master.ticks m' = Master.ticks m
            ∧ Master.finished_ m' = Master.finished_ m
            ∧ Master.kernel_done_in m' = tail (Master.kernel_done_in m)
  | Some (src, done_msg) :: rest =>
      let tid := Taskid.mk (kr_table (kd_kernel done_msg))
                           (kr_shard (kd_kernel done_msg)) in
      match Master.reap_one_task m with
      | Master.Ok w_id m' =>
          w_id = (src - 1)%Z ∧ (0 ≤ w_id)%Z
          ∧ tables_known m done_msg = true
          ∧ Master.kernel_done_in m' = rest
          ∧ Master.trace m' = Master.trace m
          ∧ Master.ticks m' = 3 + Master.ticks m
          ∧ Master.finished_ m' = Master.finished_ m
          ∧ (∃ w w1,
               Master.workers_ m !! Z.to_nat w_id = Some w
               ∧ WorkerState.set_finished tid w = Some w1
               ∧ Master.workers_ m'
                 = <[Z.to_nat w_id :=
                       reaped (Master.clock m (Master.ticks m))
                              (Master.clock m (2 + Master.ticks m)) w1]>
                     (Master.workers_ m)
               ∧ Master.method_stats_ m' !! Master.stats_key (Master.current_run_ m)
                 = Some (MethodStats.mk
                           (MethodStats.calls (current_stats m))
                           (MethodStats.shard_time (current_stats m)
                            + Master.clock m (1 + Master.ticks m)
                            - WorkerState.last_task_start w1)%Q
                           (MethodStats.shard_calls (current_stats m) + 1)%Z
                           (MethodStats.total_time (current_stats m))))
      | Master.Abort _ =>
          (0 ≤ src - 1)%Z
          ∧ ∃ w, Master.workers_ m !! Z.to_nat (src - 1) = Some w
                 ∧ WorkerState.set_finished tid w = None
      | Master.Undef =>
          (src - 1 < 0)%Z
          ∨ Master.workers_ m !! Z.to_nat (src - 1) = None
          ∨ tables_known m done_msg = false
      | Master.Spin _ => False
      end
  end.
Proof.
  unfold Master.reap_one_task.
  set (key := Master.stats_key (Master.current_run_ m)).
  erewrite bind_Ok; [|reflexivity].
  destruct (method_stats_Ok key m) as (Hms & Hlook).
  erewrite bind_Ok; [|exact Hms].
  set (m0 := Master.set_method_stats_ _ m) in *.
  assert (Master.TryRead_KERNEL_DONE m0
          = match Master.kernel_done_in m with
            | [] => Master.Ok None m0
            | x :: rest => Master.Ok x (Master.set_kernel_done_in rest m0)
            end) as Htry by reflexivity.
  destruct (Master.kernel_done_in m) as [|[[src done_msg]|] rest] eqn:Hin;
    (erewrite bind_Ok; [|exact Htry]).
  - eexists. split; [reflexivity|]. done.
  - cbv zeta.
    destruct (src - 1 <? 0)%Z eqn:Hneg.
    { erewrite bind_Undef; [left; by apply Z.ltb_lt|].
      unfold Master.index. by rewrite Hneg. }
    erewrite bind_Ok; [|unfold Master.index; by rewrite Hneg].
    apply Z.ltb_ge in Hneg.
    set (m1 := Master.set_kernel_done_in rest m0).
    destruct (Master.workers_ m !! Z.to_nat (src - 1)) as [w|] eqn:Hw.
    2:{ erewrite bind_Undef; [by right; left|].
        unfold Master.worker. erewrite bind_Ok; [|reflexivity]. simpl.
        by rewrite Hw. }
    pose proof (lookup_lt_Some _ _ _ Hw) as Hlt.
    erewrite bind_Ok; [|by apply worker_Ok].
    rewrite (bind_rewrite _ _ _ _ (for_each_tables_known (kd_shards done_msg) m1)).
    change (forallb _ (kd_shards done_msg)) with (tables_known m done_msg).
    destruct (tables_known m done_msg) eqn:Hknown; [|by right; right].
    erewrite bind_Ok; [|by apply worker_Ok].
    destruct (WorkerState.set_finished _ w) as [w1|] eqn:Hfin.
    2:{ split; [done|]. by exists w. }
    erewrite bind_Ok; [|reflexivity].
    erewrite bind_Ok; [|reflexivity].
    step_worker.
    erewrite bind_Ok; [|reflexivity].
    erewrite bind_Ok; [|reflexivity].
    step_worker.
    erewrite bind_Ok; [|apply method_stats_found; exact Hlook].
    erewrite bind_Ok; [|reflexivity].
    erewrite bind_Ok; [|reflexivity].
    step_worker.
    erewrite bind_Ok; [|reflexivity].
    unfold Master.ret. simpl.
    split; [done|]. split; [done|]. split; [done|]. split; [done|].
    split; [done|]. split; [done|]. split; [done|].
    exists w, w1. split; [done|]. split; [done|].
    split; [by rewrite !list_insert_insert_eq|].
    by rewrite lookup_insert_eq.
  - eexists. split; [reflexivity|]. done.
Qed.
(** ** What a computation leaves alone

    A view of the master's state and a preorder on it: a computation keeps
    the view when every state it returns in has a view above the one it
    started from. *)

Section Frame.

Context {V : Type} (view : Master.t → V) (le : V → V → Prop).

Hypothesis le_refl : ∀ v, le v v.
Hypothesis le_trans : ∀ a b c, le a b → le b c → le a c.
Hypothesis view_workers : ∀ x m, view (Master.set_workers_ x m) = view m.
Hypothesis view_trace : ∀ x m, view (Master.set_trace x m) = view m.
Hypothesis view_method_stats : ∀ x m, view (Master.set_method_stats_ x m) = view m.
Hypothesis view_kernels : ∀ x m, view (Master.set_kernels_ x m) = view m.
Hypothesis view_shards_assigned :
  ∀ x m, view (Master.set_shards_assigned_ x m) = view m.
Hypothesis view_kernel_done_in :
  ∀ x m, view (Master.set_kernel_done_in x m) = view m.
Hypothesis view_tick :
  ∀ m, le (view m) (view (Master.set_ticks (S (Master.ticks m)) m)).

Definition keeps {A : Type} (c : Master.M A) : Prop :=
  ∀ m a m', c m = Master.Ok a m' → le (view m) (view m').

Lemma keeps_bind {A B} (c : Master.M A) (k : A → Master.M B) :
  keeps c → (∀ a, keeps (k a)) → keeps (Master.bind c k).
Proof.
  intros Hc Hk m b m'. unfold Master.bind.
  destruct (c m) as [a m1| | |] eqn:E; try done.
  intros H. eapply le_trans; [by eapply Hc | by eapply Hk].
Qed.

Lemma keeps_ret {A} (a : A) : keeps (Master.ret a).
Proof. intros m b m' H. inversion H; subst. apply le_refl. Qed.

Lemma keeps_gets {A} (f : Master.t → A) : keeps (Master.gets f).
Proof. intros m b m' H. inversion H; subst. apply le_refl. Qed.

Lemma keeps_deref {A} (o : option A) : keeps (Master.deref o).
Proof.
  destruct o; intros m b m' H; [|done].
  inversion H; subst. apply le_refl.
Qed.

Lemma keeps_CHECK b : keeps (Master.CHECK b).
Proof.
  destruct b; intros m x m' H; [|done].
  inversion H; subst. apply le_refl.
Qed.

Lemma keeps_abort {A} : keeps (@Master.abort A).
Proof. done. Qed.

Lemma keeps_undef {A} : keeps (@Master.undef A).
Proof. done. Qed.

Lemma keeps_spin {A} : keeps (@Master.spin A).
Proof. done. Qed.

Lemma keeps_index z : keeps (Master.index z).
Proof.
  unfold Master.index. destruct (z <? 0)%Z; [apply keeps_undef | apply keeps_ret].
Qed.

Lemma keeps_modify f : (∀ m, le (view m) (view (f m))) → keeps (Master.modify f).
Proof. intros Hf m b m' H. inversion H; subst. apply Hf. Qed.

Lemma keeps_Now : keeps Master.Now.
Proof. intros m b m' H. inversion H; subst. apply view_tick. Qed.

Lemma keeps_emit e : keeps (Master.emit e).
Proof. apply keeps_modify. intros m. rewrite view_trace. apply le_refl. Qed.

Lemma keeps_worker i : keeps (Master.worker i).
Proof. apply keeps_bind; [apply keeps_gets | intros; apply keeps_deref]. Qed.

Lemma keeps_set_worker i w : keeps (Master.set_worker i w).
Proof. apply keeps_modify. intros m. rewrite view_workers. apply le_refl. Qed.

Lemma keeps_TryRead_KERNEL_DONE : keeps Master.TryRead_KERNEL_DONE.
Proof.
  intros m b m'. unfold Master.TryRead_KERNEL_DONE.
  destruct (Master.kernel_done_in m); intros H; inversion H; subst;
    [apply le_refl|].
  rewrite view_kernel_done_in. apply le_refl.
Qed.

Lemma keeps_for_each {A} (l : list A) (body : A → Master.M unit) :
  (∀ x, keeps (body x)) → keeps (Master.for_each l body).
Proof.
  intros Hb. induction l as [|x l IH]; simpl; [apply keeps_ret|].
  apply keeps_bind; [apply Hb | intros; apply IH].
Qed.

Lemma keeps_method_stats key : keeps (Master.method_stats key).
Proof.
  unfold Master.method_stats. apply keeps_bind; [apply keeps_gets|]. intros ms.
  destruct (ms !! key); [apply keeps_ret|].
  apply keeps_bind; [|intros; apply keeps_ret].
  apply keeps_modify. intros m. rewrite view_method_stats. apply le_refl.
Qed.

Lemma keeps_set_method_stats key s : keeps (Master.set_method_stats key s).
Proof. apply keeps_modify. intros m. rewrite view_method_stats. apply le_refl. Qed.

Lemma keeps_kernel name : keeps (Master.kernel name).
Proof.
  unfold Master.kernel. apply keeps_bind; [apply keeps_gets|]. intros ks.
  destruct (ks !! name); [apply keeps_ret|].
  apply keeps_bind; [|intros; apply keeps_ret].
  apply keeps_modify. intros m. rewrite view_kernels. apply le_refl.
Qed.

Lemma keeps_get_next i r msg : keeps (Master.get_next i r msg).
Proof.
  unfold Master.get_next. apply keeps_bind; [apply keeps_worker|]. intros w.
  destruct (WorkerState.best_pending w); [|apply keeps_ret].
  apply keeps_bind; [apply keeps_deref|]. intros tb.
  apply keeps_bind; [apply keeps_set_worker|]. intros _.
  apply keeps_bind; [apply keeps_Now|]. intros now.
  apply keeps_bind; [apply keeps_worker|]. intros w1.
  apply keeps_bind; [apply keeps_set_worker|]. intros _. apply keeps_ret.
Qed.

Lemma keeps_assign_worker table shard : keeps (Master.assign_worker table shard).
Proof.
  unfold Master.assign_worker, Master.worker_for_shard.
  apply keeps_bind; [apply keeps_bind; [apply keeps_gets | intros; apply keeps_ret]|].
  intros [i|].
  - apply keeps_bind; [apply keeps_worker|]. intros w.
    apply keeps_bind; [apply keeps_set_worker | intros; apply keeps_ret].
  - apply keeps_bind; [apply keeps_gets|]. intros ws.
    apply keeps_bind; [apply keeps_gets|]. intros dead.
    destruct (Master.least_loaded_from _ _ _ _) as [[i best]|]; [|apply keeps_abort].
    apply keeps_bind; [apply keeps_CHECK|]. intros _.
    apply keeps_bind; [apply keeps_gets|]. intros tables.
    apply keeps_bind; [apply keeps_deref|]. intros w1.
    apply keeps_bind; [apply keeps_set_worker | intros; apply keeps_ret].
Qed.

Lemma keeps_send_table_assignments : keeps Master.send_table_assignments.
Proof.
  unfold Master.send_table_assignments.
  apply keeps_bind; [apply keeps_gets | intros; apply keeps_emit].
Qed.

Lemma keeps_assign_tables : keeps Master.assign_tables.
Proof.
  unfold Master.assign_tables. apply keeps_bind.
  { apply keeps_modify. intros m. rewrite view_shards_assigned. apply le_refl. }
  intros _. apply keeps_bind; [apply keeps_gets|]. intros tables.
  apply keeps_for_each. intros it. apply keeps_for_each. intros j.
  apply keeps_bind; [apply keeps_assign_worker | intros; apply keeps_ret].
Qed.

Lemma keeps_assign_tasks r shards : keeps (Master.assign_tasks r shards).
Proof.
  unfold Master.assign_tasks. apply keeps_bind; [apply keeps_gets|]. intros ws.
  apply keeps_bind.
  { apply keeps_modify. intros m. rewrite view_workers. apply le_refl. }
  intros _. apply keeps_for_each. intros s.
  apply keeps_bind; [apply keeps_deref|]. intros tb.
  apply keeps_bind; [apply keeps_assign_worker | intros; apply keeps_ret].
Qed.

Lemma keeps_dispatch_loop r idxs n req : keeps (Master.dispatch_loop r idxs n req).
Proof.
  revert n req. induction idxs as [|i idxs IH]; intros n req; simpl;
    [apply keeps_ret|].
  apply keeps_bind; [apply keeps_worker|]. intros w.
  destruct (_ && _); [|apply IH].
  apply keeps_bind; [apply keeps_get_next|]. intros [b req'].
  apply keeps_bind; [apply keeps_emit | intros; apply IH].
Qed.

Lemma keeps_dispatch_work r : keeps (Master.dispatch_work r).
Proof.
  unfold Master.dispatch_work.
  apply keeps_bind; [apply keeps_gets | intros; apply keeps_dispatch_loop].
Qed.

Lemma keeps_reap_one_task : keeps Master.reap_one_task.
Proof.
  unfold Master.reap_one_task. apply keeps_bind; [apply keeps_gets|]. intros r.
  apply keeps_bind; [apply keeps_method_stats|]. intros _.
  apply keeps_bind; [apply keeps_TryRead_KERNEL_DONE|]. intros [[src done_msg]|].
  - apply keeps_bind; [apply keeps_index|]. intros i.
    apply keeps_bind; [apply keeps_worker|]. intros _.
    apply keeps_bind.
    { apply keeps_for_each. intros si.
      apply keeps_bind; [apply keeps_gets|]. intros tables.
      apply keeps_bind; [apply keeps_deref | intros; apply keeps_ret]. }
    intros _. apply keeps_bind; [apply keeps_worker|]. intros w.
    destruct (WorkerState.set_finished _ w); [|apply keeps_abort].
    apply keeps_bind; [apply keeps_set_worker|]. intros _.
    apply keeps_bind; [apply keeps_Now|]. intros now1.
    apply keeps_bind; [apply keeps_worker|]. intros w1.
    apply keeps_bind; [apply keeps_set_worker|]. intros _.
    apply keeps_bind; [apply keeps_Now|]. intros now2.
    apply keeps_bind; [apply keeps_worker|]. intros w2.
    apply keeps_bind; [apply keeps_method_stats|]. intros mstats.
    apply keeps_bind; [apply keeps_set_method_stats|]. intros _.
    apply keeps_bind; [apply keeps_Now|]. intros now3.
    apply keeps_bind; [apply keeps_worker|]. intros w3.
    apply keeps_bind; [apply keeps_set_worker | intros; apply keeps_ret].
  - apply keeps_bind; [apply keeps_gets|]. intros secs.
    apply keeps_bind; [apply keeps_emit | intros; apply keeps_ret].
Qed.

End Frame.
(** ** The run and the gate of the barrier *)

Lemma returned_bind_false {A B} (c : Master.M A) (k : A → Master.M B) m :
  (∀ a m', c m = Master.Ok a m' → returned (k a m') = false) →
  returned (Master.bind c k m) = false.
Proof. unfold Master.bind. destruct (c m); auto. Qed.

Lemma epoch_kept {A} (c : Master.M A) m a m' :
  keeps epoch_view eq c → c m = Master.Ok a m' →
  Master.finished_ m' = Master.finished_ m
  ∧ Master.current_run_ m' = Master.current_run_ m.
Proof.
  intros Hc H. specialize (Hc m a m' H). unfold epoch_view in Hc.
  by injection Hc as -> ->.
Qed.

Ltac epoch_keeps lem :=
  apply lem; first [done | congruence].

(** X12.  [run] does not return for a descriptor with a shard to run,
    whatever the state, the messages and the time given: it stops at a
    failed CHECK, is undefined, or is still in the barrier. *)
Theorem run_never_returns fuel r m :
  RunDescriptor.shards r ≠ [] →
  returned (Master.run fuel r m) = false.
Proof.
  intros Hne. unfold Master.run.
  apply returned_bind_false; intros cur m1 H0.
  apply returned_bind_false; intros fin m1' H0'.
  apply returned_bind_false; intros [] m1'' H1.
  apply returned_bind_false; intros [] m2 H2.
  apply returned_bind_false; intros [] m3 H3.
  apply returned_bind_false; intros k m4 H4.
  apply returned_bind_false; intros [] m5 H5.
  apply returned_bind_false; intros [] m6 H6.
  apply returned_bind_false; intros k' m7 H7.
  apply returned_bind_false; intros [] m8 H8.
  cbv zeta.
  apply returned_bind_false; intros mstats m9 H9.
  apply returned_bind_false; intros [] m10 H10.
  apply returned_bind_false; intros [] m11 H11.
  apply returned_bind_false; intros now m12 H12.
  apply returned_bind_false; intros [] m13 H13.
  apply returned_bind_false; intros assigned m14 H14.
  apply returned_bind_false; intros [] m15 H15.
  apply returned_bind_false; intros [] m16 H16.
  apply returned_bind_false; intros cur' m17 H17.
  apply returned_bind_false; intros [] m18 H18.
  apply returned_bind_false; intros n m19 H19.
  apply returned_bind_false; intros [] m20 H20.
  assert (Master.finished_ m3 = 0%Z) as F3 by (by inversion H3).
  apply epoch_kept in H4 as [F4 _]; [|by epoch_keeps (@keeps_kernel)].
  apply epoch_kept in H5 as [F5 _]; [|by epoch_keeps (@keeps_CHECK)].
  apply epoch_kept in H6 as [F6 _]; [|by epoch_keeps (@keeps_CHECK)].
  apply epoch_kept in H7 as [F7 _]; [|by epoch_keeps (@keeps_deref)].
  apply epoch_kept in H8 as [F8 _]; [|by epoch_keeps (@keeps_CHECK)].
  apply epoch_kept in H9 as [F9 _]; [|by epoch_keeps (@keeps_method_stats)].
  apply epoch_kept in H10 as [F10 _]; [|by epoch_keeps (@keeps_set_method_stats)].
  assert (Master.finished_ m11 = Master.finished_ m10
          ∧ Master.current_run_ m11 = r) as [F11 R11] by (by inversion H11).
  assert (Master.finished_ m12 = Master.finished_ m11
          ∧ Master.current_run_ m12 = Master.current_run_ m11) as [F12 R12]
    by (by inversion H12).
  assert (Master.finished_ m13 = Master.finished_ m12
          ∧ Master.current_run_ m13 = Master.current_run_ m12) as [F13 R13]
    by (by inversion H13).
  assert (m14 = m13) as -> by (by inversion H14).
  apply epoch_kept in H15 as [F15 R15].
  2:{ destruct assigned; [by epoch_keeps (@keeps_ret)|].
      apply keeps_bind; [congruence| |intros _].
      - by epoch_keeps (@keeps_assign_tables).
      - by epoch_keeps (@keeps_send_table_assignments). }
  assert (Master.finished_ m16 = Master.finished_ m15
          ∧ Master.current_run_ m16 = Master.current_run_ m15) as [F16 R16]
    by (by inversion H16).
  assert (m17 = m16 ∧ cur' = Master.current_run_ m16) as [-> ->]
    by (by inversion H17).
  apply epoch_kept in H18 as [F18 R18]; [|by epoch_keeps (@keeps_assign_tasks)].
  apply epoch_kept in H19 as [F19 R19]; [|by epoch_keeps (@keeps_dispatch_work)].
  assert (Master.finished_ m20 = Master.finished_ m19
          ∧ Master.current_run_ m20 = Master.current_run_ m19) as [F20 R20]
    by (by inversion H20).
  apply barrier_never_returns.
  assert (Master.current_run_ m20 = r) as -> by congruence.
  assert (Master.finished_ m20 = 0%Z) as -> by congruence.
  destruct (RunDescriptor.shards r); [done|]. simpl. lia.
Qed.

(** The epoch of one task of the example. *)
Lemma run_never_returns_witness :
  returned (Master.run 8 ex_run1 ex_flush) = false.
Proof. apply run_never_returns. discriminate. Defined.

Lemma clock_kept {A} (c : Master.M A) m a m' :
  keeps clock_view clock_le c → c m = Master.Ok a m' →
  Master.clock m' = Master.clock m ∧ Master.ticks m ≤ Master.ticks m'.
Proof.
  intros Hc H. destruct (Hc m a m' H) as [H1 H2]. simpl in *.
  split; [by symmetry | done].
Qed.

Lemma keeps_clock_reap : keeps clock_view clock_le Master.reap_one_task.
Proof.
  apply keeps_reap_one_task; try done; unfold clock_le.
  - intros [c1 t1] [c2 t2] [c3 t3] [? ?] [? ?]. simpl in *. split; [congruence | lia].
  - intros m. split; simpl; [done | lia].
Qed.

Lemma gate_closed_monotone m m1 :
  clock_monotone m → Master.clock m1 = Master.clock m →
  Master.ticks m ≤ Master.ticks m1 →
  Master.gate_open (Master.clock m (Master.ticks m))
                   (Master.clock m1 (Master.ticks m1)) = false.
Proof.
  intros Hmono Hc Ht. unfold Master.gate_open, dlt.
  apply negb_false_iff, Qle_bool_iff. rewrite Hc.
  specialize (Hmono _ _ Ht). lra.
Qed.

Lemma filter_steal_snoc l e :
  is_steal_attempt e = false →
  List.filter is_steal_attempt (l ++ [e]) = List.filter is_steal_attempt l.
Proof. intros H. rewrite List.filter_app. simpl. rewrite H. apply app_nil_r. Qed.

Lemma barrier_work_no_steal key m l0 :
  clock_monotone m →
  steal_attempts m = l0 →
  wp (Master.barrier_work key)
     (λ _ m', steal_attempts m' = l0) (λ m', steal_attempts m' = l0) m.
Proof.
  intros Hmono Hsa.
  set (T := λ l, List.filter is_steal_attempt l = l0).
  assert (∀ l e, is_steal_attempt e = false → T l → T (l ++ [e])) as HT.
  { intros l e He Hl. unfold T. by rewrite filter_steal_snoc. }
  set (I := INV (length (Master.workers_ m)) (λ _ _, True) T).
  assert (∀ A (c : Master.M A) m0, wp c (λ _, I) I m0 →
            wp c (λ _ m', steal_attempts m' = l0) (λ m', steal_attempts m' = l0) m0)
    as Hdone.
  { intros A c m0 H. unfold wp in *.
    destruct (c m0); try done; by destruct H as (_ & _ & ?). }
  unfold Master.barrier_work, wp, Master.bind at 1, Master.Now at 1.
  set (m0 := Master.set_ticks (S (Master.ticks m)) m).
  assert (I m0) as Hinv0 by (by split).
  pose proof (reap_one_task_inv (length (Master.workers_ m)) (λ _ _, True) T) as Hreap.
  assert (wp Master.reap_one_task (λ _, I) I m0) as Hr.
  { apply Hreap; try done; intros; by apply HT. }
  unfold Master.bind at 1. unfold wp in Hr.
  destruct (Master.reap_one_task m0) as [w_id m1| m1 | | m1] eqn:Hrun; try done;
    try (by destruct Hr as (_ & _ & ?)).
  apply (clock_kept _ _ _ _ keeps_clock_reap) in Hrun as [Hc Ht].
  destruct (0 <=? w_id)%Z; [|by destruct Hr as (_ & _ & ?)].
  unfold Master.bind at 1. unfold Master.modify at 1.
  unfold Master.bind at 1. unfold Master.Now at 1.
  rewrite (gate_closed_monotone m); [|done|simpl; by rewrite Hc|simpl in *; lia].
  unfold Master.bind at 1. unfold Master.ret at 1.
  apply (Hdone _ Master.redispatch).
  assert (I (Master.set_ticks (S (Master.ticks m1))
               (Master.set_finished_ (Master.finished_ m1 + 1) m1))) as Hinv1.
  { destruct Hr as (? & ? & ?). by split. }
  apply redispatch_inv; try done; intros; by apply HT.
Qed.

(** X13.  On a clock that never runs backwards the barrier makes no call
    of [steal_work]: the gate compares the reading taken before the reap
    minus the reading taken after it with 0.1, so it stays closed, in every
    outcome of the barrier. *)
Theorem barrier_never_steals_on_monotone_clock fuel m :
  clock_monotone m →
  wp (Master.barrier fuel)
     (λ _ m', steal_attempts m' = steal_attempts m)
     (λ m', steal_attempts m' = steal_attempts m) m.
Proof.
  intros Hmono.
  set (T := λ l, List.filter is_steal_attempt l = steal_attempts m).
  assert (∀ l e, is_steal_attempt e = false → T l → T (l ++ [e])) as HT.
  { intros l e He Hl. unfold T. by rewrite filter_steal_snoc. }
  unfold Master.barrier. apply wp_bind, wp_gets. apply wp_bind.
  destruct (method_stats_Ok (Master.stats_key (Master.current_run_ m)) m) as [Hms _].
  unfold wp at 1. rewrite Hms.
  set (m0 := Master.set_method_stats_ _ m).
  destruct fuel as [|fuel]; [done|]. simpl.
  apply wp_bind, wp_gets, wp_bind, wp_gets.
  destruct (_ <? _)%Z; [|done].
  apply wp_bind.
  eapply wp_mono; [apply (barrier_work_no_steal _ m0 (steal_attempts m)); done|].
  intros [] m1 Hsa. cbv beta. apply wp_bind.
  pose proof (flush_loop_inv (length (Master.workers_ m1)) (λ _ _, True) T) as Hfl.
  assert (wp (Master.flush_loop fuel) (λ _ _, False)
            (INV (length (Master.workers_ m1)) (λ _ _, True) T) m1) as Hw.
  { apply Hfl; try done; intros; by apply HT. }
  revert Hw. unfold wp. destruct (Master.flush_loop fuel m1) eqn:E; try done;
    by intros (_ & _ & ?).
Qed.

(** The example on the clock that counts its readings: worker 0 is idle and
    the statistics allow a steal. *)
Lemma barrier_never_steals_on_monotone_clock_witness :
  wp (Master.barrier 6)
     (λ _ m', steal_attempts m' = steal_attempts (ex_reaping ex_clock))
     (λ m', steal_attempts m' = steal_attempts (ex_reaping ex_clock))
     (ex_reaping ex_clock).
Proof.
  apply barrier_never_steals_on_monotone_clock.
  assert (Master.clock (ex_reaping ex_clock) = ex_clock) as Hclk
    by (vm_compute; reflexivity).
  intros i j Hij. rewrite Hclk. unfold ex_clock. rewrite <- Zle_Qle. lia.
Defined.

(** ** The kernel registry *)

(** X14.  Registering a kernel under a name the registry does not have and then
    one method of it always succeeds; afterwards [kernel] finds the kernel
    under that name and leaves the registry as it is, the kernel has exactly
    the registered method, the entries of all other names are untouched, and
    registering the same name again fails its CHECK. *)
Theorem kernel_registration_round_trip name mname
    (reg : gmap string (option KernelInfo.t)) :
  reg !! name = None →
  ∃ reg1 reg2 k,
    KernelRegistry.KernelRegistrationHelper name reg = Some reg1
    ∧ KernelRegistry.MethodRegistrationHelper name mname reg1 = Some reg2
    ∧ KernelRegistry.kernel name reg2 = (Some k, reg2)
    ∧ (∀ m, KernelInfo.has_method m k = true ↔ m = mname)
    ∧ (∀ other, other ≠ name → reg2 !! other = reg !! other)
    ∧ KernelRegistry.KernelRegistrationHelper name reg2 = None.
Proof.
  intros Hn.
  set (k1 := KernelInfo.mk name ∅).
  set (k2 := KernelRegistry.register_method mname k1).
  exists (<[name := Some k1]> reg), (<[name := Some k2]> (<[name := Some k1]> reg)), k2.
  unfold KernelRegistry.KernelRegistrationHelper, KernelRegistry.MethodRegistrationHelper,
    KernelRegistry.kernel.
  rewrite Hn. rewrite bool_decide_eq_false_2 by (by intros [? ?]).
  rewrite !lookup_insert_eq.
  split; [done|]. split; [done|]. split; [done|].
  split; [|split].
  - intros m. unfold KernelInfo.has_method, KernelRegistry.register_method. simpl.
    rewrite bool_decide_eq_true. set_solver.
  - intros other Hne. by rewrite !lookup_insert_ne.
  - by rewrite bool_decide_eq_true_2.
Qed.

Lemma kernel_registration_round_trip_witness :
  ∃ reg2 k,
    KernelRegistry.kernel "K" reg2 = (Some k, reg2)
    ∧ KernelInfo.has_method "run" k = true.
Proof.
  destruct (kernel_registration_round_trip "K" "run" ∅)
    as (reg1 & reg2 & k & _ & _ & Hk & Hm & _); [done|].
  exists reg2, k. split; [done|]. by apply Hm.
Defined.

(** X15.  [KernelRegistry::kernel] on a name the registry does not have returns a
    null pointer and enters the name with that null pointer, touching no
    other entry; a second lookup returns null again and changes nothing.
    The name then counts as taken: registering a kernel under it fails the
    CHECK.  Registering a method of a class that was never registered goes
    through that null pointer.  The master's own lookup of a kernel does
    the same to its registry. *)
Theorem kernel_lookup_of_unknown_name name
    (reg : gmap string (option KernelInfo.t)) :
  reg !! name = None →
  ∃ reg',
    KernelRegistry.kernel name reg = (None, reg')
    ∧ reg' !! name = Some None
    ∧ (∀ other, other ≠ name → reg' !! other = reg !! other)
    ∧ KernelRegistry.kernel name reg' = (None, reg')
    ∧ KernelRegistry.KernelRegistrationHelper name reg' = None
    ∧ (∀ mname, KernelRegistry.MethodRegistrationHelper name mname reg = None)
    ∧ (∀ m, Master.kernels_ m = reg →
            Master.kernel name m = Master.Ok None (Master.set_kernels_ reg' m)).
Proof.
  intros Hn. exists (<[name := None]> reg).
  unfold KernelRegistry.kernel, KernelRegistry.KernelRegistrationHelper,
    KernelRegistry.MethodRegistrationHelper, KernelRegistry.kernel.
  rewrite Hn, lookup_insert_eq.
  split; [done|]. split; [done|].
  split; [by intros other Hne; rewrite lookup_insert_ne|].
  split; [done|]. split; [by rewrite bool_decide_eq_true_2|].
  split; [done|].
  intros m <-. unfold Master.kernel. munfold. simpl. by rewrite Hn.
Qed.

Lemma kernel_lookup_of_unknown_name_witness :
  ∃ reg', KernelRegistry.kernel "L" ex_kernels = (None, reg')
          ∧ KernelRegistry.KernelRegistrationHelper "L" reg' = None.
Proof.
  destruct (kernel_lookup_of_unknown_name "L" ex_kernels)
    as (reg' & Hk & _ & _ & _ & Hr & _); [vm_compute; reflexivity|].
  by exists reg'.
Defined.

(** X16.  Registering a method of a registered class adds that one method name to
    the kernel and changes nothing else: the kernel keeps its name and all
    the methods it had, the other entries of the registry stay, and
    registering the same method again leaves the registry as it is. *)
Theorem method_registration_adds_one_method klass mname
    (reg : gmap string (option KernelInfo.t)) k :
  reg !! klass = Some (Some k) →
  ∃ k',
    KernelRegistry.MethodRegistrationHelper klass mname reg
    = Some (<[klass := Some k']> reg)
    ∧ KernelInfo.name_ k' = KernelInfo.name_ k
    ∧ (∀ m, KernelInfo.has_method m k'
            = bool_decide (m = mname) || KernelInfo.has_method m k)
    ∧ KernelRegistry.MethodRegistrationHelper klass mname (<[klass := Some k']> reg)
      = Some (<[klass := Some k']> reg).
Proof.
  intros Hk. exists (KernelRegistry.register_method mname k).
  unfold KernelRegistry.MethodRegistrationHelper, KernelRegistry.kernel.
  rewrite Hk, lookup_insert_eq. split; [done|]. split; [done|]. split.
  - intros m. unfold KernelInfo.has_method, KernelRegistry.register_method. simpl.
    apply eq_true_iff_eq. rewrite orb_true_iff, !bool_decide_eq_true. set_solver.
  - f_equal. rewrite insert_insert_eq. f_equal. f_equal.
    unfold KernelRegistry.register_method. simpl. f_equal. set_solver.
Qed.

Lemma method_registration_adds_one_method_witness :
  ∃ k', KernelRegistry.MethodRegistrationHelper "K" "step" ex_kernels
        = Some (<["K" := Some k']> ex_kernels)
        ∧ KernelInfo.has_method "step" k' = true
        ∧ KernelInfo.has_method "run" k' = true.
Proof.
  destruct (method_registration_adds_one_method "K" "step" ex_kernels
              (KernelInfo.mk "K" {["run"]}))
    as (k' & Hr & _ & Hm & _); [vm_compute; reflexivity|].
  exists k'. split; [done|]. rewrite !Hm. split; vm_compute; reflexivity.
Defined.

(** ** The source of a steal *)

Lemma max_element_from_measure {A} (f : A → nat) (l pre : list A) best j x :
  first_greatest f pre best.1 best.2 →
  max_element_from (λ a b, f a <? f b) best (length pre) l = (j, x) →
  first_greatest f (pre ++ l) j x.
Proof.
  revert pre best. induction l as [|y l IH]; simpl; intros pre [i b] Hb H.
  - rewrite app_nil_r. by simplify_eq.
  - replace (pre ++ y :: l) with ((pre ++ [y]) ++ l) by by rewrite <- app_assoc.
    replace (S (length pre)) with (length (pre ++ [y])) in H
      by (rewrite length_app; simpl; lia).
    eapply IH; [|exact H]. clear IH H.
    destruct Hb as [Hi Hmax]. simpl in *.
    pose proof (lookup_lt_Some _ _ _ Hi) as Hlt.
    destruct (f b <? f y) eqn:E; simpl.
    + apply Nat.ltb_lt in E. split.
      * by rewrite lookup_app_r, Nat.sub_diag by lia.
      * intros k z Hk. apply lookup_app_Some in Hk as [Hk | [Hge Hk]].
        -- destruct (Hmax k z Hk) as [? _].
           pose proof (lookup_lt_Some _ _ _ Hk). lia.
        -- apply list_lookup_singleton_Some in Hk as [Hk <-]. lia.
    + apply Nat.ltb_ge in E. split.
      * by apply lookup_app_l_Some.
      * intros k z Hk. apply lookup_app_Some in Hk as [Hk | [Hge Hk]].
        -- by apply Hmax.
        -- apply list_lookup_singleton_Some in Hk as [Hk <-]. lia.
Qed.

Lemma max_element_measure {A} (f : A → nat) (l : list A) j x :
  max_element (λ a b, f a <? f b) l = Some (j, x) → first_greatest f l j x.
Proof.
  destruct l as [|x0 l]; simpl; [done|]. intros [= H].
  apply (max_element_from_measure f l [x0] (0, x0) j x); [|done].
  split; [done|]. intros k y Hk.
  apply list_lookup_singleton_Some in Hk as [-> <-]. simpl. lia.
Qed.

(** X17.  When [steal_work] steals, the worker it steals from is the first worker,
    in the order of [workers_], with the greatest number of pending tasks:
    no worker has more, every worker before it has fewer, and it has at
    least one. *)
Theorem steal_source_is_first_most_loaded r idle avg m m' :
  Master.steal_work r idle avg m = Master.Ok true m' →
  ∃ src_i src task,
    steal_pick m = Some (src_i, task)
    ∧ first_greatest WorkerState.num_pending (Master.workers_ m) src_i src
    ∧ 0 < WorkerState.num_pending src
    ∧ Master.migrate (Z.to_nat idle) src_i task m = Master.Ok true m'.
Proof.
  intros H.
  apply steal_work_picks in H as (dst & src_i & src & task & tb & Hg & Hp & Hs & Hm).
  exists src_i, src, task. split; [done|].
  destruct Hg as (_ & _ & _ & _ & Hmax & Hpos & _).
  split; [by apply max_element_measure|]. split; [lia | done].
Qed.

Lemma steal_source_is_first_most_loaded_witness :
  ∃ src task,
    steal_pick ex_assigned = Some (1, task)
    ∧ first_greatest WorkerState.num_pending (Master.workers_ ex_assigned) 1 src.
Proof.
  destruct (steal_source_is_first_most_loaded ex_run13 0 (3 # 10) ex_assigned ex_stolen)
    as (src_i & src & task & Hp & Hf & _); [vm_compute; reflexivity|].
  assert (steal_pick ex_assigned
          = Some (1, TaskState.mk (Taskid.mk 0 1) PENDING 1 false)) as Hp'
    by (vm_compute; reflexivity).
  rewrite Hp' in Hp. injection Hp as <- <-.
  by exists src, (TaskState.mk (Taskid.mk 0 1) PENDING 1 false).
Defined.

(** X18.  When the idle worker is itself the worker with the most pending tasks,
    [steal_work] still reports a steal: the worker is both source and
    destination, its task stays in its own map with the stolen flag set and
    its other tasks are as before, but the shards of the task's shard index
    are first added to it and then taken from it, so it no longer serves the
    shard of the task. *)
Theorem steal_from_oneself_drops_the_shard r idle avg m m' w task :
  Master.steal_work r idle avg m = Master.Ok true m' →
  steal_pick m = Some (Z.to_nat idle, task) →
  Master.workers_ m !! Z.to_nat idle = Some w →
  ∃ w',
    Master.workers_ m' = <[Z.to_nat idle := w']> (Master.workers_ m)
    ∧ WorkerState.shards w'
      = WorkerState.shards w
        ∖ targets (Master.tables_ m) (Taskid.shard (TaskState.id task))
    ∧ TaskMap.find (TaskState.id task) (WorkerState.work w')
      = Some (TaskState.set_stolen true task)
    ∧ (∀ k, k ≠ TaskState.id task →
         TaskMap.find k (WorkerState.work w') = TaskMap.find k (WorkerState.work w))
    ∧ (∀ tb, Master.tables_ m !! Taskid.table (TaskState.id task) = Some tb →
             (Taskid.shard (TaskState.id task) < numShards tb)%Z →
             WorkerState.serves (TaskState.id task) w' = false).
Proof.
  intros H Hpick Hw.
  apply steal_work_picks in H as (dst & src_i & src & task' & tb & Hg & Hp & Hs & Hm).
  rewrite Hpick in Hp. injection Hp as <- <-.
  rewrite (migrate_eq _ _ _ _ Hw) in Hm.
  destruct (TaskMap.find (TaskState.id task) (WorkerState.work w)) as [x|] eqn:F;
    [|done].
  injection Hm as <-.
  exists (self_after (Master.tables_ m) task w). split; [done|].
  split; [simpl; set_solver|]. split; [|split].
  - simpl. rewrite find_assign. by rewrite decide_True.
  - intros k Hk. simpl. rewrite find_assign. rewrite decide_False by done.
    by apply find_remove_ne.
  - intros tb' Htb Hlt. unfold WorkerState.serves. apply bool_decide_eq_false_2.
    simpl. intros Hin. apply elem_of_difference in Hin as [_ Hnot]. apply Hnot.
    apply elem_of_targets. split; [done|]. by exists tb'.
Qed.

Lemma steal_from_oneself_drops_the_shard_witness :
  ∃ w',
    Master.workers_ (state_of ex_assigned
                       (Master.steal_work ex_run13 1 (3 # 10) ex_assigned)) !! 1
    = Some w'
    ∧ WorkerState.serves (Taskid.mk 0 1) w' = false
    ∧ TaskMap.find (Taskid.mk 0 1) (WorkerState.work w')
      = Some (TaskState.mk (Taskid.mk 0 1) PENDING 1 true).
Proof.
  set (task := TaskState.mk (Taskid.mk 0 1) PENDING 1 false).
  evar (w : WorkerState.t). evar (m' : Master.t). evar (tb : Table).
  assert (Master.steal_work ex_run13 1 (3 # 10) ex_assigned = Master.Ok true m') as Hs
    by (subst m'; vm_compute; reflexivity).
  assert (steal_pick ex_assigned = Some (Z.to_nat 1, task)) as Hp
    by (vm_compute; reflexivity).
  assert (Master.workers_ ex_assigned !! Z.to_nat 1 = Some w) as Hw
    by (subst w; vm_compute; reflexivity).
  assert (Master.tables_ ex_assigned !! Taskid.table (TaskState.id task) = Some tb) as Htb
    by (subst tb; vm_compute; reflexivity).
  destruct (steal_from_oneself_drops_the_shard _ _ _ _ _ _ _ Hs Hp Hw)
    as (w' & Hws & _ & Hf & _ & Hserve).
  exists w'. rewrite Hs.
  change (state_of ex_assigned (Master.Ok true m')) with m'. rewrite Hws.
  split; [apply list_lookup_insert_eq; vm_compute; lia|].
  split; [|exact Hf].
  apply (Hserve tb Htb). vm_compute. reflexivity.
Defined.
